(** * Recurrent soft actor-critic: the update cycle and the rollout loops

    A shallow embedding of [rnn_sac/sac_lstm/sac.py] (class [SAC]).

    Conventions of the embedding.
    - Real-valued tensors hold exact rationals ([Q]); rounding is not
      modelled.  A tensor is its shape together with its indexing function;
      a one-dimensional tensor of [n] entries is the row [1 x n], which is
      how it broadcasts.
    - Python objects that are mutated through several names (parameter
      tensors, iterators, environments, the episodic buffer) live in
      explicit stores and are named by handles.
    - The collaborators that the file imports ([ActorCritic],
      [EpisodicBuffer], the environment, the random sources, autograd and
      Adam numerics) are the fields of a record [World]; every definition
      of the class takes it as its first argument.
    - The logger and the summary writer are not part of the state.
      [_log_trial] and [_log_test_trial] are embedded as the calls they
      make; where [train_agent] and [test_agent] call them, what they write
      is dropped and whether they raise is kept.  The other calls of the
      logger ([store]) and the printing are left out. *)

From Stdlib Require Import QArith Qminmax ZArith List Bool Lia Lqa.
From Stdlib Require String.
From stdpp Require Import base option list gmap.
Import String.StringSyntax.

Local Open Scope nat_scope.

(** ** Exceptions *)

Inductive Exn :=
| AssertionError
| RuntimeError
| UnboundLocalError
| ValueError
| ZeroDivisionError
| OutOfFuel.  (* not a Python exception: a loop of the model ran out of fuel *)

Inductive Res (A : Type) : Type :=
| Ok (a : A)
| Raise (e : Exn).
Arguments Ok {A} a.
Arguments Raise {A} e.

Definition rbind {A B} (m : Res A) (k : A -> Res B) : Res B :=
  match m with
  | Ok a => k a
  | Raise e => Raise e
  end.

Notation "'let!' x ':=' m 'in' k" := (rbind m (fun x => k))
  (at level 10, x name, m at level 100, k at level 200).

(** ** Tensors *)

Record Tensor := mkT { rows : nat; cols : nat; at_ : nat -> nat -> Q }.

Definition shape (t : Tensor) : nat * nat := (rows t, cols t).
Definition numel (t : Tensor) : nat := rows t * cols t.

(** The entries of a tensor, row by row. *)
Definition to_rows (t : Tensor) : list (list Q) :=
  map (fun i => map (fun j => Qred (at_ t i j)) (seq 0 (cols t))) (seq 0 (rows t)).

Definition of_rows (c : nat) (l : list (list Q)) : Tensor :=
  mkT (length l) c (fun i j => nth j (nth i l nil) 0%Q).

(** [t.view(-1, 1)]: the entries in row-major order, as one column. *)
Definition view_col (t : Tensor) : Tensor :=
  mkT (numel t) 1 (fun i _ => at_ t (i / cols t) (i mod cols t)).

(** [t.view(1, 1, n)]: fails unless [t] has exactly [n] entries.  The two
    leading unit dimensions are kept as the single row. *)
Definition view_hidden (n : nat) (t : Tensor) : Res Tensor :=
  if numel t =? n
  then Ok (mkT 1 n (fun _ j => at_ t (j / cols t) (j mod cols t)))
  else Raise RuntimeError.

(** A Python scalar combined with a tensor: entry by entry. *)
Definition tmap (f : Q -> Q) (t : Tensor) : Tensor :=
  mkT (rows t) (cols t) (fun i j => f (at_ t i j)).

(** Broadcasting of one dimension: equal sizes, or one of them is 1. *)
Definition bdim (m n : nat) : option nat :=
  if m =? n then Some m
  else if m =? 1 then Some n
  else if n =? 1 then Some m
  else None.

Definition bidx (m i : nat) : nat := if m =? 1 then 0 else i.

(** A binary operation on two tensors, with torch's broadcasting. *)
Definition broadcast2 (f : Q -> Q -> Q) (a b : Tensor) : Res Tensor :=
  match bdim (rows a) (rows b), bdim (cols a) (cols b) with
  | Some r, Some c =>
      Ok (mkT r c (fun i j =>
            f (at_ a (bidx (rows a) i) (bidx (cols a) j))
              (at_ b (bidx (rows b) i) (bidx (cols b) j))))
  | _, _ => Raise RuntimeError
  end.

(** [f 0 + f 1 + ... + f (n-1)], summed from the left. *)
Definition big_sum (f : nat -> Q) (n : nat) : Q :=
  fold_left (fun acc j => (acc + f j)%Q) (seq 0 n) 0%Q.

(** [t.sum(dim=1, keepdim=True)] *)
Definition sum_dim1 (t : Tensor) : Tensor :=
  mkT (rows t) 1 (fun i _ => big_sum (at_ t i) (cols t)).

(** [t.mean()]; the mean of an empty tensor is left as 0. *)
Definition mean (t : Tensor) : Q :=
  (big_sum (fun i => big_sum (at_ t i) (cols t)) (rows t)
   / inject_Z (Z.of_nat (numel t)))%Q.

(** [t.long()]: truncation toward zero. *)
Definition long (q : Q) : Z := Z.quot (Qnum q) (Zpos (Qden q)).

Definition valid_index (n : nat) (q : Q) : bool :=
  (0 <=? long q)%Z && (long q <? Z.of_nat n)%Z.

(** [t.gather(1, idx.long())]: the index tensor may not have more rows than
    [t], and every index must address a column of [t]. *)
Definition gather1 (t idx : Tensor) : Res Tensor :=
  if (rows idx <=? rows t)
     && forallb (fun i => forallb (fun j => valid_index (cols t) (at_ idx i j))
                            (seq 0 (cols idx))) (seq 0 (rows idx))
  then Ok (mkT (rows idx) (cols idx)
             (fun i j => at_ t i (Z.to_nat (long (at_ idx i j)))))
  else Raise RuntimeError.

(** ** Parameters, modules and the agent *)

(** A parameter tensor: its flattened entries, its [requires_grad] flag and
    its [.grad] ([None] until a backward pass reaches it). *)
Record Param := mkParam {
  data : list Q;
  requires_grad : bool;
  grad : option (list Q)
}.

(** An [ActorCritic] module (core.py): the parameter handles of its four
    sub-modules. *)
Record ActorCritic := mkAC {
  ac_pi : list nat;
  ac_q1 : list nat;
  ac_q2 : list nat;
  ac_memory : list nat
}.

(** [module.parameters()]: the tensors of the sub-modules, in the order
    core.py registers them, which is the same for a module and its copy. *)
Definition parameters (m : ActorCritic) : list nat :=
  ac_pi m ++ ac_q1 m ++ ac_q2 m ++ ac_memory m.

(** Values of the parameters of a module, in order. *)
Abbreviation Theta := (list (list Q)).

(** One sampled episode, as [EpisodicBuffer.get] hands it over. *)
Record Batch := mkBatch {
  b_obs : Tensor;
  b_act : Tensor;
  b_rew : Tensor;
  b_obs2 : Tensor;
  b_done : Tensor;
  b_hid_out : Tensor;
  b_prev_act : Tensor;
  b_prev_rew : Tensor;
  b_hid : Tensor
}.

Abbreviation Obs := (list Q).
Abbreviation Hidden := (list Q).

(** Calls an environment object has received. *)
Inductive EnvCall :=
| EReset
| ESample
| EStep (a : nat).

(** A stored transition: the arguments of [buffer.store]. *)
Record Transition := mkTransition {
  t_obs : Obs;
  t_next_obs : Obs;
  t_action : nat;
  t_reward : Q;
  t_done : bool;
  t_prev_action : nat;
  t_prev_reward : Q;
  t_hidden_in : Hidden;
  t_hidden_out : Hidden
}.

(** Calls the episodic buffer has received. *)
Inductive BufferCall :=
| BStore (t : Transition)
| BFinishPath
| BGet (batch_size : nat)
| BReset.

(** The collaborators.  An environment or buffer object answers a call as
    a function of the calls it has received before; random draws are
    indexed by the number of draws made so far; gradient values, the
    clipping factor and Adam's step are indexed by the number of optimizer
    operations made so far. *)
Record World := mkWorld {
  (* ActorCritic, on tensors *)
  fwd_q1 : Theta -> Tensor -> Tensor;
  fwd_q2 : Theta -> Tensor -> Tensor;
  fwd_memory : Theta -> Tensor -> Tensor -> Tensor -> Tensor -> Tensor * Tensor;
  fwd_pi_sample : Theta -> Tensor -> Tensor * Tensor * Tensor;
  (* ActorCritic.act and ActorCritic.explore, on one step *)
  act : Theta -> Obs -> nat -> Q -> Hidden -> nat * Hidden;
  explore : nat -> Theta -> Obs -> nat -> Q -> Hidden -> nat * Hidden;
  (* environment objects, by handle and history *)
  env_reset : nat -> list EnvCall -> Obs;
  env_sample : nat -> list EnvCall -> nat;
  env_step : nat -> list EnvCall -> nat -> Obs * Q * bool * bool;
  (* EpisodicBuffer.get *)
  buffer_get : list BufferCall -> nat -> list Batch;
  (* numpy's uniform draw *)
  np_random : nat -> Q;
  (* autograd and optimizer numerics *)
  grad_value : nat -> nat -> nat -> Q;
  clip_coef : nat -> Q -> Q;
  adam : nat -> Q -> Q -> Q;
  exp_ : Q -> Q;
  (* EpochLogger.get_stats *)
  get_stats : String.string -> Q * Q
}.

(** Constructor arguments that the modelled methods read. *)
Record Config := mkConfig {
  max_ep_len : nat;
  gamma : Q;
  polyak : Q;
  clip_ratio : Q;
  epochs : nat;
  number_of_trajectories : nat;
  start_steps : nat;
  update_every : nat;
  batch_size : nat;
  hidden_size : nat;
  use_alpha_annealing : bool;
  entropy_target : Q;
  lr : Q;
  save_every_n_update : nat
}.

(** The networks, their optimizers and the temperature. *)
Record Learner := mkLearner {
  heap : gmap nat Param;
  ac : ActorCritic;
  ac_targ : ActorCritic;
  (* the two itertools.chain objects: the handles not yet yielded *)
  q_params : list nat;
  pi_params : list nat;
  (* the parameter lists the optimizers hold *)
  pi_optimizer : list nat;
  q_optimizer : list nat;
  alpha_optimizer : list nat;
  log_alpha : nat;
  alpha : Q;
  (* optimizer operations made so far *)
  clock : nat
}.

Definition param_at (h : gmap nat Param) (i : nat) : Param :=
  default (mkParam nil true None) (h !! i).

Definition theta (h : gmap nat Param) (ids : list nat) : Theta :=
  map (fun i => data (param_at h i)) ids.

(** The scalar value of a one-entry tensor such as [log_alpha]. *)
Definition item (l : list Q) : Q := hd 0%Q l.

(** ** The critic loss *)

(** A scalar loss tensor: its value and the leaves its autograd graph
    reaches, that is the parameters with [requires_grad] set of the modules
    that were run while gradient recording was enabled. *)
Record Loss := mkLoss { loss_value : Q; loss_leaves : list nat }.

Definition tracked (h : gmap nat Param) (ids : list nat) : list nat :=
  filter (fun i => requires_grad (param_at h i) = true) ids.

Definition shape_eqb (a b : nat * nat) : bool :=
  (fst a =? fst b) && (snd a =? snd b).

(** The [torch.no_grad()] block of [compute_critic_loss]: the soft value of
    the next observation. *)
Definition critic_next_q (W : World) (l : Learner) (batch : Batch)
    (rew h_out : Tensor) : Res Tensor :=
  let next_obs := b_obs2 batch in
  let act_ := b_act batch in
  let '(memory_emb_pi, _) :=
    fwd_memory W (theta (heap l) (ac_memory (ac l))) next_obs act_ rew h_out in
  let '(_, a2, logp_a2) :=
    fwd_pi_sample W (theta (heap l) (ac_pi (ac l))) memory_emb_pi in
  let q1_targ := fwd_q1 W (theta (heap l) (ac_q1 (ac_targ l))) next_obs in
  let q2_targ := fwd_q2 W (theta (heap l) (ac_q2 (ac_targ l))) next_obs in
  let! q_targ := broadcast2 Qmin q1_targ q2_targ in
  let! soft := broadcast2 Qminus q_targ (tmap (fun x => alpha l * x)%Q logp_a2) in
  let! weighted := broadcast2 Qmult a2 soft in
  Ok (sum_dim1 weighted).

(** The assertion on the shapes and the Bellman backup. *)
Definition critic_backup (W : World) (cfg : Config) (l : Learner)
    (batch : Batch) (rew h_out : Tensor) : Res Tensor :=
  let done := b_done batch in
  let! next_q := critic_next_q W l batch rew h_out in
  if shape_eqb (shape rew) (shape next_q)
  then
    let! boot :=
      broadcast2 Qmult
        (tmap (fun x => gamma cfg * x)%Q (tmap (fun x => 1 - x)%Q done)) next_q in
    broadcast2 Qplus rew boot
  else Raise AssertionError.

(** [(q - backup).pow(2).mean()] *)
Definition mse (q backup : Tensor) : Res Q :=
  let! diff := broadcast2 Qminus q backup in
  Ok (mean (tmap (fun x => x * x)%Q diff)).

Definition compute_critic_loss (W : World) (cfg : Config) (l : Learner)
    (batch : Batch) : Res (Loss * (Q * Q)) :=
  let obs := b_obs batch in
  let act_ := b_act batch in
  let! h_out := view_hidden (hidden_size cfg) (b_hid_out batch) in
  let rew := view_col (b_rew batch) in
  let q1 := fwd_q1 W (theta (heap l) (ac_q1 (ac l))) obs in
  let q2 := fwd_q2 W (theta (heap l) (ac_q2 (ac l))) obs in
  let! q1 := gather1 q1 (view_col act_) in
  let! q2 := gather1 q2 (view_col act_) in
  let! backup := critic_backup W cfg l batch rew h_out in
  let! loss_q1 := mse q1 backup in
  let! loss_q2 := mse q2 backup in
  let loss_q := (loss_q1 + loss_q2)%Q in
  let mean_q1 := mean q1 in
  let mean_q2 := mean q1 in
  Ok (mkLoss loss_q (tracked (heap l) (ac_q1 (ac l) ++ ac_q2 (ac l))),
      (mean_q1, mean_q2)).

(** The target of section 4.1, one transition at a time.
    [next_v = sum_a pi2(a) * (q_targ_min(a) - alpha * logp2(a))] *)
Definition soft_value (alpha_ : Q) (n_actions : nat)
    (pi2 logp2 q1_targ q2_targ : nat -> Q) : Q :=
  big_sum (fun a => pi2 a * (Qmin (q1_targ a) (q2_targ a) - alpha_ * logp2 a))%Q
          n_actions.

(** [backup = reward + gamma * (1 - done) * next_v] *)
Definition bellman_backup (gamma_ reward done next_v : Q) : Q :=
  (reward + gamma_ * (1 - done) * next_v)%Q.

(** ** The policy loss *)

(** With annealing [self.alpha] is [self.log_alpha.exp()], a tensor whose
    graph reaches [log_alpha]; without it [self.alpha] is a constant. *)
Definition alpha_leaves (cfg : Config) (l : Learner) : list nat :=
  if use_alpha_annealing cfg then log_alpha l :: nil else nil.

Definition compute_policy_loss (W : World) (cfg : Config) (l : Learner)
    (batch : Batch) : Res (Loss * Tensor) :=
  let obs := b_obs batch in
  let prev_act := b_prev_act batch in
  let prev_rew := view_col (b_prev_rew batch) in
  let! h_in := view_hidden (hidden_size cfg) (b_hid batch) in
  let '(memory_emb, _) :=
    fwd_memory W (theta (heap l) (ac_memory (ac l))) obs prev_act prev_rew h_in in
  let '(_, pi, logp_pi) :=
    fwd_pi_sample W (theta (heap l) (ac_pi (ac l))) memory_emb in
  let q1_pi := fwd_q1 W (theta (heap l) (ac_q1 (ac l))) obs in
  let q2_pi := fwd_q2 W (theta (heap l) (ac_q2 (ac l))) obs in
  let! q_pi := broadcast2 Qmin q1_pi q2_pi in
  let! plogp := broadcast2 Qmult pi logp_pi in
  let entropy := tmap Qopp (sum_dim1 plogp) in
  let! qpi := broadcast2 Qmult q_pi pi in
  let q := sum_dim1 qpi in
  let! obj := broadcast2 Qminus (tmap Qopp q) (tmap (fun x => alpha l * x)%Q entropy) in
  let loss_pi := mean obj in
  Ok (mkLoss loss_pi
        (tracked (heap l) (ac_memory (ac l) ++ ac_pi (ac l) ++ alpha_leaves cfg l)),
      logp_pi).

(** ** State and exceptions *)

Definition M (S A : Type) : Type := S -> Res A * S.

Definition ret {S A} (a : A) : M S A := fun s => (Ok a, s).

Definition bind {S A B} (m : M S A) (k : A -> M S B) : M S B :=
  fun s =>
    match m s with
    | (Ok a, s') => k a s'
    | (Raise e, s') => (Raise e, s')
    end.

Definition raise {S A} (e : Exn) : M S A := fun s => (Raise e, s).
Definition get {S} : M S S := fun s => (Ok s, s).
Definition modify {S} (f : S -> S) : M S unit := fun s => (Ok tt, f s).
Definition lift {S A} (r : Res A) : M S A := fun s => (r, s).

Notation "x <- m ;; k" := (bind m (fun x => k))
  (at level 100, m at next level, right associativity).
Notation "m ;;; k" := (bind m (fun _ => k))
  (at level 100, right associativity).

(** [for x in xs: acc = body(x, acc)] *)
Fixpoint for_each {S X A} (xs : list X) (body : X -> A -> M S A) (acc : A)
    : M S A :=
  match xs with
  | nil => ret acc
  | x :: xs' => a <- body x acc ;; for_each xs' body a
  end.

(** ** Parameter tensors in place *)

Definition set_heap (h : gmap nat Param) (l : Learner) : Learner :=
  mkLearner h (ac l) (ac_targ l) (q_params l) (pi_params l) (pi_optimizer l)
    (q_optimizer l) (alpha_optimizer l) (log_alpha l) (alpha l) (clock l).

Definition set_q_params (it : list nat) (l : Learner) : Learner :=
  mkLearner (heap l) (ac l) (ac_targ l) it (pi_params l) (pi_optimizer l)
    (q_optimizer l) (alpha_optimizer l) (log_alpha l) (alpha l) (clock l).

Definition set_alpha (a : Q) (l : Learner) : Learner :=
  mkLearner (heap l) (ac l) (ac_targ l) (q_params l) (pi_params l)
    (pi_optimizer l) (q_optimizer l) (alpha_optimizer l) (log_alpha l) a (clock l).

Definition tick (l : Learner) : Learner :=
  mkLearner (heap l) (ac l) (ac_targ l) (q_params l) (pi_params l)
    (pi_optimizer l) (q_optimizer l) (alpha_optimizer l) (log_alpha l) (alpha l)
    (S (clock l)).

Definition set_data (d : list Q) (p : Param) : Param :=
  mkParam d (requires_grad p) (grad p).
Definition set_flag (b : bool) (p : Param) : Param :=
  mkParam (data p) b (grad p).
Definition set_grad (g : option (list Q)) (p : Param) : Param :=
  mkParam (data p) (requires_grad p) g.

(** [for p in ids: p = f(p)], in place; a handle that holds no tensor is
    skipped. *)
Definition alter_all (f : nat -> Param -> Param) (ids : list nat)
    (h : gmap nat Param) : gmap nat Param :=
  fold_left (fun h i => alter (f i) i h) ids h.

(** [for p in ids: p.requires_grad = b] *)
Definition set_requires_grad (b : bool) (h : gmap nat Param) (ids : list nat)
    : gmap nat Param :=
  alter_all (fun _ => set_flag b) ids h.

(** [for p in self.q_params: p.requires_grad = b]: [self.q_params] is an
    iterator, so the loop visits the handles it has not yielded yet and
    leaves it exhausted. *)
Definition for_q_params_set_requires_grad (b : bool) (l : Learner) : Learner :=
  let items := q_params l in
  set_q_params nil (set_heap (set_requires_grad b (heap l) items) l).

(** [optimizer.zero_grad()] *)
Definition zero_grad (opt : list nat) (l : Learner) : Learner :=
  set_heap (alter_all (fun _ => set_grad None) opt (heap l)) l.

(** [loss.backward()]: every leaf of the graph gets a gradient of the
    shape of its data, added to the one it holds. *)
Definition accumulate (g0 : option (list Q)) (g : list Q) : list Q :=
  match g0 with
  | None => g
  | Some g0 => zip_with Qplus g0 g
  end.

Definition backward (W : World) (loss : Loss) (l : Learner) : Learner :=
  let k := clock l in
  tick (set_heap
    (alter_all
       (fun i p =>
          set_grad (Some (accumulate (grad p)
                      (map (grad_value W k i) (seq 0 (length (data p)))))) p)
       (loss_leaves loss) (heap l)) l).

(** [nn.utils.clip_grad_norm_(self.ac.parameters(), self.clip_ratio)]:
    the gradients that exist are scaled by a common factor. *)
Definition clip_grad_norm_ (W : World) (cfg : Config) (l : Learner) : Learner :=
  let k := clock l in
  let c := clip_coef W k (clip_ratio cfg) in
  tick (set_heap
    (alter_all
       (fun _ p => set_grad (option_map (map (fun x => x * c)%Q) (grad p)) p)
       (parameters (ac l)) (heap l)) l).

(** [optimizer.step()]: parameters without a gradient are skipped. *)
Definition step (W : World) (opt : list nat) (l : Learner) : Learner :=
  let k := clock l in
  tick (set_heap
    (alter_all
       (fun _ p =>
          match grad p with
          | None => p
          | Some g =>
              set_data (imap (fun j x => adam W k x (nth j g 0%Q)) (data p)) p
          end)
       opt (heap l)) l).

(** ** Construction *)

(** The parameter values of the model that [create_or_load_model] returns. *)
Record ModelData := mkModel {
  m_pi : Theta;
  m_q1 : Theta;
  m_q2 : Theta;
  m_memory : Theta
}.

(** New tensors at the handles [next, next+1, ...]. *)
Fixpoint alloc (h : gmap nat Param) (next : nat) (ps : list Param)
    : gmap nat Param :=
  match ps with
  | nil => h
  | p :: ps' => alloc (<[next := p]> h) (S next) ps'
  end.

(** The module structure of [m], at consecutive handles from [next]. *)
Definition layout (next : nat) (n_pi n_q1 n_q2 n_memory : nat) : ActorCritic :=
  mkAC (seq next n_pi)
       (seq (next + n_pi) n_q1)
       (seq (next + n_pi + n_q1) n_q2)
       (seq (next + n_pi + n_q1 + n_q2) n_memory).

Definition model_size (m : ModelData) : nat :=
  length (m_pi m) + length (m_q1 m) + length (m_q2 m) + length (m_memory m).

Definition create_or_load_model (m : ModelData) : gmap nat Param * ActorCritic :=
  (alloc ∅ 0
     (map (fun d => mkParam d true None)
          (m_pi m ++ m_q1 m ++ m_q2 m ++ m_memory m)),
   layout 0 (length (m_pi m)) (length (m_q1 m)) (length (m_q2 m))
     (length (m_memory m))).

(** [copy.deepcopy(module)]: every parameter is cloned into a new tensor
    with the same data and flag; [.grad] is not carried over. *)
Definition deepcopy (h : gmap nat Param) (next : nat) (m : ActorCritic)
    : gmap nat Param * ActorCritic :=
  (alloc h next
     (map (fun i => mkParam (data (param_at h i)) (requires_grad (param_at h i)) None)
          (parameters m)),
   layout next (length (ac_pi m)) (length (ac_q1 m)) (length (ac_q2 m))
     (length (ac_memory m))).

(** [Adam(params, lr)]: the constructor refuses a negative learning rate,
    then keeps [list(params)] and refuses an empty list.  Taking the list
    drains [params] when it is an iterator: the second component is what
    the iterator still yields afterwards. *)
Definition Adam (params : list nat) (lr_ : Q) : Res (list nat * list nat) :=
  if Qle_bool 0 lr_
  then
    let param_groups := params in
    let drained := @nil nat in
    match param_groups with
    | nil => Raise ValueError
    | _ => Ok (param_groups, drained)
    end
  else Raise ValueError.

(** The part of [__init__] that builds the networks, the temperature and
    the optimizers.  [log_alpha] is created only with annealing; without
    it the field names a handle that holds nothing and is never read. *)
Definition init_learner (W : World) (cfg : Config) (m : ModelData) : Res Learner :=
  let '(h, ac_) := create_or_load_model m in
  let n := model_size m in
  let '(h, ac_targ_) := deepcopy h n ac_ in
  let h := set_requires_grad false h (parameters ac_targ_) in
  let next := n + n in
  let! temperature :=
    if use_alpha_annealing cfg
    then
      let! alpha_o := Adam (next :: nil) (lr cfg) in
      Ok (<[next := mkParam (0%Q :: nil) true None]> h, exp_ W 0%Q, fst alpha_o)
    else Ok (h, 0.2%Q, nil) in
  let '(h, alpha_, alpha_opt) := temperature in
  let q_params_ := ac_q1 ac_ ++ ac_q2 ac_ in
  let pi_params_ := ac_pi ac_ ++ ac_memory ac_ in
  let! pi_o := Adam pi_params_ (lr cfg) in
  let '(pi_opt, pi_params_) := pi_o in
  let! q_o := Adam q_params_ (lr cfg) in
  let '(q_opt, q_params_) := q_o in
  Ok (mkLearner h ac_ ac_targ_ q_params_ pi_params_ pi_opt q_opt alpha_opt
        next alpha_ 0).

(** ** One optimization cycle *)

Definition critic_step (W : World) (cfg : Config) (episode : Batch)
    : M Learner unit :=
  l <- get ;;
  r <- lift (compute_critic_loss W cfg l episode) ;;
  let '(loss_q, q_info) := r in
  modify (zero_grad (q_optimizer l)) ;;;
  modify (backward W loss_q) ;;;
  modify (clip_grad_norm_ W cfg) ;;;
  modify (step W (q_optimizer l)).

Definition policy_step (W : World) (cfg : Config) (episode : Batch)
    : M Learner Tensor :=
  l <- get ;;
  modify (zero_grad (pi_optimizer l)) ;;;
  l <- get ;;
  r <- lift (compute_policy_loss W cfg l episode) ;;
  let '(loss_pi, logp_pi) := r in
  modify (backward W loss_pi) ;;;
  modify (clip_grad_norm_ W cfg) ;;;
  modify (step W (pi_optimizer l)) ;;;
  ret logp_pi.

(** The temperature step; it returns [alpha_loss]. *)
Definition alpha_step (W : World) (cfg : Config) (logp_pi : Tensor)
    : M Learner Q :=
  if use_alpha_annealing cfg
  then
    l <- get ;;
    let la := item (data (param_at (heap l) (log_alpha l))) in
    let alpha_loss :=
      mkLoss (- mean (tmap (fun x => la * (x + entropy_target cfg))%Q logp_pi))%Q
             (tracked (heap l) (log_alpha l :: nil)) in
    modify (zero_grad (alpha_optimizer l)) ;;;
    modify (backward W alpha_loss) ;;;
    modify (step W (alpha_optimizer l)) ;;;
    modify (fun l => set_alpha (exp_ W (item (data (param_at (heap l) (log_alpha l))))) l) ;;;
    ret (loss_value alpha_loss)
  else
    modify (set_alpha 0.2%Q) ;;;
    ret 0%Q.

(** The body of [for episode in batch]; [alpha_loss] is the local variable
    that the body binds. *)
Definition update_episode (W : World) (cfg : Config) (episode : Batch)
    (alpha_loss : option Q) : M Learner (option Q) :=
  critic_step W cfg episode ;;;
  modify (for_q_params_set_requires_grad false) ;;;
  logp_pi <- policy_step W cfg episode ;;
  modify (for_q_params_set_requires_grad true) ;;;
  al <- alpha_step W cfg logp_pi ;;
  ret (Some al).

(** [p_targ.data.mul_(polyak); p_targ.data.add_((1 - polyak) * p.data)] *)
Definition polyak_pair (c : Q) (h : gmap nat Param) (pp : nat * nat)
    : gmap nat Param :=
  let '(p, p_targ) := pp in
  let h := alter (fun t => set_data (map (fun x => x * c)%Q (data t)) t) p_targ h in
  let scaled := map (fun x => (1 - c) * x)%Q (data (param_at h p)) in
  alter (fun t => set_data (zip_with Qplus (data t) scaled) t) p_targ h.

Definition polyak_pass (cfg : Config) (l : Learner) : Learner :=
  set_heap
    (fold_left (polyak_pair (polyak cfg))
       (zip (parameters (ac l)) (parameters (ac_targ l))) (heap l)) l.

(** [update], on the networks, once the batch has been sampled. *)
Definition update_on (W : World) (cfg : Config) (batch : list Batch)
    : M Learner unit :=
  alpha_loss <- for_each batch (update_episode W cfg) None ;;
  match alpha_loss with
  | None => raise UnboundLocalError
  | Some _ => ret tt
  end ;;;
  modify (polyak_pass cfg).

(** ** Logging and checkpoints

    [_log_trial] and [_log_test_trial]: the calls they make on the logger
    and on the summary writer.  The statistics come from the logger
    ([get_stats]); the label ['{epoch}_{trajectory}'] of a checkpoint is
    kept as the pair. *)

Local Open Scope string_scope.

(** Python's [a % b] and [a // b] on naturals. *)
Definition py_mod (a b : nat) : Res nat :=
  if b =? 0 then Raise ZeroDivisionError else Ok (a mod b).

Definition py_floordiv (a b : nat) : Res nat :=
  if b =? 0 then Raise ZeroDivisionError else Ok (a / b).

(** [self.save_freq] and [self.steps_per_epoch], as [__init__] sets them. *)
Definition save_freq (save_every_n_update : nat) (cfg : Config) : nat :=
  save_every_n_update * update_every cfg.

Definition steps_per_epoch (cfg : Config) : nat :=
  number_of_trajectories cfg * max_ep_len cfg.

Inductive TabularValue :=
| Given (v : nat)
| ElapsedTime
| WithMinAndMax
| AverageOnly.

Inductive LogCall :=
| LSaveState (env_ : nat) (itr : option (nat * nat))
| LAddScalar (tag : String.string) (value : Q) (step : nat)
| LLogTabular (key : String.string) (v : TabularValue)
| LDumpTabular.

(** The inner loop body of "Update tensorboard". *)
Definition board_scalars (get_stats : String.string -> Q * Q) (t : nat)
    (key val : String.string) : list LogCall :=
  let '(mean_, std) := get_stats val in
  if String.eqb key "Performance"
  then LAddScalar (String.append key (String.append "/Average" val)) mean_ t
       :: LAddScalar (String.append key (String.append "/Std" val)) std t
       :: nil
  else LAddScalar (String.append key (String.append "/" val)) mean_ t :: nil.

Definition update_tensorboard (get_stats : String.string -> Q * Q) (t : nat)
    (log_board : list (String.string * list String.string)) : list LogCall :=
  flat_map (fun kv => flat_map (board_scalars get_stats t (fst kv)) (snd kv))
    log_board.

Definition _log_trial (save_every_n_update : nat) (cfg : Config) (env_ : nat)
    (get_stats : String.string -> Q * Q) (epoch trajectory : nat)
    : Res (list LogCall) :=
  let t := (epoch * number_of_trajectories cfg + trajectory) * max_ep_len cfg in
  let! m := py_mod (trajectory + 1) (save_freq save_every_n_update cfg) in
  let saved :=
    if (m =? 0) || (trajectory + 1 =? number_of_trajectories cfg)
    then LSaveState env_ (Some (epoch, trajectory)) :: nil
    else nil in
  let log_perf_board :=
    "EpRew" :: "EpLen" :: "Q2Vals" :: "Q1Vals" :: "LogPi" :: nil in
  let log_loss_board := "LossPi" :: "LossQ" :: nil in
  let log_entropy_board := "Entropy" :: "Alpha" :: "LossAlpha" :: nil in
  let log_board :=
    ("Performance", log_perf_board) :: ("Loss", log_loss_board)
    :: ("Entropy", log_entropy_board) :: nil in
  Ok (saved
      ++ update_tensorboard get_stats t log_board
      ++ LLogTabular "Trial" (Given trajectory)
         :: LLogTabular "EpRew" WithMinAndMax
         :: LLogTabular "EpLen" AverageOnly
         :: LLogTabular "TotalEnvInteracts" (Given t)
         :: LLogTabular "Q2Vals" WithMinAndMax
         :: LLogTabular "Q1Vals" WithMinAndMax
         :: LLogTabular "LogPi" WithMinAndMax
         :: LLogTabular "Entropy" WithMinAndMax
         :: LLogTabular "Alpha" AverageOnly
         :: LLogTabular "LossAlpha" AverageOnly
         :: LLogTabular "LossPi" AverageOnly
         :: LLogTabular "LossQ" AverageOnly
         :: LLogTabular "Time" ElapsedTime
         :: LDumpTabular :: nil).

Definition _log_test_trial (save_every_n_update : nat) (cfg : Config)
    (env_ : nat) (get_stats : String.string -> Q * Q) (t : nat)
    : Res (list LogCall) :=
  let! trial := py_floordiv (t + 1) (steps_per_epoch cfg) in
  let! m := py_mod trial (save_freq save_every_n_update cfg) in
  let saved :=
    if (m =? 0) || (trial =? epochs cfg)
    then LSaveState env_ None :: nil
    else nil in
  let log_board :=
    ("Performance", "TestEpRew" :: "TestEpLen" :: nil) :: nil in
  Ok (saved ++ update_tensorboard get_stats t log_board).

Local Close Scope string_scope.

(** A call of one of the two inside a method.  The logger and the summary
    writer are not part of the state, so what the call writes is dropped;
    whether it raises is kept. *)
Definition logging {S A} (r : Res A) : M S unit :=
  fun s => (match r with Ok _ => Ok tt | Raise e => Raise e end, s).

(** ** The agent and its loops *)

(** What one iteration of a rollout loop saw and did.  The code has no
    such record; the model keeps it beside the state, for the statements
    below.  [sr_step] holds the step as a transition: in the training loop
    it is the argument list of [buffer.store]. *)
Record StepRecord := mkStep {
  sr_env : nat;            (* the environment object that was stepped *)
  sr_global_steps : nat;   (* [self.global_steps] when the action is chosen *)
  sr_rng : nat;            (* random draws made before the action is chosen *)
  sr_theta : Theta;        (* the online parameters during the step *)
  sr_ep_len : nat;         (* [ep_len] after its increment *)
  sr_terminated : bool;
  sr_truncated : bool;
  sr_step : Transition;
  sr_finish_path : bool    (* whether [buffer.finish_path] was called *)
}.

Inductive Loop := Training | Evaluation.

(** One trajectory: the loop and the index it ran at, the environment
    object that was reset, the recurrent state and the carry the policy is
    conditioned on when it starts, and its steps, the newest first. *)
Record Trajectory := mkTrajectory {
  tj_loop : Loop;
  tj_index : nat;
  tj_env : nat;
  tj_h : Hidden;
  tj_a2 : nat;
  tj_r2 : Q;
  tj_steps : list StepRecord
}.

Record SAC := mkSAC {
  cfg : Config;
  learner : Learner;
  env : nat;
  test_env : option nat;
  env_log : list (nat * EnvCall);
  buffer : list BufferCall;
  global_steps : nat;
  global_test_steps : nat;
  current_epoch : nat;
  rng : nat;
  pi_scheduler : nat;
  q_scheduler : nat;
  (* the trajectories run so far, the newest first *)
  ghost : list Trajectory
}.

Definition set_learner (l : Learner) (s : SAC) : SAC :=
  mkSAC (cfg s) l (env s) (test_env s) (env_log s) (buffer s) (global_steps s)
    (global_test_steps s) (current_epoch s) (rng s) (pi_scheduler s)
    (q_scheduler s) (ghost s).

Definition set_env (e : nat) (s : SAC) : SAC :=
  mkSAC (cfg s) (learner s) e (test_env s) (env_log s) (buffer s)
    (global_steps s) (global_test_steps s) (current_epoch s) (rng s)
    (pi_scheduler s) (q_scheduler s) (ghost s).

Definition set_test_env (e : nat) (s : SAC) : SAC :=
  mkSAC (cfg s) (learner s) (env s) (Some e) (env_log s) (buffer s)
    (global_steps s) (global_test_steps s) (current_epoch s) (rng s)
    (pi_scheduler s) (q_scheduler s) (ghost s).

(** A call on the environment object [e]. *)
Definition call_env (e : nat) (c : EnvCall) (s : SAC) : SAC :=
  mkSAC (cfg s) (learner s) (env s) (test_env s) (env_log s ++ (e, c) :: nil)
    (buffer s) (global_steps s) (global_test_steps s) (current_epoch s) (rng s)
    (pi_scheduler s) (q_scheduler s) (ghost s).

(** A call on [self.buffer]. *)
Definition call_buffer (c : BufferCall) (s : SAC) : SAC :=
  mkSAC (cfg s) (learner s) (env s) (test_env s) (env_log s)
    (buffer s ++ c :: nil) (global_steps s) (global_test_steps s)
    (current_epoch s) (rng s) (pi_scheduler s) (q_scheduler s) (ghost s).

Definition incr_global_steps (s : SAC) : SAC :=
  mkSAC (cfg s) (learner s) (env s) (test_env s) (env_log s) (buffer s)
    (S (global_steps s)) (global_test_steps s) (current_epoch s) (rng s)
    (pi_scheduler s) (q_scheduler s) (ghost s).

Definition incr_global_test_steps (s : SAC) : SAC :=
  mkSAC (cfg s) (learner s) (env s) (test_env s) (env_log s) (buffer s)
    (global_steps s) (S (global_test_steps s)) (current_epoch s) (rng s)
    (pi_scheduler s) (q_scheduler s) (ghost s).

Definition draw (s : SAC) : SAC :=
  mkSAC (cfg s) (learner s) (env s) (test_env s) (env_log s) (buffer s)
    (global_steps s) (global_test_steps s) (current_epoch s) (S (rng s))
    (pi_scheduler s) (q_scheduler s) (ghost s).

(** The end of an epoch: [current_epoch += 1] and one step of both
    learning-rate schedulers. *)
Definition end_epoch (s : SAC) : SAC :=
  mkSAC (cfg s) (learner s) (env s) (test_env s) (env_log s) (buffer s)
    (global_steps s) (global_test_steps s) (S (current_epoch s)) (rng s)
    (S (pi_scheduler s)) (S (q_scheduler s)) (ghost s).

Definition set_ghost (g : list Trajectory) (s : SAC) : SAC :=
  mkSAC (cfg s) (learner s) (env s) (test_env s) (env_log s) (buffer s)
    (global_steps s) (global_test_steps s) (current_epoch s) (rng s)
    (pi_scheduler s) (q_scheduler s) g.

(** A trajectory starts. *)
Definition mark_trajectory (t : Trajectory) (s : SAC) : SAC :=
  set_ghost (t :: ghost s) s.

(** A step of the running trajectory. *)
Definition add_step (r : StepRecord) (g : list Trajectory) : list Trajectory :=
  match g with
  | nil => nil
  | t :: g' =>
      mkTrajectory (tj_loop t) (tj_index t) (tj_env t) (tj_h t) (tj_a2 t)
        (tj_r2 t) (r :: tj_steps t) :: g'
  end.

Definition mark_step (r : StepRecord) (s : SAC) : SAC :=
  set_ghost (add_step r (ghost s)) s.

(** The calls the environment object [e] has received. *)
Definition history (log : list (nat * EnvCall)) (e : nat) : list EnvCall :=
  map snd (List.filter (fun x => fst x =? e) log).

Definition online_theta (s : SAC) : Theta :=
  theta (heap (learner s)) (parameters (ac (learner s))).

Definition zeros (n : nat) : Hidden := repeat 0%Q n.

(** [__init__] *)
Definition init (W : World) (cfg_ : Config) (m : ModelData) (env_ : nat)
    : Res SAC :=
  let! l := init_learner W cfg_ m in
  Ok (mkSAC cfg_ l env_ None nil nil 0 0 0 0 0 0 nil).

(** [update] *)
Definition update (W : World) : M SAC unit :=
  fun s =>
    let batch := buffer_get W (buffer s) (batch_size (cfg s)) in
    let s := call_buffer (BGet (batch_size (cfg s))) s in
    let '(r, l) := update_on W (cfg s) batch (learner s) in
    (r, set_learner l s).

(** [get_action] *)
Definition get_action (W : World) (s : SAC) (o : Obs) (prev_act : nat)
    (prev_rew : Q) (hid_in : Hidden) (greedy : bool) : (nat * Hidden) * SAC :=
  if greedy
  then (act W (online_theta s) o prev_act prev_rew hid_in, s)
  else (explore W (rng s) (online_theta s) o prev_act prev_rew hid_in, draw s).

(** Variables of [train_agent] that live across trajectories. *)
Record Carry := mkCarry {
  c_h_in : Hidden;
  c_h_out : Hidden;
  c_a2 : nat;
  c_r2 : Q
}.

(** Variables of one trajectory. *)
Record Rollout := mkRollout {
  ro_o : Obs;
  ro_d : bool;
  ro_ep_ret : Q;
  ro_ep_len : nat
}.

(** The choice of the action in [train_agent]: the policy once
    [global_steps] has passed [start_steps], a random action before. *)
Definition train_action (W : World) (s : SAC) (c : Carry) (o : Obs)
    : nat * Hidden * SAC :=
  let a2 := c_a2 c in
  let r2 := c_r2 c in
  let h_in := c_h_out c in
  let h_out := c_h_out c in
  if start_steps (cfg s) <? global_steps s
  then
    let '((a, h_out), s) := get_action W s o a2 r2 h_in false in
    (a, h_out, s)
  else
    let a := env_sample W (env s) (history (env_log s) (env s)) in
    (a, h_out, call_env (env s) ESample s).

(** The body of the [while] loop of [train_agent]. *)
Definition train_step (W : World) (s : SAC) (c : Carry) (e : Rollout)
    : SAC * Carry * Rollout :=
  let s0 := s in
  let o := ro_o e in
  let a2 := c_a2 c in
  let r2 := c_r2 c in
  let h_in := c_h_out c in
  let '(a, h_out, s) := train_action W s c o in
  let '(o2, r, ter, trunc) := env_step W (env s) (history (env_log s) (env s)) a in
  let s := call_env (env s) (EStep a) s in
  let d := ter || trunc in
  let ep_ret := (ro_ep_ret e + r)%Q in
  let ep_len := ro_ep_len e + 1 in
  let d := if ep_len =? max_ep_len (cfg s) then false else d in
  let t := mkTransition o o2 a r d a2 r2 h_in h_out in
  let s := call_buffer (BStore t) s in
  let o := o2 in
  let r2 := r in
  let a2 := a in
  let finish := d || (ep_len =? max_ep_len (cfg s)) in
  let s := if finish then call_buffer BFinishPath s else s in
  let s :=
    mark_step (mkStep (env s) (global_steps s0) (rng s0) (online_theta s0)
                 ep_len ter trunc t finish) s in
  let s := incr_global_steps s in
  (s, mkCarry h_in h_out a2 r2, mkRollout o d ep_ret ep_len).

(** [while not (d or ep_len == self.max_ep_len)] *)
Fixpoint train_while (W : World) (fuel : nat) (c : Carry) (e : Rollout)
    : M SAC (Carry * Rollout) :=
  fun s =>
    if negb (ro_d e || (ro_ep_len e =? max_ep_len (cfg s)))
    then
      match fuel with
      | 0 => (Raise OutOfFuel, s)
      | S fuel' =>
          let '(s', c', e') := train_step W s c e in
          train_while W fuel' c' e' s'
      end
    else (Ok (c, e), s).

(** The test [(tr+1) >= self.update_every and (tr+1) % self.update_every == 0] *)
Definition update_due (update_every_ tr : nat) : Res bool :=
  if update_every_ <=? tr + 1
  then
    if update_every_ =? 0 then Raise ZeroDivisionError
    else Ok ((tr + 1) mod update_every_ =? 0)
  else Ok false.

(** [self.update(); self._log_trial(epoch, tr, start_time)] *)
Definition update_then_log (W : World) (epoch tr : nat) : M SAC unit :=
  update W ;;;
  s <- get ;;
  logging (_log_trial (save_every_n_update (cfg s)) (cfg s) (env s)
             (get_stats W) epoch tr).

(** The body of [for tr in range(self.number_of_trajectories)]. *)
Definition train_trajectory (W : World) (epoch tr : nat) (c : Carry)
    : M SAC Carry :=
  s <- get ;;
  let o := env_reset W (env s) (history (env_log s) (env s)) in
  modify (call_env (env s) EReset) ;;;
  modify (mark_trajectory
            (mkTrajectory Training tr (env s) (c_h_out c) (c_a2 c) (c_r2 c) nil)) ;;;
  ce <- train_while W (max_ep_len (cfg s)) c (mkRollout o false 0%Q 0) ;;
  due <- lift (update_due (update_every (cfg s)) tr) ;;
  (if due : bool then update_then_log W epoch tr else ret tt) ;;;
  ret (fst ce).

(** The body of [for epoch in range(self.epochs)]. *)
Definition train_epoch (W : World) (epoch : nat) (c : Carry) : M SAC Carry :=
  s <- get ;;
  let h_in := zeros (hidden_size (cfg s)) in
  let h_out := zeros (hidden_size (cfg s)) in
  let c := mkCarry h_in h_out (c_a2 c) (c_r2 c) in
  c <- for_each (seq 0 (number_of_trajectories (cfg s)))
         (train_trajectory W epoch) c ;;
  modify (call_buffer BReset) ;;;
  modify end_epoch ;;;
  ret c.

(** [train_agent].  Before the first epoch [h_in] and [h_out] are unbound;
    the carry holds empty vectors for them, which no step reads. *)
Definition train_agent (W : World) (env_ : nat) : M SAC unit :=
  modify (set_env env_) ;;;
  s <- get ;;
  let a2 := 0 in
  let r2 := 0%Q in
  for_each (seq 0 (epochs (cfg s))) (train_epoch W) (mkCarry nil nil a2 r2) ;;;
  ret tt.

(** Variables of [test_agent] that live across trajectories, with the two
    dictionaries it returns (one list per trajectory, in order). *)
Record TestCarry := mkTestCarry {
  tc_h : Hidden;
  tc_a2 : nat;
  tc_r2 : Q;
  tc_observations : list (list Obs);
  tc_rewards : list (list Q)
}.

(** [for _ in range(random_init)]: random steps, whose results are dropped. *)
Fixpoint random_steps (W : World) (n : nat) (s : SAC) : SAC :=
  match n with
  | 0 => s
  | S n' =>
      let a := env_sample W (env s) (history (env_log s) (env s)) in
      let s := call_env (env s) ESample s in
      let '(o2, r, ter, trunc) :=
        env_step W (env s) (history (env_log s) (env s)) a in
      let s := call_env (env s) (EStep a) s in
      random_steps W n' s
  end.

(** Variables of one evaluated trajectory. *)
Record TestRollout := mkTestRollout {
  tr_o : Obs;
  tr_d : bool;
  tr_ep_len : nat;
  tr_ep_rew : Q;
  tr_observations : list Obs;
  tr_rewards : list Q
}.

(** The body of the [while] loop of [test_agent]. *)
Definition test_step (W : World) (greedy_ratio : Q) (s : SAC) (c : TestCarry)
    (e : TestRollout) : SAC * TestCarry * TestRollout :=
  let s0 := s in
  let o := tr_o e in
  let a2 := tc_a2 c in
  let r2 := tc_r2 c in
  let h_in := tc_h c in
  let greedy := Qle_bool (np_random W (rng s)) greedy_ratio in
  let s := draw s in
  let '((a, h), s) := get_action W s o a2 r2 h_in greedy in
  let '(o2, r, ter, trunc) := env_step W (env s) (history (env_log s) (env s)) a in
  let s := call_env (env s) (EStep a) s in
  let d := ter || trunc in
  let ep_len := tr_ep_len e + 1 in
  let s :=
    mark_step (mkStep (env s) (global_test_steps s0) (rng s0) (online_theta s0)
                 ep_len ter trunc (mkTransition o o2 a r d a2 r2 h_in h) false) s in
  let o := o2 in
  let r2 := r in
  let a2 := a in
  let s := incr_global_test_steps s in
  (s, mkTestCarry h a2 r2 (tc_observations c) (tc_rewards c),
   mkTestRollout o d ep_len (tr_ep_rew e + r)%Q
     (tr_observations e ++ o :: nil) (tr_rewards e ++ r :: nil)).

Fixpoint test_while (W : World) (greedy_ratio : Q) (fuel : nat) (c : TestCarry)
    (e : TestRollout) : M SAC (TestCarry * TestRollout) :=
  fun s =>
    if negb (tr_d e || (tr_ep_len e =? max_ep_len (cfg s)))
    then
      match fuel with
      | 0 => (Raise OutOfFuel, s)
      | S fuel' =>
          let '(s', c', e') := test_step W greedy_ratio s c e in
          test_while W greedy_ratio fuel' c' e' s'
      end
    else (Ok (c, e), s).

(** The body of [for ep in range(num_test_episodes)]; [self.test_env] is
    the handle [test_agent] has just stored. *)
Definition test_trajectory (W : World) (random_init : nat) (greedy_ratio : Q)
    (ep : nat) (c : TestCarry) : M SAC TestCarry :=
  s <- get ;;
  let self_test_env := default 0 (test_env s) in
  let o := env_reset W self_test_env (history (env_log s) self_test_env) in
  modify (call_env self_test_env EReset) ;;;
  modify (mark_trajectory
            (mkTrajectory Evaluation ep self_test_env (tc_h c) (tc_a2 c)
               (tc_r2 c) nil)) ;;;
  modify (random_steps W random_init) ;;;
  ce <- test_while W greedy_ratio (max_ep_len (cfg s)) c
          (mkTestRollout o false 0 0%Q nil nil) ;;
  let '(c, e) := ce in
  ret (mkTestCarry (tc_h c) (tc_a2 c) (tc_r2 c)
         (tc_observations c ++ tr_observations e :: nil)
         (tc_rewards c ++ tr_rewards e :: nil)).

(** [test_agent] *)
Definition test_agent (W : World) (test_env_ : nat) (num_test_episodes : nat)
    (random_init : nat) (greedy_ratio : Q)
    : M SAC (list (list Obs) * list (list Q)) :=
  modify (set_test_env test_env_) ;;;
  s <- get ;;
  let h := zeros (hidden_size (cfg s)) in
  let a2 := 0 in
  let r2 := 0%Q in
  c <- for_each (seq 0 num_test_episodes)
         (test_trajectory W random_init greedy_ratio)
         (mkTestCarry h a2 r2 nil nil) ;;
  s <- get ;;
  logging (_log_test_trial (save_every_n_update (cfg s)) (cfg s) (env s)
             (get_stats W) (global_test_steps s)) ;;;
  ret (tc_observations c, tc_rewards c).

(** * Specification *)

(** ** Relations between states of the networks *)

Definition same_static (l l' : Learner) : Prop :=
  ac l' = ac l /\ ac_targ l' = ac_targ l /\
  pi_optimizer l' = pi_optimizer l /\ q_optimizer l' = q_optimizer l /\
  alpha_optimizer l' = alpha_optimizer l /\ log_alpha l' = log_alpha l /\
  q_params l' = q_params l.

(** The target tensors are untouched. *)
Definition targets_kept (l l' : Learner) : Prop :=
  forall j, j ∈ parameters (ac_targ l) -> heap l' !! j = heap l !! j.

(** No tensor changes its shape or its [requires_grad] flag. *)
Definition shapes_kept (l l' : Learner) : Prop :=
  forall j, length (data (param_at (heap l') j)) = length (data (param_at (heap l) j)).

Definition flags_kept (l l' : Learner) : Prop :=
  forall j, requires_grad (param_at (heap l') j) = requires_grad (param_at (heap l) j).

Definition online_step (l l' : Learner) : Prop :=
  same_static l l' /\ targets_kept l l' /\ shapes_kept l l' /\ flags_kept l l'.

(** What [__init__] fixes for good. *)
Definition static_ok (l : Learner) : Prop :=
  NoDup (parameters (ac l) ++ parameters (ac_targ l)) /\
  length (parameters (ac l)) = length (parameters (ac_targ l)) /\
  (log_alpha l ∉ parameters (ac_targ l)) /\
  (forall i, i ∈ pi_optimizer l ++ q_optimizer l -> i ∈ parameters (ac l)) /\
  (forall i, i ∈ alpha_optimizer l -> i = log_alpha l) /\
  q_params l = nil.

(** [new_target = p * old_target + (1 - p) * online], entry by entry. *)
Definition polyak_data (c : Q) (old_target online : list Q) : list Q :=
  zip_with (fun t o => c * t + (1 - c) * o)%Q old_target online.

Definition smoothed (c : Q) (online : list Q) (t : Param) : Param :=
  set_data (polyak_data c (data t) online) t.

Definition model_data (m : ModelData) : Theta :=
  m_pi m ++ m_q1 m ++ m_q2 m ++ m_memory m.

(** The heap [__init__] builds: online tensors at [0 .. n-1], their copies
    at [n .. 2n-1], and [log_alpha] at [2n] with annealing. *)
Definition init_heap (cfg : Config) (m : ModelData) : gmap nat Param :=
  let n := model_size m in
  let h0 := fst (create_or_load_model m) in
  let h1 := fst (deepcopy h0 n (snd (create_or_load_model m))) in
  let h2 := set_requires_grad false h1 (seq n n) in
  if use_alpha_annealing cfg
  then <[n + n := mkParam (0%Q :: nil) true None]> h2
  else h2.

Definition init_ac (m : ModelData) : ActorCritic :=
  layout 0 (length (m_pi m)) (length (m_q1 m)) (length (m_q2 m))
    (length (m_memory m)).

Definition init_ac_targ (m : ModelData) : ActorCritic :=
  layout (model_size m) (length (m_pi m)) (length (m_q1 m)) (length (m_q2 m))
    (length (m_memory m)).

(** ** Triples and the log of the training loop *)

Definition hoare {S A} (P : S -> Prop) (m : M S A) (Q : A -> S -> Prop)
    (E : Exn -> S -> Prop) : Prop :=
  forall s, P s ->
    match m s with
    | (Ok a, s') => Q a s'
    | (Raise e, s') => E e s'
    end.

(** The recurrent state and carry a step was conditioned on, and the ones
    it leaves. *)
Definition before (r : StepRecord) : Hidden * nat * Q :=
  (t_hidden_in (sr_step r), t_prev_action (sr_step r), t_prev_reward (sr_step r)).
Definition after (r : StepRecord) : Hidden * nat * Q :=
  (t_hidden_out (sr_step r), t_action (sr_step r), t_reward (sr_step r)).

Definition traj_start (t : Trajectory) : Hidden * nat * Q :=
  (tj_h t, tj_a2 t, tj_r2 t).

(** The recurrent state and carry a trajectory leaves behind. *)
Definition traj_end (t : Trajectory) : Hidden * nat * Q :=
  match tj_steps t with
  | r :: _ => after r
  | nil => traj_start t
  end.

(** The stored [done] flag: false at the step limit, the environment's
    flags before. *)
Definition done_rule (cfg : Config) (r : StepRecord) : Prop :=
  t_done (sr_step r)
  = if sr_ep_len r =? max_ep_len cfg then false
    else sr_terminated r || sr_truncated r.

(** [finish_path] is called exactly when the stored [done] is true or the
    step limit is reached. *)
Definition finish_rule (cfg : Config) (r : StepRecord) : Prop :=
  sr_finish_path r = t_done (sr_step r) || (sr_ep_len r =? max_ep_len cfg).

(** After the warm-up the stored action and [hidden_out] are what the
    policy returned for the stored inputs; during the warm-up the encoder
    is not run and [hidden_out] is [hidden_in]. *)
Definition hidden_rule (W : World) (cfg : Config) (r : StepRecord) : Prop :=
  let t := sr_step r in
  if start_steps cfg <? sr_global_steps r
  then explore W (sr_rng r) (sr_theta r) (t_obs t) (t_prev_action t)
         (t_prev_reward t) (t_hidden_in t) = (t_action t, t_hidden_out t)
  else t_hidden_out t = t_hidden_in t.

Definition train_step_ok (W : World) (cfg : Config) (env_ : nat)
    (r : StepRecord) : Prop :=
  sr_env r = env_ /\ done_rule cfg r /\ finish_rule cfg r /\ hidden_rule W cfg r.

(** The steps of a trajectory (newest first) follow one another: each is
    conditioned on what the one before left, the first on what the
    trajectory started with; [ep_len] counts them. *)
Fixpoint steps_linked (start : Hidden * nat * Q) (steps : list StepRecord)
    : Prop :=
  match steps with
  | nil => True
  | r :: earlier =>
      before r = match earlier with nil => start | r' :: _ => after r' end /\
      sr_ep_len r = S (length earlier) /\
      steps_linked start earlier
  end.

(** Exactly one step of the trajectory called [finish_path]: the last. *)
Definition finished_once (t : Trajectory) : Prop :=
  match tj_steps t with
  | nil => False
  | r :: earlier =>
      sr_finish_path r = true /\ Forall (fun r' => sr_finish_path r' = false) earlier
  end.

Definition training_trajectory_ok (W : World) (cfg : Config) (env_ : nat)
    (t : Trajectory) : Prop :=
  tj_loop t = Training /\ tj_env t = env_ /\
  Forall (train_step_ok W cfg env_) (tj_steps t) /\
  steps_linked (traj_start t) (tj_steps t) /\
  (0 < max_ep_len cfg -> finished_once t) /\
  (max_ep_len cfg = 0 -> tj_steps t = nil).

(** How a trajectory starts, given what the one before it (if any) left:
    the first trajectory of a call starts from the zero state and the
    carry (0, 0); a later one takes over the carry, and the recurrent
    state too unless it opens a training epoch, where the state is zero. *)
Definition start_ok (hs : nat) (prev : option (Hidden * nat * Q))
    (t : Trajectory) : Prop :=
  match prev with
  | None =>
      tj_index t = 0 /\ traj_start t = (zeros hs, 0, 0%Q)
  | Some (ph, pa, pr) =>
      tj_a2 t = pa /\ tj_r2 t = pr /\
      tj_h t = match tj_loop t, tj_index t with
               | Training, 0 => zeros hs
               | _, _ => ph
               end
  end.

Fixpoint chained (hs : nat) (new : list Trajectory) : Prop :=
  match new with
  | nil => True
  | t :: older =>
      start_ok hs (match older with nil => None | o :: _ => Some (traj_end o) end) t
      /\ chained hs older
  end.

Definition is_finish_path (c : BufferCall) : bool :=
  match c with BFinishPath => true | _ => false end.

(** Calls of [finish_path] the buffer has received. *)
Definition finish_path_calls (b : list BufferCall) : nat :=
  length (List.filter is_finish_path b).

Definition is_reset_of (e : nat) (c : nat * EnvCall) : bool :=
  match c with (e', EReset) => e' =? e | _ => false end.

(** Resets the environment object [e] has received. *)
Definition reset_calls (log : list (nat * EnvCall)) (e : nat) : nat :=
  length (List.filter (is_reset_of e) log).

(** The transitions the buffer was asked to store, in order. *)
Fixpoint stored (b : list BufferCall) : list Transition :=
  match b with
  | nil => nil
  | BStore t :: b' => t :: stored b'
  | _ :: b' => stored b'
  end.

(** The steps of a trajectory as transitions, in the order they ran. *)
Definition traj_transitions (t : Trajectory) : list Transition :=
  rev (map sr_step (tj_steps t)).

(** ... and those of the trajectories of a log (newest first). *)
Fixpoint trace_transitions (new : list Trajectory) : list Transition :=
  match new with
  | nil => nil
  | t :: older => trace_transitions older ++ traj_transitions t
  end.

Definition finishing_steps (t : Trajectory) : nat :=
  length (List.filter sr_finish_path (tj_steps t)).

(** The running trajectory [t], while the loop holds the carry [c] and the
    variables [e]. *)
Definition running_ok (W : World) (cfg : Config) (env_ : nat) (t : Trajectory)
    (c : Carry) (e : Rollout) : Prop :=
  tj_loop t = Training /\ tj_env t = env_ /\
  Forall (train_step_ok W cfg env_) (tj_steps t) /\
  steps_linked (traj_start t) (tj_steps t) /\
  Forall (fun r => sr_finish_path r = false) (tl (tj_steps t)) /\
  (c_h_out c, c_a2 c, c_r2 c) = traj_end t /\
  ro_ep_len e = length (tj_steps t) /\
  ro_ep_len e <= max_ep_len cfg /\
  ro_d e = match tj_steps t with r :: _ => t_done (sr_step r) | nil => false end.

Definition same_header (t t' : Trajectory) : Prop :=
  tj_loop t' = tj_loop t /\ tj_index t' = tj_index t /\ tj_env t' = tj_env t /\
  traj_start t' = traj_start t.

(** The result is a value or a Python exception: the model did not run
    out of fuel. *)
Definition terminates {A} (r : Res A) : Prop := r <> Raise OutOfFuel.

Definition total_finishing (new : list Trajectory) : nat :=
  fold_right (fun t n => finishing_steps t + n) 0 new.

(** [(a2, r2)] as the newest trajectory left them; [(0, 0)] before any. *)
Definition last_carry (new : list Trajectory) : nat * Q :=
  match new with
  | nil => (0, 0%Q)
  | t :: _ => (snd (fst (traj_end t)), snd (traj_end t))
  end.

(** The state after [train_agent] has run the trajectories [new] (newest
    first) from a state with log [g0] and buffer [b0] whose environment
    had been reset [rc0] times. *)
Definition trace_inv (W : World) (cfg0 : Config) (env_ : nat)
    (g0 : list Trajectory) (b0 : list BufferCall) (rc0 : nat) (s : SAC)
    (new : list Trajectory) : Prop :=
  cfg s = cfg0 /\ env s = env_ /\ ghost s = new ++ g0 /\
  Forall (training_trajectory_ok W cfg0 env_) new /\
  chained (hidden_size cfg0) new /\
  finish_path_calls (buffer s) = finish_path_calls b0 + total_finishing new /\
  reset_calls (env_log s) env_ = rc0 + length new /\
  stored (buffer s) = stored b0 ++ trace_transitions new.

Definition carry_linked (hs : nat) (new : list Trajectory) (c : Carry)
    (xs : list nat) : Prop :=
  (c_a2 c, c_r2 c) = last_carry new /\
  match xs with
  | nil => True
  | k :: _ =>
      (k = 0 -> c_h_out c = zeros hs) /\
      (k <> 0 -> exists t older, new = t :: older /\
                               c_h_out c = fst (fst (traj_end t)))
  end /\
  Forall (fun k => k <> 0) (tl xs).

(** ** The log of the evaluation loop *)

(** A call of the evaluation loop: resets go to [test_env_], samples and
    steps to [env_]. *)
Definition eval_call (env_ test_env_ : nat) (x : nat * EnvCall) : Prop :=
  match snd x with
  | EReset => fst x = test_env_
  | ESample | EStep _ => fst x = env_
  end.

(** The observations and the rewards of the steps of a trajectory, in the
    order they ran. *)
Definition traj_observations (t : Trajectory) : list Obs :=
  rev (map (fun r => t_next_obs (sr_step r)) (tj_steps t)).
Definition traj_rewards (t : Trajectory) : list Q :=
  rev (map (fun r => t_reward (sr_step r)) (tj_steps t)).

Definition evaluation_trajectory_ok (env_ test_env_ : nat) (t : Trajectory)
    : Prop :=
  tj_loop t = Evaluation /\ tj_env t = test_env_ /\
  Forall (fun r => sr_env r = env_) (tj_steps t) /\
  steps_linked (traj_start t) (tj_steps t).

Definition eval_running (cfg : Config) (env_ : nat) (t : Trajectory)
    (c : TestCarry) (e : TestRollout) : Prop :=
  Forall (fun r => sr_env r = env_) (tj_steps t) /\
  steps_linked (traj_start t) (tj_steps t) /\
  (tc_h c, tc_a2 c, tc_r2 c) = traj_end t /\
  tr_ep_len e = length (tj_steps t) /\
  tr_ep_len e <= max_ep_len cfg /\
  tr_observations e = traj_observations t /\
  tr_rewards e = traj_rewards t.

(** The state after [test_agent] has run the trajectories [new] (newest
    first), with the variables [c] it carries. *)
Definition eval_inv (cfg0 : Config) (env_ test_env_ : nat)
    (g0 : list Trajectory) (log0 : list (nat * EnvCall))
    (b0 : list BufferCall) (l0 : Learner) (s : SAC) (new : list Trajectory)
    (c : TestCarry) : Prop :=
  cfg s = cfg0 /\ env s = env_ /\ test_env s = Some test_env_ /\
  buffer s = b0 /\ learner s = l0 /\
  ghost s = new ++ g0 /\
  Forall (evaluation_trajectory_ok env_ test_env_) new /\
  chained (hidden_size cfg0) new /\
  (exists added, env_log s = log0 ++ added /\
                 Forall (eval_call env_ test_env_) added) /\
  tc_observations c = map traj_observations (rev new) /\
  tc_rewards c = map traj_rewards (rev new) /\
  (tc_h c, tc_a2 c, tc_r2 c)
  = match new with
    | nil => (zeros (hidden_size cfg0), 0, 0%Q)
    | t :: _ => traj_end t
    end.

(** ** The target network over time *)

(** The target tensors hold no gradient and ask for none. *)
Definition frozen (l : Learner) : Prop :=
  forall j, j ∈ parameters (ac_targ l) ->
    requires_grad (param_at (heap l) j) = false /\
    grad (param_at (heap l) j) = None.

(** No optimizer holds a target tensor. *)
Definition excluded (l : Learner) : Prop :=
  forall j, j ∈ parameters (ac_targ l) ->
    (j ∉ pi_optimizer l) /\ (j ∉ q_optimizer l) /\ (j ∉ alpha_optimizer l).

(** Aligned online and target tensors have the same shape. *)
Definition aligned (l : Learner) : Prop :=
  forall k p pt,
    parameters (ac l) !! k = Some p -> parameters (ac_targ l) !! k = Some pt ->
    length (data (param_at (heap l) p)) = length (data (param_at (heap l) pt)).

(** [l'] comes from [l] by steps that leave the target tensors alone and
    by smoothing passes. *)
Inductive polyak_only (cfg : Config) (l : Learner) : Learner -> Prop :=
| po_refl : polyak_only cfg l l
| po_online l1 l2 :
    polyak_only cfg l l1 -> online_step l1 l2 -> polyak_only cfg l l2
| po_pass l1 :
    polyak_only cfg l l1 -> polyak_only cfg l (polyak_pass cfg l1).

Definition learner_inv (l : Learner) : Prop :=
  static_ok l /\ frozen l /\ aligned l.

(** [l'] comes from [l] through calls of [update] and nothing else, on
    whatever episodes the buffer handed over. *)
Inductive updates_only (W : World) (cfg : Config) (l : Learner)
    : Learner -> Prop :=
| uo_refl : updates_only W cfg l l
| uo_update l1 batch :
    updates_only W cfg l l1 ->
    updates_only W cfg l (snd (update_on W cfg batch l1)).

(** What a call of [update] on the episodes [batch] does to the target
    tensors.  While the episodes are processed they stay as they are, bit
    for bit.  Then the call raises and leaves them so, or it returns and
    every target tensor has been smoothed once, toward the aligned online
    tensor as the episodes left it; flag and gradient are not touched. *)
Definition smooths_or_keeps (W : World) (cfg : Config) (batch : list Batch)
    (l : Learner) : Prop :=
  let l1 := snd (for_each batch (update_episode W cfg) None l) in
  let l' := snd (update_on W cfg batch l) in
  targets_kept l l1 /\
  match fst (update_on W cfg batch l) with
  | Ok _ =>
      forall k p pt,
        parameters (ac l) !! k = Some p ->
        parameters (ac_targ l) !! k = Some pt ->
        exists old,
          heap l !! pt = Some old /\
          heap l' !! pt
          = Some (smoothed (polyak cfg) (data (param_at (heap l1) p)) old)
  | Raise _ => targets_kept l l'
  end.

(** The networks along the methods of the agent. *)
Definition networks_inv (cfg0 : Config) (l0 : Learner) (s : SAC) : Prop :=
  cfg s = cfg0 /\ polyak_only cfg0 l0 (learner s).

(** The states the agent can be in after [__init__] left it in [s0]. *)
Inductive reachable (W : World) (s0 : SAC) : SAC -> Prop :=
| reach_init : reachable W s0 s0
| reach_update s : reachable W s0 s -> reachable W s0 (snd (update W s))
| reach_train s env_ :
    reachable W s0 s -> reachable W s0 (snd (train_agent W env_ s))
| reach_test s te n ri gr :
    reachable W s0 s -> reachable W s0 (snd (test_agent W te n ri gr s)).

(** The online critics are differentiable. *)
Definition critics_differentiable (l : Learner) : Prop :=
  forall j, j ∈ ac_q1 (ac l) ++ ac_q2 (ac l) ->
    requires_grad (param_at (heap l) j) = true.

(** ** A small world to run the definitions in *)

Definition demo_q1 (_ : Theta) (obs : Tensor) : Tensor :=
  mkT (rows obs) 2 (fun i j => inject_Z (Z.of_nat (i + 2 * j))).

Definition demo_q2 (_ : Theta) (obs : Tensor) : Tensor :=
  mkT (rows obs) 2 (fun i j => inject_Z (Z.of_nat (2 * i + j))).

Definition demo_memory (_ : Theta) (obs act_ rew h : Tensor) : Tensor * Tensor :=
  (obs, h).

Definition demo_pi_sample (_ : Theta) (emb : Tensor) : Tensor * Tensor * Tensor :=
  (mkT (rows emb) 1 (fun _ _ => 0%Q),
   mkT (rows emb) 2 (fun _ _ => (1 # 2)%Q),
   mkT (rows emb) 2 (fun _ _ => (- (1))%Q)).

(** The policy: the greedy action is 0 and the sampled one 1; the
    recurrent state grows by one in every entry. *)
Definition demo_act (_ : Theta) (o : Obs) (a2 : nat) (r2 : Q) (h : Hidden)
    : nat * Hidden :=
  (0, map (fun x => x + 1)%Q h).

Definition demo_explore (_ : nat) (_ : Theta) (o : Obs) (a2 : nat) (r2 : Q)
    (h : Hidden) : nat * Hidden :=
  (1, map (fun x => x + 1)%Q h).

(** An environment that never ends and pays 1 at every step. *)
Definition demo_env_step (_ : nat) (hist : list EnvCall) (a : nat)
    : Obs * Q * bool * bool :=
  (inject_Z (Z.of_nat (length hist)) :: nil, 1%Q, false, false).

Definition demo_batch : Batch :=
  mkBatch
    (of_rows 1 ((0%Q :: nil) :: (1%Q :: nil) :: nil))          (* obs *)
    (of_rows 2 ((0%Q :: 1%Q :: nil) :: nil))                   (* act *)
    (of_rows 2 ((1%Q :: 2%Q :: nil) :: nil))                   (* rew *)
    (of_rows 1 ((1%Q :: nil) :: (2%Q :: nil) :: nil))          (* obs2 *)
    (of_rows 1 ((0%Q :: nil) :: (1%Q :: nil) :: nil))          (* done *)
    (of_rows 2 ((0%Q :: 0%Q :: nil) :: nil))                   (* hid_out *)
    (of_rows 2 ((0%Q :: 0%Q :: nil) :: nil))                   (* prev_act *)
    (of_rows 2 ((0%Q :: 1%Q :: nil) :: nil))                   (* prev_rew *)
    (of_rows 2 ((0%Q :: 0%Q :: nil) :: nil)).                  (* hid *)

Definition is_store (c : BufferCall) : bool :=
  match c with BStore _ => true | _ => false end.

(** A buffer that hands over one episode once something was stored. *)
Definition demo_buffer_get (hist : list BufferCall) (n : nat) : list Batch :=
  if existsb is_store hist then demo_batch :: nil else nil.

Definition demo_world : World :=
  mkWorld demo_q1 demo_q2 demo_memory demo_pi_sample demo_act demo_explore
    (fun _ _ => 0%Q :: nil) (fun _ _ => 1) demo_env_step demo_buffer_get
    (fun _ => (1 # 2)%Q)
    (fun _ _ _ => 1%Q) (fun _ _ => 1%Q) (fun _ x g => x - g * (1 # 10))%Q
    (fun x => 1 + x)%Q (fun _ => (0%Q, 0%Q)).

Definition demo_cfg : Config :=
  mkConfig 2 (9 # 10) (1 # 2) 1 1 2 0 2 1 2 false 0 (1 # 10000) 1.

Definition demo_model : ModelData :=
  mkModel ((1%Q :: nil) :: nil) ((2%Q :: 3%Q :: nil) :: nil)
    ((4%Q :: nil) :: nil) ((5%Q :: nil) :: nil).

Definition demo_learner : Learner :=
  mkLearner (init_heap demo_cfg demo_model) (init_ac demo_model)
    (init_ac_targ demo_model) nil nil (0 :: 3 :: nil) (1 :: 2 :: nil) nil 8
    (2 # 10) 0.

(** The agent [SAC(env)] built on the environment object 0. *)
Definition demo_agent : SAC :=
  mkSAC demo_cfg demo_learner 0 None nil nil 0 0 0 0 0 0 nil.

(** ** The claims as the specification words them, where the code differs *)

(** The trajectories a call added to the log. *)
Definition added_trajectories (s s' : SAC) : list Trajectory :=
  firstn (length (ghost s') - length (ghost s)) (ghost s').

(** "At the start of every trajectory the recurrent state is the zero
    vector and the carry is (0, 0)." *)
Definition fresh_start (hs : nat) (t : Trajectory) : Prop :=
  traj_start t = (zeros hs, 0, 0%Q).

Definition every_trajectory_starts_fresh (W : World) (s : SAC) (env_ : nat)
    : Prop :=
  Forall (fresh_start (hidden_size (cfg s)))
    (added_trajectories s (snd (train_agent W env_ s))).

(** "[hidden_out] is the memory encoder's output state from processing
    (obs, prev_action, prev_reward, hidden_in), also during the warm-up." *)
Definition encoder_output (W : World) (r : StepRecord) : Prop :=
  let t := sr_step r in
  t_hidden_out t
  = snd (explore W (sr_rng r) (sr_theta r) (t_obs t) (t_prev_action t)
           (t_prev_reward t) (t_hidden_in t)).

Definition every_step_stores_encoder_output (W : World) (s : SAC) (env_ : nat)
    : Prop :=
  Forall (fun t => Forall (encoder_output W) (tj_steps t))
    (added_trajectories s (snd (train_agent W env_ s))).

(** "[finish_path] call count must equal the number of completed
    trajectories exactly." *)
Definition finish_path_per_trajectory (W : World) (s : SAC) (env_ : nat)
    : Prop :=
  let s' := snd (train_agent W env_ s) in
  finish_path_calls (buffer s')
  = finish_path_calls (buffer s) + length (added_trajectories s s').

(** The demo agent with [max_ep_len = 0] and no update in sight
    ([update_every = 3] with two trajectories per epoch). *)
Definition demo_agent_no_steps : SAC :=
  mkSAC (mkConfig 0 (9 # 10) (1 # 2) 1 1 2 0 3 1 2 false 0 (1 # 10000) 1)
    demo_learner 0 None nil nil 0 0 0 0 0 0 nil.

(** An environment that reports [terminated] at every step, and the demo
    world around it. *)
Definition demo_env_ending (_ : nat) (hist : list EnvCall) (a : nat)
    : Obs * Q * bool * bool :=
  (inject_Z (Z.of_nat (length hist)) :: nil, 1%Q, true, false).

Definition demo_world_ending : World :=
  mkWorld demo_q1 demo_q2 demo_memory demo_pi_sample demo_act demo_explore
    (fun _ _ => 0%Q :: nil) (fun _ _ => 1) demo_env_ending demo_buffer_get
    (fun _ => (1 # 2)%Q)
    (fun _ _ _ => 1%Q) (fun _ _ => 1%Q) (fun _ x g => x - g * (1 # 10))%Q
    (fun x => 1 + x)%Q (fun _ => (0%Q, 0%Q)).

(** The demo agent with [max_ep_len = 1], and with [max_ep_len = 2]; no
    update in sight. *)
Definition demo_agent_one_step : SAC :=
  mkSAC (mkConfig 1 (9 # 10) (1 # 2) 1 1 2 0 3 1 2 false 0 (1 # 10000) 1)
    demo_learner 0 None nil nil 0 0 0 0 0 0 nil.

Definition demo_agent_two_steps : SAC :=
  mkSAC (mkConfig 2 (9 # 10) (1 # 2) 1 1 2 0 3 1 2 false 0 (1 # 10000) 1)
    demo_learner 0 None nil nil 0 0 0 0 0 0 nil.

(** The agent once two transitions were stored and the path finished. *)
Definition demo_ready : SAC :=
  call_buffer BFinishPath
    (call_buffer (BStore (mkTransition (0%Q :: nil) (1%Q :: nil) 0 1 false 0 0
                            (0%Q :: 0%Q :: nil) (0%Q :: 0%Q :: nil)))
       demo_agent).

(** ** The losses, one transition at a time *)

(** The objective of the policy for one transition:
    [- sum_a min(q1(a), q2(a)) * pi(a) - alpha * entropy] with
    [entropy = - sum_a pi(a) * logp(a)]. *)
Definition policy_objective (alpha_ : Q) (n_actions : nat)
    (pi logp q1 q2 : nat -> Q) : Q :=
  (- big_sum (fun a => Qmin (q1 a) (q2 a) * pi a) n_actions
   - alpha_ * - big_sum (fun a => pi a * logp a) n_actions)%Q.

(** ** The temperature *)

(** [self.alpha] is the constant 0.2 without annealing, and the
    exponential of the current [log_alpha] with it. *)
Definition temperature_ok (W : World) (cfg : Config) (l : Learner) : Prop :=
  alpha l
  = if use_alpha_annealing cfg
    then exp_ W (item (data (param_at (heap l) (log_alpha l))))
    else 0.2%Q.

(** What the optimizers hold, and where [log_alpha] lives. *)
Definition optimizers_ok (cfg : Config) (l : Learner) : Prop :=
  pi_optimizer l = ac_pi (ac l) ++ ac_memory (ac l) /\
  q_optimizer l = ac_q1 (ac l) ++ ac_q2 (ac l) /\
  alpha_optimizer l
  = (if use_alpha_annealing cfg then log_alpha l :: nil else nil) /\
  (log_alpha l ∉ parameters (ac l)).

Definition tuned (W : World) (cfg : Config) (l : Learner) : Prop :=
  learner_inv l /\ optimizers_ok cfg l /\ temperature_ok W cfg l.

(** A module without parameters on one side of the two optimizers. *)
Definition no_parameters (m : ModelData) : bool :=
  (length (m_pi m) + length (m_memory m) =? 0)
  || (length (m_q1 m) + length (m_q2 m) =? 0).


(** ** Counting what the loops did *)

Definition is_get (c : BufferCall) : bool :=
  match c with BGet _ => true | _ => false end.

(** Calls of [buffer.get], that is calls of [update]. *)
Definition get_calls (b : list BufferCall) : nat :=
  length (List.filter is_get b).

Definition is_buffer_reset (c : BufferCall) : bool :=
  match c with BReset => true | _ => false end.

(** Calls of [buffer.reset]. *)
Definition buffer_resets (b : list BufferCall) : nat :=
  length (List.filter is_buffer_reset b).

Definition is_sample (c : nat * EnvCall) : bool :=
  match snd c with ESample => true | _ => false end.

(** Calls of [action_space.sample]. *)
Definition sample_calls (log : list (nat * EnvCall)) : nat :=
  length (List.filter is_sample log).

(** The steps of the trajectories of a log (newest first), in the order
    they ran. *)
Fixpoint trace_steps (new : list Trajectory) : list StepRecord :=
  match new with
  | nil => nil
  | t :: older => trace_steps older ++ rev (tj_steps t)
  end.

(** A step of the warm-up: the action was drawn at random. *)
Definition is_warm_up (cfg : Config) (r : StepRecord) : bool :=
  sr_global_steps r <=? start_steps cfg.

Definition zero_state (cfg : Config) (r : StepRecord) : Prop :=
  t_hidden_in (sr_step r) = zeros (hidden_size cfg) /\
  t_hidden_out (sr_step r) = zeros (hidden_size cfg).

(** What the environment reported at a step. *)
Definition env_done (r : StepRecord) : bool :=
  sr_terminated r || sr_truncated r.

(** A trajectory ran until the environment reported the end or the step
    limit was reached, whichever came first. *)
Definition ran_to_end (max_len : nat) (t : Trajectory) : Prop :=
  length (tj_steps t) <= max_len /\
  match tj_steps t with
  | nil => max_len = 0
  | r :: earlier =>
      (env_done r = true \/ length (tj_steps t) = max_len) /\
      Forall (fun r' => env_done r' = false) earlier
  end.

(** Inside a trajectory (newest step first) every step observes what the
    step before it left. *)
Fixpoint obs_linked (steps : list StepRecord) : Prop :=
  match steps with
  | r :: earlier =>
      match earlier with
      | r' :: _ => t_obs (sr_step r) = t_next_obs (sr_step r')
      | nil => True
      end /\ obs_linked earlier
  | nil => True
  end.

(** The observation the loop holds is the one the last step left. *)
Definition obs_carry (t : Trajectory) (e : Rollout) : Prop :=
  match tj_steps t with
  | r :: _ => ro_o e = t_next_obs (sr_step r)
  | nil => True
  end.

(** The calls a step of the training loop makes on the buffer. *)
Definition step_buffer_calls (r : StepRecord) : list BufferCall :=
  BStore (sr_step r) :: (if sr_finish_path r then BFinishPath :: nil else nil).

Definition is_rollout_call (c : BufferCall) : bool :=
  match c with BStore _ | BFinishPath => true | _ => false end.

(** The calls of [store] and of [finish_path] the buffer has received, in
    the order it received them. *)
Definition rollout_calls (b : list BufferCall) : list BufferCall :=
  List.filter is_rollout_call b.

Definition is_step (c : nat * EnvCall) : bool :=
  match snd c with EStep _ => true | _ => false end.

(** Calls of [step] the environments have received. *)
Definition step_calls (log : list (nat * EnvCall)) : nat :=
  length (List.filter is_step log).

(** The step [r] is in the log of the environments: at some point of
    [log] the environment [sr_env r] was stepped with the action of [r],
    and the observation, the reward and the two flags of [r] are what it
    answered there, given the calls it had received before. *)
Definition answered (W : World) (log : list (nat * EnvCall)) (r : StepRecord)
    : Prop :=
  exists pre post,
    log = pre ++ (sr_env r, EStep (t_action (sr_step r))) :: post /\
    env_step W (sr_env r) (history pre (sr_env r)) (t_action (sr_step r))
    = (t_next_obs (sr_step r), t_reward (sr_step r), sr_terminated r,
       sr_truncated r).

(** What one step of the training loop leaves in the two logs. *)
Definition step_logs (W : World) (s s' : SAC) (r : StepRecord) : Prop :=
  sr_env r = env s /\
  rollout_calls (buffer s') = rollout_calls (buffer s) ++ step_buffer_calls r /\
  (exists extra, env_log s' = env_log s ++ extra) /\
  step_calls (env_log s') = S (step_calls (env_log s)) /\
  answered W (env_log s') r.

(** The counters and the logs of the agent after the training loop has run
    the trajectories [new] from the state [s0]. *)
Definition steps_inv (W : World) (s0 s : SAC) (new : list Trajectory) : Prop :=
  let steps := trace_steps new in
  cfg s = cfg s0 /\
  ghost s = new ++ ghost s0 /\
  global_steps s = global_steps s0 + length steps /\
  map sr_global_steps steps = seq (global_steps s0) (length steps) /\
  Forall (fun r => is_warm_up (cfg s0) r = true -> zero_state (cfg s0) r) steps /\
  rng s
  = rng s0 + length (List.filter (fun r => negb (is_warm_up (cfg s0) r)) steps) /\
  sample_calls (env_log s)
  = sample_calls (env_log s0) + length (List.filter (is_warm_up (cfg s0)) steps) /\
  global_test_steps s = global_test_steps s0 /\
  test_env s = test_env s0 /\
  Forall (fun t => obs_linked (tj_steps t)) new /\
  rollout_calls (buffer s)
  = rollout_calls (buffer s0) ++ flat_map step_buffer_calls steps /\
  step_calls (env_log s) = step_calls (env_log s0) + length steps /\
  Forall (answered W (env_log s)) steps.

(** While the warm-up lasts the recurrent state is the zero vector. *)
Definition warm_carry (s0 s : SAC) (c : Carry) : Prop :=
  global_steps s <= start_steps (cfg s0) ->
  c_h_out c = zeros (hidden_size (cfg s0)).

(** The counters that move once per trajectory or per epoch. *)
Definition tallies (s : SAC) : nat * nat * nat * nat * nat :=
  (get_calls (buffer s), buffer_resets (buffer s), current_epoch s,
   pi_scheduler s, q_scheduler s).

(** Inside an epoch that started with [n0] trajectories run and the
    tallies [tal0]: the trajectories [xs] are still to run. *)
Definition epoch_inv (W : World) (s0 : SAC) (n0 : nat)
    (tal0 : nat * nat * nat * nat * nat) (xs : list nat) (c : Carry) (s : SAC)
    : Prop :=
  let N := number_of_trajectories (cfg s0) in
  let u := update_every (cfg s0) in
  let '(g0, r0, e0, p0, q0) := tal0 in
  exists new k,
    steps_inv W s0 s new /\ warm_carry s0 s c /\
    k <= N /\ xs = seq k (N - k) /\
    length new = n0 + k /\
    tallies s = (g0 + k / u, r0, e0, p0, q0).

(** Between the epochs of a call that started in [s0]: the epochs [xs]
    are still to run. *)
Definition agent_inv (W : World) (s0 : SAC) (xs : list nat) (s : SAC)
    : Prop :=
  let N := number_of_trajectories (cfg s0) in
  let u := update_every (cfg s0) in
  let '(g0, r0, e0, p0, q0) := tallies s0 in
  exists new j,
    steps_inv W s0 s new /\
    j <= epochs (cfg s0) /\ xs = seq j (epochs (cfg s0) - j) /\
    length new = j * N /\
    tallies s = (g0 + j * (N / u), r0 + j, e0 + j, p0 + j, q0 + j).

(** ** Counting: the evaluation loop *)

(** What [test_agent] never touches. *)
Definition untouched (s0 s : SAC) : Prop :=
  cfg s = cfg s0 /\ learner s = learner s0 /\ buffer s = buffer s0 /\
  env s = env s0 /\ global_steps s = global_steps s0 /\
  current_epoch s = current_epoch s0 /\ pi_scheduler s = pi_scheduler s0 /\
  q_scheduler s = q_scheduler s0.

(** How an evaluated step chooses its action: one uniform draw decides
    between the greedy action and a sample of the policy, both from the
    weights [theta0]. *)
Definition eval_step_rule (W : World) (greedy_ratio : Q) (theta0 : Theta)
    (r : StepRecord) : Prop :=
  let t := sr_step r in
  sr_theta r = theta0 /\
  (if Qle_bool (np_random W (sr_rng r)) greedy_ratio
   then act W theta0 (t_obs t) (t_prev_action t) (t_prev_reward t)
          (t_hidden_in t)
   else explore W (S (sr_rng r)) theta0 (t_obs t) (t_prev_action t)
          (t_prev_reward t) (t_hidden_in t))
  = (t_action t, t_hidden_out t).

(** The counters of the agent after the evaluation loop has run the
    trajectories [new] from the state [s0], on [test_env_]. *)
Definition eval_counters (W : World) (greedy_ratio : Q) (s0 : SAC)
    (test_env_ : nat) (s : SAC) (new : list Trajectory) : Prop :=
  untouched s0 s /\
  test_env s = Some test_env_ /\
  ghost s = new ++ ghost s0 /\
  global_test_steps s = global_test_steps s0 + length (trace_steps new) /\
  Forall (eval_step_rule W greedy_ratio (online_theta s0)) (trace_steps new).

(** The running evaluated trajectory [t], with the loop variables [e]. *)
Definition eval_going (max_len : nat) (t : Trajectory) (e : TestRollout)
    : Prop :=
  tr_ep_len e = length (tj_steps t) /\
  tr_ep_len e <= max_len /\
  tr_d e = match tj_steps t with r :: _ => env_done r | nil => false end /\
  Forall (fun r => env_done r = false) (tl (tj_steps t)).

(** Between the trajectories of a call of [test_agent(test_env_, n,
    random_init, _)] that started in [s0]. *)
Definition eval_tally (W : World) (greedy_ratio : Q) (s0 : SAC)
    (test_env_ n random_init : nat) (xs : list nat) (s : SAC) : Prop :=
  exists new k,
    eval_counters W greedy_ratio s0 test_env_ s new /\
    Forall (ran_to_end (max_ep_len (cfg s0))) new /\
    k <= n /\ xs = seq k (n - k) /\ length new = k /\
    sample_calls (env_log s) = sample_calls (env_log s0) + k * random_init /\
    reset_calls (env_log s) test_env_
    = reset_calls (env_log s0) test_env_ + k.

(** The step a call writes its scalars at. *)
Definition written_at (t : nat) (c : LogCall) : Prop :=
  match c with
  | LAddScalar _ _ step_ => step_ = t
  | _ => True
  end.

Definition is_save (c : LogCall) : bool :=
  match c with LSaveState _ _ => true | _ => false end.

Definition is_scalar (c : LogCall) : bool :=
  match c with LAddScalar _ _ _ => true | _ => false end.

(** The step [_log_trial] computes for the trajectory [trajectory] of the
    epoch [epoch]. *)
Definition trial_step (cfg : Config) (epoch trajectory : nat) : nat :=
  (epoch * number_of_trajectories cfg + trajectory) * max_ep_len cfg.

(** The demo episode with the reward as a column, like [done]. *)
Definition demo_batch_columns : Batch :=
  mkBatch (b_obs demo_batch) (b_act demo_batch)
    (of_rows 1 ((1%Q :: nil) :: (2%Q :: nil) :: nil))          (* rew *)
    (b_obs2 demo_batch) (b_done demo_batch)
    (b_hid_out demo_batch) (b_prev_act demo_batch) (b_prev_rew demo_batch)
    (b_hid demo_batch).

(** The demo episode with [done] as a one-dimensional tensor. *)
Definition demo_batch_flat : Batch :=
  mkBatch (b_obs demo_batch) (b_act demo_batch) (b_rew demo_batch)
    (b_obs2 demo_batch)
    (of_rows 2 ((0%Q :: 1%Q :: nil) :: nil))                   (* done *)
    (b_hid_out demo_batch) (b_prev_act demo_batch) (b_prev_rew demo_batch)
    (b_hid demo_batch).

(** The demo agent with [update_every = 0]. *)
Definition demo_agent_never : SAC :=
  mkSAC (mkConfig 2 (9 # 10) (1 # 2) 1 1 2 0 0 1 2 false 0 (1 # 10000) 1)
    demo_learner 0 None
    nil nil 0 0 0 0 0 0 nil.

(** The demo learner after one [update] on the demo episode. *)
Definition demo_learner_updated : Learner :=
  snd (update_on demo_world demo_cfg (demo_batch :: nil) demo_learner).

(** * Properties *)

(** ** Tensors *)

Lemma bidx_lt (m i : nat) : i < m -> bidx m i = i.
Proof.
  unfold bidx. destruct (Nat.eqb_spec m 1) as [-> | _]; [lia | reflexivity].
Qed.

Lemma bdim_same (n : nat) : bdim n n = Some n.
Proof. unfold bdim. now rewrite Nat.eqb_refl. Qed.

Lemma bdim_one_l (n : nat) : bdim 1 n = Some n.
Proof.
  unfold bdim. destruct (Nat.eqb_spec 1 n) as [<- | _]; reflexivity.
Qed.

Lemma bdim_one_r (n : nat) : bdim n 1 = Some n.
Proof.
  unfold bdim. destruct (Nat.eqb_spec n 1) as [-> | _]; [reflexivity |].
  reflexivity.
Qed.

(** A dimension that broadcasts against [n] to [r] gives [r] again when
    [n] is broadcast against the result. *)
Lemma bdim_back (a n r : nat) : bdim a n = Some r -> bdim n r = Some r.
Proof.
  unfold bdim.
  destruct (Nat.eqb_spec a n) as [-> | Hne].
  - intros H. inversion H; subst. now rewrite Nat.eqb_refl.
  - destruct (Nat.eqb_spec a 1) as [-> | H1].
    + intros H. inversion H; subst. now rewrite Nat.eqb_refl.
    + destruct (Nat.eqb_spec n 1) as [-> | Hn1]; [| discriminate].
      intros H. inversion H; subst.
      destruct (Nat.eqb_spec 1 r); [congruence | reflexivity].
Qed.

(** ... and unless [n] is 1 the result is [n]. *)
Lemma bdim_rows (a n r : nat) : bdim a n = Some r -> n <> 1 -> r = n.
Proof.
  unfold bdim.
  destruct (Nat.eqb_spec a n) as [-> | Hne]; [congruence |].
  destruct (Nat.eqb_spec a 1) as [-> | H1]; [congruence |].
  destruct (Nat.eqb_spec n 1); [congruence | discriminate].
Qed.

Lemma fold_sum_ext (f g : nat -> Q) (l : list nat) (a : Q) :
  (forall j, In j l -> f j = g j) ->
  fold_left (fun acc j => (acc + f j)%Q) l a
  = fold_left (fun acc j => (acc + g j)%Q) l a.
Proof.
  revert a. induction l as [| x l IH]; intros a H; simpl; [reflexivity |].
  rewrite (H x) by (left; reflexivity).
  apply IH. intros j Hj. apply H. right. exact Hj.
Qed.

Lemma big_sum_ext (f g : nat -> Q) (n : nat) :
  (forall j, j < n -> f j = g j) -> big_sum f n = big_sum g n.
Proof.
  intros H. unfold big_sum. apply fold_sum_ext.
  intros j Hj. apply H. apply in_seq in Hj. lia.
Qed.

Lemma broadcast2_same_shape (f : Q -> Q -> Q) (a b : Tensor) (r c : nat) :
  shape a = (r, c) -> shape b = (r, c) ->
  exists t, broadcast2 f a b = Ok t /\ shape t = (r, c) /\
    forall i j, i < r -> j < c -> at_ t i j = f (at_ a i j) (at_ b i j).
Proof.
  unfold shape, broadcast2. intros Ha Hb.
  inversion Ha as [[Har Hac]]. inversion Hb as [[Hbr Hbc]].
  rewrite Har, Hac, Hbr, Hbc, !bdim_same.
  eexists. split; [reflexivity |]. split; [reflexivity |].
  intros i j Hi Hj. simpl. now rewrite !bidx_lt by assumption.
Qed.

Lemma shape_eqb_spec (a b : nat * nat) : shape_eqb a b = true <-> a = b.
Proof.
  destruct a as [a1 a2], b as [b1 b2]. unfold shape_eqb. simpl.
  rewrite andb_true_iff, !Nat.eqb_eq. split.
  - intros [-> ->]. reflexivity.
  - intros H. inversion H. split; reflexivity.
Qed.

(** ** The critic target *)

Lemma critic_next_q_spec (W : World) (l : Learner) (batch : Batch)
    (rew h_out emb hid act_s pi2 logp2 : Tensor) (n n_act : nat) :
  let q1_targ := fwd_q1 W (theta (heap l) (ac_q1 (ac_targ l))) (b_obs2 batch) in
  let q2_targ := fwd_q2 W (theta (heap l) (ac_q2 (ac_targ l))) (b_obs2 batch) in
  fwd_memory W (theta (heap l) (ac_memory (ac l))) (b_obs2 batch) (b_act batch)
    rew h_out = (emb, hid) ->
  fwd_pi_sample W (theta (heap l) (ac_pi (ac l))) emb = (act_s, pi2, logp2) ->
  shape pi2 = (n, n_act) -> shape logp2 = (n, n_act) ->
  shape q1_targ = (n, n_act) -> shape q2_targ = (n, n_act) ->
  exists next_q, critic_next_q W l batch rew h_out = Ok next_q /\
    shape next_q = (n, 1) /\
    forall i, i < n ->
      at_ next_q i 0
      = soft_value (alpha l) n_act (at_ pi2 i) (at_ logp2 i)
          (at_ q1_targ i) (at_ q2_targ i).
Proof.
  intros q1_targ q2_targ Hmem Hpi Hs1 Hs2 Hs3 Hs4.
  unfold critic_next_q. rewrite Hmem, Hpi.
  destruct (broadcast2_same_shape Qmin q1_targ q2_targ n n_act Hs3 Hs4)
    as (qt & Eqt & Sqt & Aqt).
  fold q1_targ q2_targ. rewrite Eqt. simpl.
  assert (Hs2' : shape (tmap (fun x => (alpha l * x)%Q) logp2) = (n, n_act))
    by exact Hs2.
  destruct (broadcast2_same_shape Qminus qt _ n n_act Sqt Hs2')
    as (soft & Esoft & Ssoft & Asoft).
  rewrite Esoft. simpl.
  destruct (broadcast2_same_shape Qmult pi2 soft n n_act Hs1 Ssoft)
    as (w & Ew & Sw & Aw).
  rewrite Ew. simpl.
  eexists. split; [reflexivity |].
  assert (Hwr : rows w = n) by (unfold shape in Sw; congruence).
  assert (Hwc : cols w = n_act) by (unfold shape in Sw; congruence).
  split; [unfold shape; simpl; now rewrite Hwr |].
  intros i Hi. simpl. unfold soft_value. rewrite Hwc.
  apply big_sum_ext. intros j Hj.
  rewrite Aw, Asoft, Aqt by assumption. reflexivity.
Qed.

(** The Bellman backup for a reward column and a soft value of [n] rows,
    whatever the shape of [done]: torch broadcasts [done] against the
    column. *)
Lemma critic_backup_table (W : World) (cfg : Config) (l : Learner)
    (batch : Batch) (rew h_out nq : Tensor) (n : nat) :
  let done := b_done batch in
  critic_next_q W l batch rew h_out = Ok nq ->
  shape nq = (n, 1) -> shape rew = (n, 1) ->
  match bdim (rows done) n with
  | None => critic_backup W cfg l batch rew h_out = Raise RuntimeError
  | Some r =>
      exists backup, critic_backup W cfg l batch rew h_out = Ok backup /\
        shape backup = (r, cols done) /\
        forall i j, i < r -> j < cols done ->
          at_ backup i j
          = bellman_backup (gamma cfg) (at_ rew (bidx n i) 0)
              (at_ done (bidx (rows done) i) j) (at_ nq (bidx n i) 0)
  end.
Proof.
  intros done Enq Snq Hrew.
  assert (E : shape_eqb (shape rew) (shape nq) = true)
    by (apply shape_eqb_spec; congruence).
  assert (Hnr : rows nq = n) by (unfold shape in Snq; congruence).
  assert (Hnc : cols nq = 1) by (unfold shape in Snq; congruence).
  assert (Hrr : rows rew = n) by (unfold shape in Hrew; congruence).
  assert (Hrc : cols rew = 1) by (unfold shape in Hrew; congruence).
  unfold critic_backup. rewrite Enq. cbn [rbind]. rewrite E.
  fold done. unfold broadcast2. cbn [rows cols tmap].
  rewrite Hnr, Hnc, bdim_one_r.
  destruct (bdim (rows done) n) as [r |] eqn:Eb; cbn [rbind rows cols];
    [| reflexivity].
  rewrite Hrr, Hrc, (bdim_back _ _ _ Eb), bdim_one_l.
  eexists. split; [reflexivity |]. split; [reflexivity |].
  intros i j Hi Hj. cbn [at_ tmap].
  rewrite !(bidx_lt r i Hi), !(bidx_lt (cols done) j Hj).
  change (bidx 1 j) with 0. reflexivity.
Qed.

(** C1.  In [compute_critic_loss], the policy outputs [pi2], [logp2] come from
    the online memory and policy head on the next observation and the two
    target vectors from the target network.  When these have one row per
    transition and one column per action, the soft value is a column with
    [next_v = sum_a pi2(a) * (min(q1_targ(a), q2_targ(a)) - alpha * logp2(a))]
    in the row of each transition.  If the reward column differs from it in
    shape the assertion fails.  If they agree the bootstrap target is
    [reward + gamma * (1 - done) * next_v] as torch evaluates it, for every
    shape of [done], which the code uses as the buffer hands it over: a
    [done] that does not broadcast against the column raises, and otherwise
    the entry [(i, j)] of the target combines the reward and the soft
    value of transition [i] with the entry of [done] that broadcasting
    puts there.  With [done] a column like the reward this is the target
    of each transition, from its own reward, flag and soft value.  The
    graph of the returned loss reaches only the online critics, so no
    gradient is recorded for the policy pass or the target network. *)
Theorem compute_critic_loss_backup (W : World) (cfg : Config) (l : Learner)
    (batch : Batch) (h_out emb hid act_s pi2 logp2 : Tensor) (n n_act : nat) :
  let rew := view_col (b_rew batch) in
  let done := b_done batch in
  let q1_targ := fwd_q1 W (theta (heap l) (ac_q1 (ac_targ l))) (b_obs2 batch) in
  let q2_targ := fwd_q2 W (theta (heap l) (ac_q2 (ac_targ l))) (b_obs2 batch) in
  let next_v := fun i =>
    soft_value (alpha l) n_act (at_ pi2 i) (at_ logp2 i)
      (at_ q1_targ i) (at_ q2_targ i) in
  view_hidden (hidden_size cfg) (b_hid_out batch) = Ok h_out ->
  fwd_memory W (theta (heap l) (ac_memory (ac l))) (b_obs2 batch) (b_act batch)
    rew h_out = (emb, hid) ->
  fwd_pi_sample W (theta (heap l) (ac_pi (ac l))) emb = (act_s, pi2, logp2) ->
  shape pi2 = (n, n_act) -> shape logp2 = (n, n_act) ->
  shape q1_targ = (n, n_act) -> shape q2_targ = (n, n_act) ->
  (exists next_q, critic_next_q W l batch rew h_out = Ok next_q /\
     shape next_q = (n, 1) /\
     forall i, i < n -> at_ next_q i 0 = next_v i) /\
  (shape rew <> (n, 1) ->
     critic_backup W cfg l batch rew h_out = Raise AssertionError /\
     forall r, compute_critic_loss W cfg l batch <> Ok r) /\
  (shape rew = (n, 1) ->
     match bdim (rows done) n with
     | None => critic_backup W cfg l batch rew h_out = Raise RuntimeError
     | Some r =>
         exists backup, critic_backup W cfg l batch rew h_out = Ok backup /\
           shape backup = (r, cols done) /\
           forall i j, i < r -> j < cols done ->
             at_ backup i j
             = bellman_backup (gamma cfg) (at_ rew (bidx n i) 0)
                 (at_ done (bidx (rows done) i) j) (next_v (bidx n i))
     end) /\
  (shape rew = (n, 1) -> shape done = (n, 1) ->
     exists backup, critic_backup W cfg l batch rew h_out = Ok backup /\
       shape backup = (n, 1) /\
       forall i, i < n ->
         at_ backup i 0
         = bellman_backup (gamma cfg) (at_ rew i 0) (at_ done i 0) (next_v i)) /\
  (forall loss info, compute_critic_loss W cfg l batch = Ok (loss, info) ->
     loss_leaves loss = tracked (heap l) (ac_q1 (ac l) ++ ac_q2 (ac l))).
Proof.
  intros rew done q1_targ q2_targ next_v Hview Hmem Hpi Hs1 Hs2 Hs3 Hs4.
  destruct (critic_next_q_spec W l batch rew h_out emb hid act_s pi2 logp2
              n n_act Hmem Hpi Hs1 Hs2 Hs3 Hs4) as (nq & Enq & Snq & Anq).
  assert (Hlt : forall r i, bdim (rows done) n = Some r -> i < r -> bidx n i < n).
  { intros r i Eb Hi. unfold bidx.
    destruct (Nat.eqb_spec n 1) as [-> | Hn1]; [lia |].
    now rewrite <- (bdim_rows _ _ _ Eb Hn1). }
  split; [exists nq; auto |].
  split; [| split; [| split]].
  - intros Hne.
    assert (Hb : critic_backup W cfg l batch rew h_out = Raise AssertionError).
    { unfold critic_backup. rewrite Enq. simpl.
      destruct (shape_eqb (shape rew) (shape nq)) eqn:E; [| reflexivity].
      apply shape_eqb_spec in E. fold rew in E. congruence. }
    split; [exact Hb |].
    intros r. unfold compute_critic_loss. rewrite Hview. simpl.
    destruct (gather1 _ _); simpl; [| discriminate].
    destruct (gather1 _ _); simpl; [| discriminate].
    fold rew. rewrite Hb. simpl. discriminate.
  - intros Hr.
    pose proof (critic_backup_table W cfg l batch rew h_out nq n Enq Snq Hr) as T.
    cbv zeta in T. fold done in T |- *.
    destruct (bdim (rows done) n) as [r |] eqn:Eb; [| exact T].
    destruct T as (bk & Ebk & Sbk & Abk).
    exists bk. split; [exact Ebk |]. split; [exact Sbk |].
    intros i j Hi Hj. rewrite (Abk i j Hi Hj).
    now rewrite (Anq _ (Hlt r i eq_refl Hi)).
  - intros Hr Hd.
    pose proof (critic_backup_table W cfg l batch rew h_out nq n Enq Snq Hr) as T.
    cbv zeta in T. fold done in T.
    assert (Hdr : rows done = n) by (unfold shape in Hd; congruence).
    assert (Hdc : cols done = 1) by (unfold shape in Hd; congruence).
    rewrite Hdr, Hdc, bdim_same in T.
    destruct T as (bk & Ebk & Sbk & Abk).
    exists bk. split; [exact Ebk |]. split; [exact Sbk |].
    intros i Hi. rewrite (Abk i 0 Hi ltac:(lia)).
    rewrite !(bidx_lt n i Hi). now rewrite (Anq i Hi).
  - intros loss info. unfold compute_critic_loss.
    destruct (view_hidden _ _); simpl; [| discriminate].
    destruct (gather1 _ _); simpl; [| discriminate].
    destruct (gather1 _ _); simpl; [| discriminate].
    destruct (critic_backup _ _ _ _ _ _); simpl; [| discriminate].
    destruct (mse _ _); simpl; [| discriminate].
    destruct (mse _ _); simpl; [| discriminate].
    intros H. inversion H. reflexivity.
Qed.

(** ** Parameters in place *)

Lemma alter_all_notin (f : nat -> Param -> Param) (ids : list nat)
    (h : gmap nat Param) (j : nat) :
  ~ In j ids -> alter_all f ids h !! j = h !! j.
Proof.
  unfold alter_all. revert h. induction ids as [| i ids IH]; intros h Hj; simpl.
  - reflexivity.
  - rewrite IH by (intros H; apply Hj; right; exact H).
    apply lookup_alter_ne. intros ->. apply Hj. left. reflexivity.
Qed.

Lemma param_at_alter (f : Param -> Param) (i j : nat) (h : gmap nat Param) :
  param_at (alter f i h) j = param_at h j \/
  (i = j /\ param_at (alter f i h) j = f (param_at h j)).
Proof.
  unfold param_at. destruct (decide (i = j)) as [-> | Hne].
  - rewrite lookup_alter_eq. destruct (h !! j); simpl; [right | left]; auto.
  - rewrite lookup_alter_ne by assumption. left. reflexivity.
Qed.

Lemma alter_all_proj {X} (g : Param -> X) (f : nat -> Param -> Param)
    (ids : list nat) (h : gmap nat Param) (j : nat) :
  (forall i p, g (f i p) = g p) ->
  g (param_at (alter_all f ids h) j) = g (param_at h j).
Proof.
  intros Hf. unfold alter_all. revert h.
  induction ids as [| i ids IH]; intros h; simpl; [reflexivity |].
  rewrite IH. destruct (param_at_alter (f i) i j h) as [-> | [_ ->]];
    [reflexivity | apply Hf].
Qed.

(** ** The networks during an optimization cycle *)

Lemma online_step_refl (l : Learner) : online_step l l.
Proof. repeat split; reflexivity. Qed.

Lemma online_step_trans (l1 l2 l3 : Learner) :
  online_step l1 l2 -> online_step l2 l3 -> online_step l1 l3.
Proof.
  intros (S1 & T1 & H1 & F1) (S2 & T2 & H2 & F2).
  destruct S1 as (a1 & b1 & c1 & d1 & e1 & f1 & g1).
  destruct S2 as (a2 & b2 & c2 & d2 & e2 & f2 & g2).
  split; [| split; [| split]].
  - repeat split; congruence.
  - intros j Hj. rewrite T2 by (rewrite b1; exact Hj). apply T1, Hj.
  - intros j. rewrite H2. apply H1.
  - intros j. rewrite F2. apply F1.
Qed.

Lemma static_ok_stable (l l' : Learner) :
  static_ok l -> online_step l l' -> static_ok l'.
Proof.
  intros (N & L & A & O & B & Qp) ((a & b & c & d & e & f & g) & _).
  unfold static_ok. rewrite a, b, c, d, e, f, g. repeat split; assumption.
Qed.

Lemma online_not_target (l : Learner) (j : nat) :
  static_ok l -> j ∈ parameters (ac l) -> j ∉ parameters (ac_targ l).
Proof.
  intros (N & _) Hj Ht. apply NoDup_app in N as (_ & D & _). exact (D j Hj Ht).
Qed.

Lemma online_step_tick (l : Learner) : online_step l (tick l).
Proof. repeat split; reflexivity. Qed.

Lemma online_step_set_alpha (a : Q) (l : Learner) : online_step l (set_alpha a l).
Proof. repeat split; reflexivity. Qed.

Lemma online_step_alter_all (f : nat -> Param -> Param) (ids : list nat)
    (l : Learner) :
  (forall i p, length (data (f i p)) = length (data p)) ->
  (forall i p, requires_grad (f i p) = requires_grad p) ->
  (forall j, j ∈ ids -> j ∉ parameters (ac_targ l)) ->
  online_step l (set_heap (alter_all f ids (heap l)) l).
Proof.
  intros Hlen Hflag Hids. split; [| split; [| split]].
  - repeat split; reflexivity.
  - intros j Hj. simpl. apply alter_all_notin.
    intros Hin. apply (Hids j); [apply list_elem_of_In; exact Hin | exact Hj].
  - intros j. simpl.
    apply (alter_all_proj (fun p => length (data p))). exact Hlen.
  - intros j. simpl. apply (alter_all_proj requires_grad). exact Hflag.
Qed.

Lemma online_step_zero_grad (opt : list nat) (l : Learner) :
  (forall j, j ∈ opt -> j ∉ parameters (ac_targ l)) ->
  online_step l (zero_grad opt l).
Proof. intros H. apply online_step_alter_all; auto. Qed.

Lemma online_step_backward (W : World) (loss : Loss) (l : Learner) :
  (forall j, j ∈ loss_leaves loss -> j ∉ parameters (ac_targ l)) ->
  online_step l (backward W loss l).
Proof.
  intros H. unfold backward.
  eapply online_step_trans; [| apply online_step_tick].
  apply online_step_alter_all; auto.
Qed.

Lemma online_step_clip (W : World) (cfg : Config) (l : Learner) :
  static_ok l -> online_step l (clip_grad_norm_ W cfg l).
Proof.
  intros H. unfold clip_grad_norm_.
  eapply online_step_trans; [| apply online_step_tick].
  apply online_step_alter_all; auto.
  intros j. apply online_not_target, H.
Qed.

Lemma online_step_step (W : World) (opt : list nat) (l : Learner) :
  (forall j, j ∈ opt -> j ∉ parameters (ac_targ l)) ->
  online_step l (step W opt l).
Proof.
  intros H. unfold step.
  eapply online_step_trans; [| apply online_step_tick].
  apply online_step_alter_all; auto.
  - intros _ p. destruct (grad p); [| reflexivity]. simpl. apply length_imap.
  - intros _ p. destruct (grad p); reflexivity.
Qed.

Lemma for_q_params_exhausted (b : bool) (l : Learner) :
  q_params l = nil -> for_q_params_set_requires_grad b l = l.
Proof.
  intros H. unfold for_q_params_set_requires_grad, set_q_params, set_heap.
  rewrite H. simpl. destruct l; simpl in *. now subst.
Qed.

Lemma tracked_subset (h : gmap nat Param) (ids : list nat) (j : nat) :
  j ∈ tracked h ids -> j ∈ ids.
Proof. unfold tracked. rewrite list_elem_of_filter. tauto. Qed.

Lemma critic_loss_leaves (W : World) (cfg : Config) (l : Learner)
    (batch : Batch) (loss : Loss) (info : Q * Q) :
  compute_critic_loss W cfg l batch = Ok (loss, info) ->
  loss_leaves loss = tracked (heap l) (ac_q1 (ac l) ++ ac_q2 (ac l)).
Proof.
  unfold compute_critic_loss.
  destruct (view_hidden _ _); simpl; [| discriminate].
  destruct (gather1 _ _); simpl; [| discriminate].
  destruct (gather1 _ _); simpl; [| discriminate].
  destruct (critic_backup _ _ _ _ _ _); simpl; [| discriminate].
  destruct (mse _ _); simpl; [| discriminate].
  destruct (mse _ _); simpl; [| discriminate].
  intros H. inversion H. reflexivity.
Qed.

Lemma policy_loss_leaves (W : World) (cfg : Config) (l : Learner)
    (batch : Batch) (loss : Loss) (logp : Tensor) :
  compute_policy_loss W cfg l batch = Ok (loss, logp) ->
  loss_leaves loss
  = tracked (heap l) (ac_memory (ac l) ++ ac_pi (ac l) ++ alpha_leaves cfg l).
Proof.
  unfold compute_policy_loss.
  destruct (view_hidden _ _); simpl; [| discriminate].
  destruct (fwd_memory _ _ _ _ _ _) as [emb hid].
  destruct (fwd_pi_sample _ _ _) as [[smp pi] logp_pi].
  destruct (broadcast2 _ _ _); simpl; [| discriminate].
  destruct (broadcast2 _ _ _); simpl; [| discriminate].
  destruct (broadcast2 _ _ _); simpl; [| discriminate].
  destruct (broadcast2 _ _ _); simpl; [| discriminate].
  intros H. inversion H. reflexivity.
Qed.

Lemma q_in_parameters (m : ActorCritic) (j : nat) :
  j ∈ ac_q1 m ++ ac_q2 m -> j ∈ parameters m.
Proof. unfold parameters. rewrite !elem_of_app. tauto. Qed.

Lemma pi_in_parameters (m : ActorCritic) (j : nat) :
  j ∈ ac_memory m ++ ac_pi m -> j ∈ parameters m.
Proof. unfold parameters. rewrite !elem_of_app. tauto. Qed.

(** Handles of the online network stay clear of the target network along
    an optimization cycle. *)
Lemma online_clear (l l' : Learner) (j : nat) :
  static_ok l -> online_step l l' -> j ∈ parameters (ac l) ->
  j ∉ parameters (ac_targ l').
Proof.
  intros Hs ((_ & Ht & _) & _) Hj. rewrite Ht. now apply online_not_target.
Qed.

Lemma optimizer_clear (l l' : Learner) (j : nat) :
  static_ok l -> online_step l l' -> j ∈ pi_optimizer l ++ q_optimizer l ->
  j ∉ parameters (ac_targ l').
Proof.
  intros Hs Hl Hj. eapply online_clear; try eassumption.
  destruct Hs as (_ & _ & _ & O & _). apply O, Hj.
Qed.

Lemma critic_step_eq (W : World) (cfg : Config) (ep : Batch) (l : Learner) :
  critic_step W cfg ep l =
  match compute_critic_loss W cfg l ep with
  | Ok (loss_q, _) =>
      (Ok tt, step W (q_optimizer l)
                (clip_grad_norm_ W cfg
                   (backward W loss_q (zero_grad (q_optimizer l) l))))
  | Raise e => (Raise e, l)
  end.
Proof.
  unfold critic_step, bind, get, lift, modify.
  destruct (compute_critic_loss W cfg l ep) as [[loss info] | e]; reflexivity.
Qed.

Lemma critic_step_online (W : World) (cfg : Config) (ep : Batch) (l : Learner) :
  static_ok l -> online_step l (snd (critic_step W cfg ep l)).
Proof.
  intros Hs. rewrite critic_step_eq.
  destruct (compute_critic_loss W cfg l ep) as [[loss info] | e] eqn:E; simpl;
    [| apply online_step_refl].
  apply critic_loss_leaves in E.
  assert (H1 : online_step l (zero_grad (q_optimizer l) l)).
  { apply online_step_zero_grad. intros j Hj.
    apply (optimizer_clear l l j Hs (online_step_refl l)).
    apply elem_of_app. right. exact Hj. }
  assert (H2 : online_step l (backward W loss (zero_grad (q_optimizer l) l))).
  { eapply online_step_trans; [exact H1 |]. apply online_step_backward.
    intros j Hj. rewrite E in Hj. apply tracked_subset, q_in_parameters in Hj.
    eapply online_clear; eassumption. }
  assert (H3 : online_step l (clip_grad_norm_ W cfg
                 (backward W loss (zero_grad (q_optimizer l) l)))).
  { eapply online_step_trans; [exact H2 |]. apply online_step_clip.
    eapply static_ok_stable; eassumption. }
  eapply online_step_trans; [exact H3 |]. apply online_step_step.
  intros j Hj. apply (optimizer_clear l _ j Hs H3).
  apply elem_of_app. right. exact Hj.
Qed.

Lemma policy_step_eq (W : World) (cfg : Config) (ep : Batch) (l : Learner) :
  policy_step W cfg ep l =
  let l1 := zero_grad (pi_optimizer l) l in
  match compute_policy_loss W cfg l1 ep with
  | Ok (loss_pi, logp_pi) =>
      (Ok logp_pi, step W (pi_optimizer l)
                     (clip_grad_norm_ W cfg (backward W loss_pi l1)))
  | Raise e => (Raise e, l1)
  end.
Proof.
  unfold policy_step, bind, get, lift, modify, ret. simpl.
  destruct (compute_policy_loss W cfg _ ep) as [[loss logp] | e]; reflexivity.
Qed.

Lemma policy_step_online (W : World) (cfg : Config) (ep : Batch) (l : Learner) :
  static_ok l -> online_step l (snd (policy_step W cfg ep l)).
Proof.
  intros Hs. rewrite policy_step_eq. cbv zeta.
  assert (H1 : online_step l (zero_grad (pi_optimizer l) l)).
  { apply online_step_zero_grad. intros j Hj.
    apply (optimizer_clear l l j Hs (online_step_refl l)).
    apply elem_of_app. left. exact Hj. }
  destruct (compute_policy_loss W cfg _ ep) as [[loss logp] | e] eqn:E; simpl;
    [| exact H1].
  apply policy_loss_leaves in E.
  assert (H2 : online_step l (backward W loss (zero_grad (pi_optimizer l) l))).
  { eapply online_step_trans; [exact H1 |]. apply online_step_backward.
    intros j Hj. rewrite E in Hj. apply tracked_subset in Hj.
    cbn [ac zero_grad set_heap] in Hj.
    rewrite app_assoc in Hj. apply elem_of_app in Hj as [Hj | Hj].
    - apply pi_in_parameters in Hj. eapply online_clear; eassumption.
    - unfold alpha_leaves in Hj. cbn [log_alpha set_heap] in Hj.
      destruct (use_alpha_annealing cfg); [| inversion Hj].
      apply list_elem_of_singleton in Hj. subst j.
      destruct H1 as ((_ & Ht & _) & _). rewrite Ht. apply Hs. }
  assert (H3 : online_step l (clip_grad_norm_ W cfg
                 (backward W loss (zero_grad (pi_optimizer l) l)))).
  { eapply online_step_trans; [exact H2 |]. apply online_step_clip.
    eapply static_ok_stable; eassumption. }
  eapply online_step_trans; [exact H3 |]. apply online_step_step.
  intros j Hj. apply (optimizer_clear l _ j Hs H3).
  apply elem_of_app. left. exact Hj.
Qed.

Lemma alpha_step_online (W : World) (cfg : Config) (logp : Tensor) (l : Learner) :
  static_ok l -> online_step l (snd (alpha_step W cfg logp l)).
Proof.
  intros Hs. unfold alpha_step.
  destruct (use_alpha_annealing cfg); unfold bind, get, modify, ret; simpl;
    [| apply online_step_set_alpha].
  assert (Ha : forall l', online_step l l' ->
                 forall j, j ∈ alpha_optimizer l -> j ∉ parameters (ac_targ l')).
  { intros l' ((_ & Ht & _) & _) j Hj. rewrite Ht.
    destruct Hs as (_ & _ & A & _ & B & _). now rewrite (B j Hj). }
  assert (H1 : online_step l (zero_grad (alpha_optimizer l) l)).
  { apply online_step_zero_grad. apply Ha, online_step_refl. }
  set (loss := mkLoss _ _).
  assert (H2 : online_step l (backward W loss (zero_grad (alpha_optimizer l) l))).
  { eapply online_step_trans; [exact H1 |]. apply online_step_backward.
    intros j Hj. apply tracked_subset in Hj.
    apply list_elem_of_singleton in Hj. subst j.
    destruct H1 as ((_ & Ht & _) & _). simpl in Ht. 
    destruct Hs as (_ & _ & A & _). exact A. }
  assert (H3 : online_step l (step W (alpha_optimizer l)
                 (backward W loss (zero_grad (alpha_optimizer l) l)))).
  { eapply online_step_trans; [exact H2 |]. apply online_step_step.
    apply Ha, H2. }
  eapply online_step_trans; [exact H3 |]. apply online_step_set_alpha.
Qed.

Lemma update_episode_online (W : World) (cfg : Config) (ep : Batch)
    (al : option Q) (l : Learner) :
  static_ok l -> online_step l (snd (update_episode W cfg ep al l)).
Proof.
  intros Hs. unfold update_episode. unfold bind at 1.
  pose proof (critic_step_online W cfg ep l Hs) as H1.
  destruct (critic_step W cfg ep l) as [[[] | e] l1]; simpl in *; [| exact H1].
  assert (Hs1 : static_ok l1) by (eapply static_ok_stable; eassumption).
  unfold bind at 1. unfold modify at 1.
  rewrite for_q_params_exhausted by apply Hs1.
  unfold bind at 1.
  pose proof (policy_step_online W cfg ep l1 Hs1) as H2.
  destruct (policy_step W cfg ep l1) as [[logp | e] l2]; simpl in *;
    [| eapply online_step_trans; eassumption].
  assert (Hs2 : static_ok l2) by (eapply static_ok_stable; eassumption).
  unfold bind at 1. unfold modify at 1.
  rewrite for_q_params_exhausted by apply Hs2.
  unfold bind at 1.
  pose proof (alpha_step_online W cfg logp l2 Hs2) as H3.
  destruct (alpha_step W cfg logp l2) as [[a | e] l3]; simpl in *;
    (eapply online_step_trans; [exact H1 |];
     eapply online_step_trans; [exact H2 | exact H3]).
Qed.

Lemma episodes_online (W : World) (cfg : Config) (batch : list Batch) :
  forall (al : option Q) (l : Learner),
    static_ok l ->
    online_step l (snd (for_each batch (update_episode W cfg) al l)).
Proof.
  induction batch as [| ep batch IH]; intros al l Hs; simpl.
  - apply online_step_refl.
  - unfold bind. pose proof (update_episode_online W cfg ep al l Hs) as H.
    destruct (update_episode W cfg ep al l) as [[a | e] l1]; simpl in *;
      [| exact H].
    eapply online_step_trans; [exact H |]. apply IH.
    eapply static_ok_stable; eassumption.
Qed.

(** The loop over the episodes binds [alpha_loss] as soon as it runs once. *)
Lemma episodes_bind_alpha_loss (W : World) (cfg : Config) (batch : list Batch)
    (al r : option Q) (l l' : Learner) :
  for_each batch (update_episode W cfg) al l = (Ok r, l') ->
  (batch = nil /\ r = al /\ l' = l) \/ (batch <> nil /\ exists a, r = Some a).
Proof.
  revert al l. induction batch as [| ep batch IH]; intros al l; simpl.
  - unfold ret. intros H. inversion H. left. auto.
  - intros H. right. split; [discriminate |].
    unfold bind in H at 1.
    destruct (update_episode W cfg ep al l) as [[a1 | e] l1] eqn:E;
      [| discriminate].
    assert (Ha1 : exists a, a1 = Some a).
    { unfold update_episode, bind, modify, ret in E.
      destruct (critic_step _ _ _ _) as [[[] | ?] ?]; [| discriminate].
      destruct (policy_step _ _ _ _) as [[? | ?] ?]; [| discriminate].
      destruct (alpha_step _ _ _ _) as [[a0 | ?] ?]; [| discriminate].
      inversion E. eauto. }
    destruct Ha1 as [a ->].
    destruct (IH _ _ H) as [(_ & -> & _) | (_ & Hr)]; eauto.
Qed.

(** ** Target smoothing *)

Lemma Qmult_comm_eq (x y : Q) : (x * y)%Q = (y * x)%Q.
Proof.
  unfold Qmult. destruct x, y. simpl.
  now rewrite Z.mul_comm, Pos.mul_comm.
Qed.

Lemma polyak_in_place (c : Q) (t o : list Q) :
  zip_with Qplus (map (fun x => x * c)%Q t) (map (fun x => (1 - c) * x)%Q o)
  = polyak_data c t o.
Proof.
  unfold polyak_data. revert o. induction t as [| x t IH]; intros [| y o];
    simpl; try reflexivity.
  rewrite IH. now rewrite (Qmult_comm_eq x c).
Qed.

Lemma polyak_pair_other (c : Q) (h : gmap nat Param) (p pt j : nat) :
  j <> pt -> polyak_pair c h (p, pt) !! j = h !! j.
Proof.
  intros Hj. unfold polyak_pair.
  rewrite !lookup_alter_ne by congruence. reflexivity.
Qed.

Lemma polyak_pair_target (c : Q) (h : gmap nat Param) (p pt : nat) :
  p <> pt ->
  polyak_pair c h (p, pt) !! pt
  = smoothed c (data (param_at h p)) <$> h !! pt.
Proof.
  intros Hne. unfold polyak_pair. rewrite !lookup_alter_eq.
  assert (Hp : param_at (alter (fun t => set_data (map (fun x => (x * c)%Q) (data t)) t) pt h) p
               = param_at h p).
  { unfold param_at. rewrite lookup_alter_ne by congruence. reflexivity. }
  rewrite Hp. destruct (h !! pt) as [T |]; simpl; [| reflexivity].
  unfold smoothed, set_data. simpl. now rewrite polyak_in_place.
Qed.

Lemma polyak_fold (c : Q) (ps ts : list nat) (h : gmap nat Param) :
  NoDup ts -> (forall x, x ∈ ps -> x ∉ ts) ->
  (forall j, j ∉ ts -> fold_left (polyak_pair c) (zip ps ts) h !! j = h !! j) /\
  (forall k p pt, ps !! k = Some p -> ts !! k = Some pt ->
     fold_left (polyak_pair c) (zip ps ts) h !! pt
     = smoothed c (data (param_at h p)) <$> h !! pt).
Proof.
  revert ts h. induction ps as [| p0 ps IH]; intros ts h Hnd Hdis.
  - split; [reflexivity |]. intros k p pt Hk. discriminate.
  - destruct ts as [| t0 ts]; [split; [reflexivity |]; intros k p pt _ Hk; discriminate |].
    apply NoDup_cons in Hnd as [Ht0 Hnd].
    assert (Hdis' : forall x, x ∈ ps -> x ∉ ts).
    { intros x Hx Hin. apply (Hdis x); [now right | now right]. }
    assert (Hp0 : p0 <> t0).
    { intros ->. apply (Hdis t0); now left. }
    destruct (IH ts (polyak_pair c h (p0, t0)) Hnd Hdis') as [IH1 IH2].
    change (fold_left (polyak_pair c) (zip (p0 :: ps) (t0 :: ts)) h)
      with (fold_left (polyak_pair c) (zip ps ts) (polyak_pair c h (p0, t0))).
    split.
    + intros j Hj. rewrite IH1 by (intros Hin; apply Hj; now right).
      apply polyak_pair_other. intros ->. apply Hj. now left.
    + intros [| k] p pt Hp Hpt; simpl in Hp, Hpt.
      * inversion Hp; inversion Hpt; subst.
        rewrite IH1 by exact Ht0. now apply polyak_pair_target.
      * rewrite (IH2 k p pt Hp Hpt).
        assert (Hpt_in : pt ∈ ts) by (eapply list_elem_of_lookup_2; eassumption).
        assert (Hp_in : p ∈ ps) by (eapply list_elem_of_lookup_2; eassumption).
        rewrite polyak_pair_other by (intros ->; contradiction).
        unfold param_at at 1.
        rewrite polyak_pair_other
          by (intros ->; apply (Hdis t0); [now right | now left]).
        reflexivity.
Qed.

(** ** Construction *)

Lemma alloc_lookup (ps : list Param) (h : gmap nat Param) (next j : nat) :
  alloc h next ps !! j
  = if decide (next <= j < next + length ps) then ps !! (j - next) else h !! j.
Proof.
  revert h next. induction ps as [| p ps IH]; intros h next; simpl.
  - destruct (decide _) as [H | _]; [lia | reflexivity].
  - rewrite IH. destruct (decide (S next <= j < S next + length ps)) as [H | H].
    + destruct (decide _) as [_ | H']; [| lia].
      replace (j - next) with (S (j - S next)) by lia. reflexivity.
    + destruct (decide (next <= j < next + S (length ps))) as [H' | H'].
      * assert (j = next) as -> by lia.
        rewrite lookup_insert_eq. now rewrite Nat.sub_diag.
      * rewrite lookup_insert_ne by lia. reflexivity.
Qed.

Lemma parameters_layout (next a b c d : nat) :
  parameters (layout next a b c d) = seq next (a + b + c + d).
Proof.
  unfold parameters, layout. simpl.
  rewrite !seq_app. rewrite <- !app_assoc.
  rewrite !Nat.add_assoc. reflexivity.
Qed.

Lemma alter_all_in (f : nat -> Param -> Param) (ids : list nat)
    (h : gmap nat Param) (j : nat) :
  NoDup ids -> j ∈ ids -> alter_all f ids h !! j = f j <$> h !! j.
Proof.
  unfold alter_all. revert h. induction ids as [| i ids IH]; intros h Hnd Hj.
  - inversion Hj.
  - apply NoDup_cons in Hnd as [Hi Hnd]. simpl.
    destruct (decide (j = i)) as [-> | Hne].
    + fold (alter_all f ids (alter (f i) i h)).
      rewrite alter_all_notin by (rewrite <- list_elem_of_In; exact Hi).
      apply lookup_alter_eq.
    + apply elem_of_cons in Hj as [? | Hj]; [congruence |].
      rewrite IH by assumption. now rewrite lookup_alter_ne by congruence.
Qed.

Lemma Adam_nonempty (params : list nat) (lr_ : Q) :
  (0 <= lr_)%Q -> params <> nil -> Adam params lr_ = Ok (params, nil).
Proof.
  intros Hlr Hp. unfold Adam. apply Qle_bool_iff in Hlr. rewrite Hlr.
  destruct params; [congruence | reflexivity].
Qed.

Lemma Adam_negative (params : list nat) (lr_ : Q) :
  Qle_bool 0 lr_ = false -> Adam params lr_ = Raise ValueError.
Proof. intros H. unfold Adam. now rewrite H. Qed.

Lemma model_data_length (m : ModelData) : length (model_data m) = model_size m.
Proof. unfold model_data, model_size. rewrite !length_app. lia. Qed.

Lemma init_heap_online (cfg : Config) (m : ModelData) (j : nat) :
  j < model_size m ->
  init_heap cfg m !! j = (fun d => mkParam d true None) <$> model_data m !! j.
Proof.
  intros Hj. unfold init_heap. set (n := model_size m).
  assert (H2 : set_requires_grad false
                 (fst (deepcopy (fst (create_or_load_model m)) n
                         (snd (create_or_load_model m)))) (seq n n) !! j
               = (fun d => mkParam d true None) <$> model_data m !! j).
  { unfold set_requires_grad.
    rewrite alter_all_notin by (rewrite in_seq; lia).
    unfold deepcopy, create_or_load_model. simpl.
    rewrite alloc_lookup. destruct (decide _) as [H | _]; [lia |].
    rewrite alloc_lookup. rewrite length_map.
    fold (model_data m). rewrite model_data_length.
    destruct (decide _) as [_ | H]; [| unfold n in *; lia].
    rewrite Nat.sub_0_r.
    change (map ?f ?l) with (f <$> l). now rewrite list_lookup_fmap. }
  destruct (use_alpha_annealing cfg); [| exact H2].
  rewrite lookup_insert_ne by lia. exact H2.
Qed.

Lemma init_heap_target (cfg : Config) (m : ModelData) (j : nat) :
  j < model_size m ->
  init_heap cfg m !! (model_size m + j)
  = (fun d => mkParam d false None) <$> model_data m !! j.
Proof.
  intros Hj. unfold init_heap. set (n := model_size m).
  assert (H2 : set_requires_grad false
                 (fst (deepcopy (fst (create_or_load_model m)) n
                         (snd (create_or_load_model m)))) (seq n n) !! (n + j)
               = (fun d => mkParam d false None) <$> model_data m !! j).
  { unfold set_requires_grad.
    rewrite alter_all_in by (try apply NoDup_seq; apply elem_of_seq; lia).
    unfold deepcopy, create_or_load_model. simpl.
    rewrite alloc_lookup. rewrite length_map.
    rewrite parameters_layout. rewrite length_seq.
    fold (model_size m). fold n.
    destruct (decide _) as [_ | H]; [| lia].
    replace (n + j - n) with j by lia.
    change (map ?f ?l) with (f <$> l). rewrite list_lookup_fmap.
    rewrite lookup_seq_lt by exact Hj. simpl.
    unfold param_at. rewrite alloc_lookup. rewrite length_fmap.
    fold (model_data m). rewrite model_data_length. fold n.
    destruct (decide _) as [_ | H]; [| lia].
    rewrite Nat.sub_0_r, list_lookup_fmap.
    destruct (model_data m !! j) as [d |] eqn:E; simpl; [reflexivity |].
    apply lookup_ge_None in E. rewrite model_data_length in E.
    unfold n in *. lia. }
  destruct (use_alpha_annealing cfg); [| exact H2].
  rewrite lookup_insert_ne by lia. exact H2.
Qed.

Lemma init_learner_eq (W : World) (cfg : Config) (m : ModelData) :
  (0 <= lr cfg)%Q ->
  0 < length (m_pi m) + length (m_memory m) ->
  0 < length (m_q1 m) + length (m_q2 m) ->
  init_learner W cfg m
  = Ok (mkLearner (init_heap cfg m) (init_ac m) (init_ac_targ m) nil nil
          (ac_pi (init_ac m) ++ ac_memory (init_ac m))
          (ac_q1 (init_ac m) ++ ac_q2 (init_ac m))
          (if use_alpha_annealing cfg then (model_size m + model_size m) :: nil
           else nil)
          (model_size m + model_size m)
          (if use_alpha_annealing cfg then exp_ W 0%Q else 0.2%Q) 0).
Proof.
  intros Hlr Hpi Hq. unfold init_learner, init_heap.
  unfold create_or_load_model, deepcopy. cbv zeta. cbn [fst snd].
  fold (init_ac m).
  rewrite (Adam_nonempty (_ :: nil) (lr cfg) Hlr) by discriminate.
  assert (Hl : layout (model_size m) (length (ac_pi (init_ac m)))
                 (length (ac_q1 (init_ac m))) (length (ac_q2 (init_ac m)))
                 (length (ac_memory (init_ac m))) = init_ac_targ m).
  { unfold init_ac, init_ac_targ. simpl. now rewrite !length_seq. }
  rewrite Hl.
  assert (Hp : parameters (init_ac_targ m) = seq (model_size m) (model_size m)).
  { unfold init_ac_targ. rewrite parameters_layout. reflexivity. }
  rewrite Hp.
  rewrite (Adam_nonempty (ac_pi (init_ac m) ++ ac_memory (init_ac m))
             (lr cfg) Hlr).
  2:{ intros H. apply (f_equal (@length nat)) in H.
      rewrite length_app in H. unfold init_ac in H. simpl in H.
      rewrite !length_seq in H. lia. }
  rewrite (Adam_nonempty (ac_q1 (init_ac m) ++ ac_q2 (init_ac m))
             (lr cfg) Hlr).
  2:{ intros H. apply (f_equal (@length nat)) in H.
      rewrite length_app in H. unfold init_ac in H. simpl in H.
      rewrite !length_seq in H. lia. }
  destruct (use_alpha_annealing cfg); reflexivity.
Qed.

(** [__init__] gets through the optimizers only with a learning rate that
    is not negative and with a parameter for each of the two. *)
Lemma init_learner_ok (W : World) (cfg : Config) (m : ModelData) (l : Learner) :
  init_learner W cfg m = Ok l ->
  (0 <= lr cfg)%Q /\
  0 < length (m_pi m) + length (m_memory m) /\
  0 < length (m_q1 m) + length (m_q2 m).
Proof.
  intros H.
  unfold init_learner, create_or_load_model, deepcopy in H.
  cbv zeta in H. cbn [fst snd] in H.
  destruct (Qle_bool 0 (lr cfg)) eqn:Elr.
  - split; [now apply Qle_bool_iff |].
    unfold Adam in H. rewrite Elr in H.
    destruct (use_alpha_annealing cfg);
      (destruct (m_pi m), (m_memory m); simpl in H; try discriminate;
       destruct (m_q1 m), (m_q2 m); simpl in H; try discriminate;
       simpl; split; lia).
  - rewrite !(Adam_negative _ _ Elr) in H.
    destruct (use_alpha_annealing cfg); simpl in H; discriminate.
Qed.

Lemma init_parameters (m : ModelData) :
  parameters (init_ac m) = seq 0 (model_size m) /\
  parameters (init_ac_targ m) = seq (model_size m) (model_size m).
Proof.
  unfold init_ac, init_ac_targ. rewrite !parameters_layout. split; reflexivity.
Qed.

Lemma init_static_ok (W : World) (cfg : Config) (m : ModelData) (l : Learner) :
  init_learner W cfg m = Ok l -> static_ok l.
Proof.
  intros H.
  destruct (init_learner_ok W cfg m l H) as (Hlr & Hpi & Hq).
  rewrite (init_learner_eq W cfg m Hlr Hpi Hq) in H. inversion H; subst l; clear H.
  destruct (init_parameters m) as [Po Pt].
  unfold static_ok. simpl. rewrite Po, Pt.
  split; [| split; [| split; [| split; [| split]]]].
  - rewrite <- seq_app. apply NoDup_seq.
  - now rewrite !length_seq.
  - rewrite elem_of_seq. lia.
  - intros i Hi. rewrite <- Po.
    unfold parameters. rewrite !elem_of_app in *. tauto.
  - intros i Hi. destruct (use_alpha_annealing cfg).
    + now apply list_elem_of_singleton in Hi.
    + inversion Hi.
  - reflexivity.
Qed.

(** ** Hoare triples for the state-and-exception monad *)

Lemma hoare_ret {S A} (P : S -> Prop) (a : A) (Q : A -> S -> Prop) E :
  (forall s, P s -> Q a s) -> hoare P (ret a) Q E.
Proof. intros H s Hs. apply H, Hs. Qed.

Lemma hoare_get {S} (P : S -> Prop) (Q : S -> S -> Prop) E :
  (forall s, P s -> Q s s) -> hoare P get Q E.
Proof. intros H s Hs. apply H, Hs. Qed.

Lemma hoare_modify {S} (P : S -> Prop) (f : S -> S) (Q : unit -> S -> Prop) E :
  (forall s, P s -> Q tt (f s)) -> hoare P (modify f) Q E.
Proof. intros H s Hs. apply H, Hs. Qed.

Lemma hoare_lift {S A} (P : S -> Prop) (r : Res A) (Q : A -> S -> Prop) E :
  (forall s, P s -> match r with Ok a => Q a s | Raise e => E e s end) ->
  hoare P (lift r) Q E.
Proof. intros H s Hs. specialize (H s Hs). unfold lift. destruct r; exact H. Qed.

Lemma hoare_bind {S A B} (P : S -> Prop) (m : M S A) (k : A -> M S B)
    (Q1 : A -> S -> Prop) (Q : B -> S -> Prop) E :
  hoare P m Q1 E -> (forall a, hoare (Q1 a) (k a) Q E) -> hoare P (bind m k) Q E.
Proof.
  intros Hm Hk s Hs. unfold bind. specialize (Hm s Hs).
  destruct (m s) as [[a | e] s1]; [apply Hk, Hm | exact Hm].
Qed.

Lemma hoare_conseq {S A} (P P' : S -> Prop) (m : M S A)
    (Q Q' : A -> S -> Prop) (E E' : Exn -> S -> Prop) :
  hoare P' m Q' E' -> (forall s, P s -> P' s) ->
  (forall a s, Q' a s -> Q a s) -> (forall e s, E' e s -> E e s) ->
  hoare P m Q E.
Proof.
  intros H HP HQ HE s Hs. specialize (H s (HP s Hs)).
  destruct (m s) as [[a | e] s1]; auto.
Qed.

Lemma hoare_for_each {S X A} (I : list X -> A -> S -> Prop) E
    (body : X -> A -> M S A) :
  (forall x xs a, hoare (I (x :: xs) a) (body x a) (I xs) E) ->
  forall xs a, hoare (I xs a) (for_each xs body a) (I nil) E.
Proof.
  intros Hb. induction xs as [| x xs IH]; intros a; simpl.
  - apply hoare_ret. auto.
  - eapply hoare_bind; [apply Hb | exact IH].
Qed.

(** ** One training step *)

Lemma stored_app (b1 b2 : list BufferCall) :
  stored (b1 ++ b2) = stored b1 ++ stored b2.
Proof.
  induction b1 as [| [t | | n |] b1 IH]; simpl; rewrite ?IH; reflexivity.
Qed.

Lemma train_step_char (W : World) (s : SAC) (c : Carry) (e : Rollout) :
  exists r s' c' e',
    train_step W s c e = (s', c', e') /\
    cfg s' = cfg s /\ learner s' = learner s /\ env s' = env s /\
    test_env s' = test_env s /\
    ghost s' = add_step r (ghost s) /\
    finish_path_calls (buffer s')
    = finish_path_calls (buffer s) + (if sr_finish_path r then 1 else 0) /\
    (forall x, reset_calls (env_log s') x = reset_calls (env_log s) x) /\
    stored (buffer s') = stored (buffer s) ++ sr_step r :: nil /\
    (c_h_out c', c_a2 c', c_r2 c') = after r /\
    ro_d e' = t_done (sr_step r) /\
    ro_ep_len e' = S (ro_ep_len e) /\
    sr_ep_len r = S (ro_ep_len e) /\
    before r = (c_h_out c, c_a2 c, c_r2 c) /\
    train_step_ok W (cfg s) (env s) r.
Proof.
  unfold train_step, train_action, get_action.
  destruct (start_steps (cfg s) <? global_steps s) eqn:Ewarm.
  - destruct (explore W (rng s) (online_theta s) (ro_o e) (c_a2 c) (c_r2 c)
                (c_h_out c)) as [a h] eqn:Eex.
    cbn [env cfg draw env_log].
    destruct (env_step W (env s) (history (env_log s) (env s)) a)
      as [[[o2 r] ter] trunc] eqn:Eenv.
    cbn [env cfg env_log draw call_env call_buffer].
    rewrite Nat.add_1_r.
    remember (if S (ro_ep_len e) =? max_ep_len (cfg s) then false else ter || trunc)
      as d eqn:Ed.
    remember (d || (S (ro_ep_len e) =? max_ep_len (cfg s))) as fin eqn:Efin.
    eexists. eexists. eexists. eexists. split; [reflexivity |].
    destruct fin; simpl;
      (repeat split; try reflexivity; try exact Ed; try exact Efin;
       [ unfold finish_path_calls; rewrite ?List.filter_app, ?length_app; simpl; lia
       | intros x; unfold reset_calls; rewrite ?List.filter_app, ?length_app; simpl; lia
       | rewrite ?stored_app; simpl; rewrite <- ?app_assoc; reflexivity
       | unfold hidden_rule; simpl; rewrite Ewarm; exact Eex ]).
  - cbn [env cfg call_env env_log].
    set (a := env_sample W (env s) (history (env_log s) (env s))).
    destruct (env_step W (env s)
                (history (env_log s ++ (env s, ESample) :: nil) (env s)) a)
      as [[[o2 r] ter] trunc] eqn:Eenv.
    cbn [env cfg env_log draw call_env call_buffer].
    rewrite Nat.add_1_r.
    remember (if S (ro_ep_len e) =? max_ep_len (cfg s) then false else ter || trunc)
      as d eqn:Ed.
    remember (d || (S (ro_ep_len e) =? max_ep_len (cfg s))) as fin eqn:Efin.
    eexists. eexists. eexists. eexists. split; [reflexivity |].
    destruct fin; simpl;
      (repeat split; try reflexivity; try exact Ed; try exact Efin;
       [ unfold finish_path_calls; rewrite ?List.filter_app, ?length_app; simpl; lia
       | intros x; unfold reset_calls; rewrite ?List.filter_app, ?length_app; simpl; lia
       | rewrite ?stored_app; simpl; rewrite <- ?app_assoc; reflexivity
       | unfold hidden_rule; simpl; rewrite Ewarm; reflexivity ]).
Qed.

(** ** One training trajectory *)

Lemma train_while_trace (W : World) (fuel : nat) :
  forall (s : SAC) (c : Carry) (e : Rollout) (t : Trajectory)
         (g : list Trajectory),
    ghost s = t :: g ->
    running_ok W (cfg s) (env s) t c e ->
    max_ep_len (cfg s) - ro_ep_len e <= fuel ->
    exists c' e' s' t',
      train_while W fuel c e s = (Ok (c', e'), s') /\
      ghost s' = t' :: g /\ same_header t t' /\
      running_ok W (cfg s) (env s) t' c' e' /\
      ro_d e' || (ro_ep_len e' =? max_ep_len (cfg s)) = true /\
      cfg s' = cfg s /\ learner s' = learner s /\ env s' = env s /\
      test_env s' = test_env s /\
      finish_path_calls (buffer s') + finishing_steps t
      = finish_path_calls (buffer s) + finishing_steps t' /\
      (forall x, reset_calls (env_log s') x = reset_calls (env_log s) x) /\
      (forall sb, stored (buffer s) = sb ++ traj_transitions t ->
                  stored (buffer s') = sb ++ traj_transitions t').
Proof.
  induction fuel as [| fuel IH]; intros s c e t g Hg Hrun Hfuel.
  - simpl.
    destruct (ro_d e || (ro_ep_len e =? max_ep_len (cfg s))) eqn:Ex; simpl.
    + exists c, e, s, t. repeat split; auto; try apply Hrun.
    + apply orb_false_iff in Ex as [_ Ex]. apply Nat.eqb_neq in Ex.
      destruct Hrun as (_ & _ & _ & _ & _ & _ & _ & Hle & _). lia.
  - simpl.
    destruct (ro_d e || (ro_ep_len e =? max_ep_len (cfg s))) eqn:Ex; simpl.
    + exists c, e, s, t. repeat split; auto; try apply Hrun.
    + destruct (train_step_char W s c e)
        as (r & s1 & c1 & e1 & Est & Hcfg & Hl & Henv & Hte & Hgh & Hfin & Hres
            & Hsto & Hc1 & Hd1 & Hlen1 & Hrlen & Hbef & Hok).
      rewrite Est.
      destruct Hrun as (Hloop & Htenv & Hall & Hlink & Htl & Hcarry & Hlen & Hle & Hd).
      apply orb_false_iff in Ex as [Exd Exl]. apply Nat.eqb_neq in Exl.
      set (t1 := mkTrajectory (tj_loop t) (tj_index t) (tj_env t) (tj_h t)
                   (tj_a2 t) (tj_r2 t) (r :: tj_steps t)).
      assert (Hg1 : ghost s1 = t1 :: g).
      { rewrite Hgh, Hg. reflexivity. }
      assert (Hrun1 : running_ok W (cfg s1) (env s1) t1 c1 e1).
      { rewrite Hcfg, Henv. unfold running_ok. simpl.
        split; [exact Hloop |]. split; [exact Htenv |].
        split; [constructor; assumption |].
        split.
        { split; [| split; [congruence | exact Hlink]].
          rewrite Hbef, Hcarry. unfold traj_end.
          destruct (tj_steps t); reflexivity. }
        split.
        { destruct (tj_steps t) as [| r0 earlier] eqn:Est0; constructor.
          - apply Forall_inv in Hall. destruct Hall as (_ & _ & Hf & _).
            rewrite Hf. simpl in Hlen. destruct Hlink as (_ & Hl0 & _).
            rewrite <- Hd, Exd. simpl. apply Nat.eqb_neq. congruence.
          - exact Htl. }
        split; [exact Hc1 |].
        split; [lia |]. split; [lia | exact Hd1]. }
      destruct (IH s1 c1 e1 t1 g Hg1 Hrun1) as
        (c' & e' & s' & t' & Ew & Hg' & Hh' & Hrun' & Hex' & Hcfg' & Hl' & Henv'
         & Hte' & Hfin' & Hres' & Hsto').
      { rewrite Hcfg, Hlen1. lia. }
      exists c', e', s', t'. rewrite Hcfg, Henv in *.
      split; [exact Ew |]. split; [exact Hg' |].
      split; [exact Hh' |]. split; [exact Hrun' |]. split; [exact Hex' |].
      split; [congruence |]. split; [congruence |]. split; [congruence |].
      split; [congruence |].
      split.
      { unfold finishing_steps in *. simpl in Hfin'.
        destruct (sr_finish_path r); simpl in *; lia. }
      split; [intros x; rewrite Hres'; apply Hres |].
      intros sb Hsb. apply Hsto'. rewrite Hsto, Hsb.
      unfold traj_transitions, t1. simpl. now rewrite app_assoc.
Qed.

(** ** Exceptions are Python's *)

Lemma terminates_ok {A} (a : A) : terminates (Ok a).
Proof. discriminate. Qed.

Lemma terminates_cast {A B} (e : Exn) :
  terminates (@Raise A e) -> terminates (@Raise B e).
Proof. intros H E. apply H. inversion E. reflexivity. Qed.

Lemma terminates_bind {A B} (m : Res A) (k : A -> Res B) :
  terminates m -> (forall a, terminates (k a)) -> terminates (rbind m k).
Proof.
  intros Hm Hk. destruct m as [a | e]; simpl; [apply Hk |].
  intros H. apply Hm. inversion H. reflexivity.
Qed.

Lemma broadcast2_terminates (f : Q -> Q -> Q) (a b : Tensor) :
  terminates (broadcast2 f a b).
Proof.
  unfold broadcast2. destruct (bdim _ _); [destruct (bdim _ _) |]; discriminate.
Qed.

Lemma view_hidden_terminates (n : nat) (t : Tensor) : terminates (view_hidden n t).
Proof. unfold view_hidden. destruct (_ =? _); discriminate. Qed.

Lemma gather1_terminates (t idx : Tensor) : terminates (gather1 t idx).
Proof. unfold gather1. destruct (_ && _); discriminate. Qed.

Lemma mse_terminates (q b : Tensor) : terminates (mse q b).
Proof.
  unfold mse. apply terminates_bind; [apply broadcast2_terminates |].
  intros; apply terminates_ok.
Qed.

Lemma critic_backup_terminates (W : World) (cfg : Config) (l : Learner)
    (batch : Batch) (rew h_out : Tensor) :
  terminates (critic_backup W cfg l batch rew h_out).
Proof.
  unfold critic_backup. apply terminates_bind.
  - unfold critic_next_q.
    destruct (fwd_memory _ _ _ _ _ _) as [emb hid].
    destruct (fwd_pi_sample _ _ _) as [[smp a2] logp].
    repeat (apply terminates_bind; [apply broadcast2_terminates | intros]).
    apply terminates_ok.
  - intros nq. destruct (shape_eqb _ _); [| discriminate].
    apply terminates_bind; [apply broadcast2_terminates | intros].
    apply broadcast2_terminates.
Qed.

Lemma compute_critic_loss_terminates (W : World) (cfg : Config) (l : Learner)
    (batch : Batch) : terminates (compute_critic_loss W cfg l batch).
Proof.
  unfold compute_critic_loss.
  apply terminates_bind; [apply view_hidden_terminates | intros].
  apply terminates_bind; [apply gather1_terminates | intros].
  apply terminates_bind; [apply gather1_terminates | intros].
  apply terminates_bind; [apply critic_backup_terminates | intros].
  apply terminates_bind; [apply mse_terminates | intros].
  apply terminates_bind; [apply mse_terminates | intros].
  apply terminates_ok.
Qed.

Lemma compute_policy_loss_terminates (W : World) (cfg : Config) (l : Learner)
    (batch : Batch) : terminates (compute_policy_loss W cfg l batch).
Proof.
  unfold compute_policy_loss.
  apply terminates_bind; [apply view_hidden_terminates | intros].
  destruct (fwd_memory _ _ _ _ _ _) as [emb hid].
  destruct (fwd_pi_sample _ _ _) as [[smp a2] logp].
  repeat (apply terminates_bind; [apply broadcast2_terminates | intros]).
  apply terminates_ok.
Qed.

Lemma update_episode_terminates (W : World) (cfg : Config) (ep : Batch)
    (al : option Q) (l : Learner) :
  terminates (fst (update_episode W cfg ep al l)).
Proof.
  unfold update_episode. unfold bind at 1. rewrite critic_step_eq.
  pose proof (compute_critic_loss_terminates W cfg l ep) as Hc.
  destruct (compute_critic_loss W cfg l ep) as [[loss info] | e];
    [| simpl; eapply terminates_cast; exact Hc].
  cbv beta iota. unfold bind at 1. unfold modify at 1.
  unfold bind at 1. rewrite policy_step_eq. cbv zeta.
  match goal with
  | |- context [compute_policy_loss W cfg ?l1 ep] =>
      pose proof (compute_policy_loss_terminates W cfg l1 ep) as Hp;
      destruct (compute_policy_loss W cfg l1 ep) as [[lp logp] | e]
  end; [| simpl; eapply terminates_cast; exact Hp].
  cbv beta iota. unfold bind at 1. unfold modify at 1. unfold bind at 1.
  unfold alpha_step.
  destruct (use_alpha_annealing cfg); unfold bind, get, modify, ret; simpl;
    discriminate.
Qed.

Lemma episodes_terminate (W : World) (cfg : Config) (batch : list Batch) :
  forall (al : option Q) (l : Learner),
    terminates (fst (for_each batch (update_episode W cfg) al l)).
Proof.
  induction batch as [| ep batch IH]; intros al l; simpl.
  - discriminate.
  - unfold bind. pose proof (update_episode_terminates W cfg ep al l) as H.
    destruct (update_episode W cfg ep al l) as [[a | e] l1]; simpl in *;
      [apply IH | eapply terminates_cast; exact H].
Qed.

Lemma update_on_terminates (W : World) (cfg : Config) (batch : list Batch)
    (l : Learner) : terminates (fst (update_on W cfg batch l)).
Proof.
  unfold update_on. unfold bind at 1.
  pose proof (episodes_terminate W cfg batch None l) as H.
  destruct (for_each batch (update_episode W cfg) None l) as [[al | e] l1];
    simpl in *; [| eapply terminates_cast; exact H].
  destruct al; unfold bind, raise, ret, modify; simpl; discriminate.
Qed.

(** ** What [update] leaves alone *)

Lemma update_frame (W : World) (s : SAC) :
  let s' := snd (update W s) in
  terminates (fst (update W s)) /\
  cfg s' = cfg s /\ env s' = env s /\ test_env s' = test_env s /\
  ghost s' = ghost s /\ env_log s' = env_log s /\
  finish_path_calls (buffer s') = finish_path_calls (buffer s) /\
  stored (buffer s') = stored (buffer s).
Proof.
  unfold update. cbn [cfg learner call_buffer].
  pose proof (update_on_terminates W (cfg s)
                (buffer_get W (buffer s) (batch_size (cfg s))) (learner s)) as H.
  destruct (update_on _ _ _ _) as [r l]. simpl in *.
  repeat split; try assumption.
  - unfold finish_path_calls. rewrite List.filter_app, length_app. simpl. lia.
  - rewrite stored_app. simpl. apply app_nil_r.
Qed.

Lemma log_trial_terminates (k : nat) (cfg : Config) (env_ : nat)
    (stats : String.string -> Q * Q) (epoch tr : nat) :
  terminates (_log_trial k cfg env_ stats epoch tr).
Proof.
  unfold _log_trial, py_mod.
  destruct (save_freq k cfg =? 0); simpl; discriminate.
Qed.

Lemma log_test_trial_terminates (k : nat) (cfg : Config) (env_ : nat)
    (stats : String.string -> Q * Q) (t : nat) :
  terminates (_log_test_trial k cfg env_ stats t).
Proof.
  unfold _log_test_trial, py_floordiv, py_mod.
  destruct (steps_per_epoch cfg =? 0); simpl; [discriminate |].
  destruct (save_freq k cfg =? 0); simpl; discriminate.
Qed.

(** The call of [_log_trial] after an [update] changes nothing of the
    state; the two together return only if [update] does. *)
Lemma update_then_log_char (W : World) (epoch tr : nat) (s : SAC) :
  exists r,
    update_then_log W epoch tr s = (r, snd (update W s)) /\
    terminates r /\
    (r = Ok tt -> fst (update W s) = Ok tt).
Proof.
  unfold update_then_log, bind, get, logging.
  destruct (update_frame W s) as (Ht & _).
  destruct (update W s) as [[[] | e] s1]; cbn [fst snd] in *.
  - pose proof (log_trial_terminates (save_every_n_update (cfg s1)) (cfg s1)
                  (env s1) (get_stats W) epoch tr) as Hl.
    destruct (_log_trial _ _ _ _ _ _) as [calls | e].
    + eexists. split; [reflexivity |]. split; [discriminate | reflexivity].
    + eexists. split; [reflexivity |].
      split; [eapply terminates_cast; exact Hl | discriminate].
  - eexists. split; [reflexivity |]. split; [exact Ht | discriminate].
Qed.

(** ** The training loop as a whole *)

Lemma running_exit_ok (W : World) (cfg : Config) (env_ : nat) (t : Trajectory)
    (c : Carry) (e : Rollout) :
  running_ok W cfg env_ t c e ->
  ro_d e || (ro_ep_len e =? max_ep_len cfg) = true ->
  training_trajectory_ok W cfg env_ t.
Proof.
  intros (Hloop & Henv & Hall & Hlink & Htl & Hcarry & Hlen & Hle & Hd) Hex.
  unfold training_trajectory_ok, finished_once.
  repeat (split; [assumption |]).
  destruct (tj_steps t) as [| r earlier] eqn:Est.
  - rewrite Hd, Hlen in Hex. rewrite orb_false_l in Hex.
    apply Nat.eqb_eq in Hex. simpl in Hex.
    split; [lia | reflexivity].
  - cbn [length tl] in *. split; [| lia]. intros _. split; [| exact Htl].
    apply Forall_inv in Hall. destruct Hall as (_ & _ & Hf & _).
    rewrite Hf. destruct Hlink as (_ & Hl0 & _).
    rewrite Hl0, <- Hd, <- Hlen. exact Hex.
Qed.

Lemma train_trajectory_trace (W : World) (cfg0 : Config) (env_ : nat)
    (g0 : list Trajectory) (b0 : list BufferCall) (rc0 : nat)
    (epoch tr : nat) (xs : list nat) (c : Carry) :
  hoare
    (fun s => exists new, trace_inv W cfg0 env_ g0 b0 rc0 s new /\
                          carry_linked (hidden_size cfg0) new c (tr :: xs))
    (train_trajectory W epoch tr c)
    (fun c' s => exists new, trace_inv W cfg0 env_ g0 b0 rc0 s new /\
                             carry_linked (hidden_size cfg0) new c' xs)
    (fun e s => terminates (@Raise unit e) /\
                exists new, trace_inv W cfg0 env_ g0 b0 rc0 s new).
Proof.
  intros s (new & (Hcfg & Henv & Hgh & Hall & Hch & Hfin & Hres & Hsto)
            & (Hcar & (Hk0 & Hk1) & Hnz)).
  unfold train_trajectory. unfold bind at 1. unfold get at 1.
  unfold bind at 1. unfold modify at 1.
  unfold bind at 1. unfold modify at 1. unfold bind at 1.
  set (t0 := mkTrajectory Training tr (env s) (c_h_out c) (c_a2 c) (c_r2 c) nil).
  set (s1 := mark_trajectory t0 (call_env (env s) EReset s)).
  set (e0 := mkRollout _ false 0%Q 0).
  assert (Hrun0 : running_ok W (cfg s1) (env s1) t0 c e0).
  { unfold running_ok. simpl. repeat split; auto; try constructor; lia. }
  destruct (train_while_trace W (max_ep_len (cfg s)) s1 c e0 t0 (new ++ g0))
    as (c' & e' & s2 & t' & Ew & Hg2 & (Hh1 & Hh2 & Hh3 & Hh4) & Hrun2 & Hex
        & Hcfg2 & Hl2 & Henv2 & Hte2 & Hfin2 & Hres2 & Hsto2).
  { simpl. now rewrite Hgh. }
  { exact Hrun0. }
  { simpl. lia. }
  rewrite Ew. cbn [cfg env s1 mark_trajectory call_env set_ghost] in *.
  unfold t0 in Hh1, Hh2, Hh3. simpl in Hh1, Hh2, Hh3.
  assert (Hinv2 : trace_inv W cfg0 env_ g0 b0 rc0 s2 (t' :: new)).
  { unfold trace_inv. rewrite Hcfg2, Henv2, Hg2.
    split; [exact Hcfg |]. split; [exact Henv |]. split; [reflexivity |].
    split.
    { constructor; [| exact Hall]. rewrite <- Hcfg, <- Henv.
      eapply running_exit_ok; eassumption. }
    split.
    { simpl. split; [| exact Hch].
      unfold traj_start in Hh4. simpl in Hh4. inversion Hh4 as [[Eh Ea Er]].
      destruct new as [| t1 older].
      - simpl. destruct (Nat.eq_dec tr 0) as [-> | Hne].
        + split; [congruence |]. unfold traj_start.
          rewrite Eh, Ea, Er. simpl in Hcar. inversion Hcar.
          rewrite (Hk0 eq_refl). reflexivity.
        + destruct (Hk1 Hne) as (? & ? & ? & _). discriminate.
      - simpl in Hcar. destruct (traj_end t1) as [[ph pa] pr] eqn:Eend.
        simpl in Hcar. inversion Hcar.
        split; [congruence |]. split; [congruence |].
        rewrite Hh1, Hh2. simpl.
        destruct tr as [| tr'].
        + rewrite Eh. now apply Hk0.
        + rewrite Eh. destruct (Hk1 (Nat.neq_succ_0 tr')) as (t2 & o2 & E2 & Hc2).
          inversion E2; subst t2 o2. rewrite Hc2, Eend. reflexivity. }
    split.
    { simpl. unfold finishing_steps in Hfin2 at 1. simpl in Hfin2.
      rewrite Nat.add_0_r in Hfin2. rewrite Hfin2.
      unfold finish_path_calls in *. simpl. rewrite Hfin. lia. }
    split.
    { rewrite Hres2. unfold reset_calls. simpl.
      rewrite List.filter_app, length_app. simpl.
      rewrite Henv, Nat.eqb_refl. simpl.
      unfold reset_calls in Hres. rewrite Hres. lia. }
    simpl. rewrite (Hsto2 (stored b0 ++ trace_transitions new)).
    - now rewrite app_assoc.
    - simpl. unfold traj_transitions. simpl. now rewrite app_nil_r. }
  assert (Hlink2 : carry_linked (hidden_size cfg0) (t' :: new) c' xs).
  { destruct Hrun2 as (_ & _ & _ & _ & _ & Hc' & _).
    unfold carry_linked. simpl. rewrite <- Hc'. simpl.
    split; [reflexivity |].
    simpl in Hnz. split.
    - destruct xs as [| k xs']; [exact I |].
      apply Forall_cons in Hnz as [Hk _].
      split; [intros; contradiction |]. intros _.
      exists t', new. split; [reflexivity | now rewrite <- Hc'].
    - destruct xs as [| k xs']; [constructor |].
      now apply Forall_cons in Hnz as [_ ?]. }
  unfold bind at 1. unfold lift at 1.
  destruct (update_due (update_every (cfg s)) tr) as [due | e] eqn:Edue.
  - unfold bind at 1.
    destruct due.
    + pose proof (update_frame W s2) as (_ & Hc3 & He3 & Hte3 & Hg3 & Hlog3 & Hf3 & Hs3).
      destruct (update_then_log_char W epoch tr s2) as (res & Eul & Ht & _).
      rewrite Eul. set (s3 := snd (update W s2)) in *.
      destruct res as [[] | e]; simpl in *.
      * unfold ret. simpl. exists (t' :: new). split; [| exact Hlink2].
        destruct Hinv2 as (A1 & A2 & A3 & A4 & A5 & A6 & A7 & A8).
        unfold trace_inv. rewrite Hc3, He3, Hg3, Hlog3, Hf3, Hs3.
        tauto.
      * split; [eapply terminates_cast; exact Ht |].
        exists (t' :: new).
        destruct Hinv2 as (A1 & A2 & A3 & A4 & A5 & A6 & A7 & A8).
        unfold trace_inv. rewrite Hc3, He3, Hg3, Hlog3, Hf3, Hs3.
        tauto.
    + unfold ret. simpl. exists (t' :: new). split; assumption.
  - split; [| exists (t' :: new); exact Hinv2].
    unfold update_due in Edue.
    destruct (update_every (cfg s) <=? tr + 1);
      [destruct (update_every (cfg s) =? 0) |]; inversion Edue.
    unfold terminates. discriminate.
Qed.

Lemma seq_tail_nonzero (n : nat) : Forall (fun k => k <> 0) (tl (seq 0 n)).
Proof.
  destruct n as [| n]; simpl; [constructor |].
  apply List.Forall_forall. intros k Hk. apply in_seq in Hk. lia.
Qed.

Lemma train_epoch_trace (W : World) (cfg0 : Config) (env_ : nat)
    (g0 : list Trajectory) (b0 : list BufferCall) (rc0 : nat)
    (epoch : nat) (c : Carry) :
  hoare
    (fun s => exists new, trace_inv W cfg0 env_ g0 b0 rc0 s new /\
                          (c_a2 c, c_r2 c) = last_carry new)
    (train_epoch W epoch c)
    (fun c' s => exists new, trace_inv W cfg0 env_ g0 b0 rc0 s new /\
                             (c_a2 c', c_r2 c') = last_carry new)
    (fun e s => terminates (@Raise unit e) /\
                exists new, trace_inv W cfg0 env_ g0 b0 rc0 s new).
Proof.
  intros s (new & Hinv & Hcar).
  unfold train_epoch. unfold bind at 1. unfold get at 1. unfold bind at 1.
  set (c0 := mkCarry _ _ _ _).
  pose proof (hoare_for_each
                (fun xs c s => exists new, trace_inv W cfg0 env_ g0 b0 rc0 s new /\
                                 carry_linked (hidden_size cfg0) new c xs)
                (fun e s => terminates (@Raise unit e) /\
                            exists new, trace_inv W cfg0 env_ g0 b0 rc0 s new)
                (train_trajectory W epoch)
                (fun x xs a =>
                   train_trajectory_trace W cfg0 env_ g0 b0 rc0 epoch x xs a)
                (seq 0 (number_of_trajectories (cfg s))) c0 s) as H.
  cbv beta in H.
  assert (Hpre : exists new0, trace_inv W cfg0 env_ g0 b0 rc0 s new0 /\
                   carry_linked (hidden_size cfg0) new0 c0
                     (seq 0 (number_of_trajectories (cfg s)))).
  { exists new. split; [exact Hinv |]. unfold carry_linked.
    split; [exact Hcar |]. split; [| apply seq_tail_nonzero].
    destruct (number_of_trajectories (cfg s)); simpl; [exact I |].
    split; [| congruence]. intros _.
    destruct Hinv as (-> & _). reflexivity. }
  specialize (H Hpre).
  destruct (for_each _ _ _ _) as [[c1 | e] s1]; [| exact H].
  destruct H as (new1 & (A1 & A2 & A3 & A4 & A5 & A6 & A7 & A8) & (Hc1 & _)).
  unfold bind, modify, ret. simpl.
  exists new1. split; [| exact Hc1].
  unfold trace_inv. simpl.
  repeat (split; [assumption |]).
  split.
  - unfold finish_path_calls in *. rewrite List.filter_app, length_app. simpl. lia.
  - split; [assumption |]. rewrite stored_app. simpl. now rewrite app_nil_r.
Qed.

(** The log, the buffer and the environment after [train_agent]. *)
Lemma train_agent_trace (W : World) (env_ : nat) (s : SAC) :
  terminates (fst (train_agent W env_ s)) /\
  exists new,
    trace_inv W (cfg s) env_ (ghost s) (buffer s)
      (reset_calls (env_log s) env_) (snd (train_agent W env_ s)) new.
Proof.
  destruct (train_agent W env_ s) as [res s'] eqn:Eres. cbn [fst snd].
  revert Eres. unfold train_agent. unfold bind at 1. unfold modify at 1.
  unfold bind at 1. unfold get at 1. unfold bind at 1.
  set (s1 := set_env env_ s).
  pose proof (hoare_for_each
                (fun (xs : list nat) c st =>
                   exists new,
                     trace_inv W (cfg s) env_ (ghost s) (buffer s)
                       (reset_calls (env_log s) env_) st new /\
                     (c_a2 c, c_r2 c) = last_carry new)
                (fun e st => terminates (@Raise unit e) /\
                   exists new,
                     trace_inv W (cfg s) env_ (ghost s) (buffer s)
                       (reset_calls (env_log s) env_) st new)
                (train_epoch W)
                (fun x xs a =>
                   train_epoch_trace W (cfg s) env_ (ghost s) (buffer s)
                     (reset_calls (env_log s) env_) x a)
                (seq 0 (epochs (cfg s1))) (mkCarry nil nil 0 0%Q) s1) as H.
  cbv beta in H.
  assert (Hpre : exists new,
             trace_inv W (cfg s) env_ (ghost s) (buffer s)
               (reset_calls (env_log s) env_) s1 new /\
             (0, 0%Q) = last_carry new).
  { exists nil. split; [| reflexivity]. unfold trace_inv. simpl.
    repeat split; try constructor; try lia. now rewrite app_nil_r. }
  specialize (H Hpre).
  destruct (for_each _ _ _ _) as [[c1 | e] s2].
  - unfold ret. simpl. intros Eres. inversion Eres; subst res s'.
    split; [discriminate |].
    destruct H as (new & Hinv & _). exists new. exact Hinv.
  - simpl. intros Eres. inversion Eres; subst res s'.
    destruct H as [Ht H]. split; [| exact H].
    eapply terminates_cast; exact Ht.
Qed.

(** ** The evaluation loop *)

Lemma test_step_char (W : World) (gr : Q) (s : SAC) (c : TestCarry)
    (e : TestRollout) :
  exists r s' c' e',
    test_step W gr s c e = (s', c', e') /\
    cfg s' = cfg s /\ learner s' = learner s /\ env s' = env s /\
    test_env s' = test_env s /\ buffer s' = buffer s /\
    ghost s' = add_step r (ghost s) /\
    env_log s' = env_log s ++ (env s, EStep (t_action (sr_step r))) :: nil /\
    (tc_h c', tc_a2 c', tc_r2 c') = after r /\
    tc_observations c' = tc_observations c /\
    tc_rewards c' = tc_rewards c /\
    tr_ep_len e' = S (tr_ep_len e) /\
    sr_ep_len r = S (tr_ep_len e) /\
    before r = (tc_h c, tc_a2 c, tc_r2 c) /\
    sr_env r = env s /\
    tr_observations e' = tr_observations e ++ t_next_obs (sr_step r) :: nil /\
    tr_rewards e' = tr_rewards e ++ t_reward (sr_step r) :: nil /\
    env_step W (env s) (history (env_log s) (env s)) (t_action (sr_step r))
    = (t_next_obs (sr_step r), t_reward (sr_step r), sr_terminated r,
       sr_truncated r).
Proof.
  unfold test_step, get_action.
  destruct (Qle_bool (np_random W (rng s)) gr).
  - destruct (act W (online_theta (draw s)) (tr_o e) (tc_a2 c) (tc_r2 c) (tc_h c))
      as [a h] eqn:Ea.
    cbn [env cfg env_log draw call_env].
    destruct (env_step W (env s) (history (env_log s) (env s)) a)
      as [[[o2 r] ter] trunc] eqn:Eenv.
    rewrite Nat.add_1_r.
    eexists. eexists. eexists. eexists. split; [reflexivity |].
    simpl. repeat split; try reflexivity. exact Eenv.
  - destruct (explore W (rng (draw s)) (online_theta (draw s)) (tr_o e) (tc_a2 c)
                (tc_r2 c) (tc_h c)) as [a h] eqn:Ea.
    cbn [env cfg env_log draw call_env].
    destruct (env_step W (env s) (history (env_log s) (env s)) a)
      as [[[o2 r] ter] trunc] eqn:Eenv.
    rewrite Nat.add_1_r.
    eexists. eexists. eexists. eexists. split; [reflexivity |].
    simpl. repeat split; try reflexivity. exact Eenv.
Qed.

Lemma test_while_trace (W : World) (gr : Q) (fuel : nat) :
  forall (s : SAC) (c : TestCarry) (e : TestRollout) (t : Trajectory)
         (g : list Trajectory),
    ghost s = t :: g ->
    eval_running (cfg s) (env s) t c e ->
    max_ep_len (cfg s) - tr_ep_len e <= fuel ->
    exists c' e' s' t' added,
      test_while W gr fuel c e s = (Ok (c', e'), s') /\
      ghost s' = t' :: g /\ same_header t t' /\
      eval_running (cfg s) (env s) t' c' e' /\
      cfg s' = cfg s /\ learner s' = learner s /\ env s' = env s /\
      test_env s' = test_env s /\ buffer s' = buffer s /\
      tc_observations c' = tc_observations c /\
      tc_rewards c' = tc_rewards c /\
      env_log s' = env_log s ++ added /\
      Forall (fun x => fst x = env s /\ snd x <> EReset) added.
Proof.
  induction fuel as [| fuel IH]; intros s c e t g Hg Hrun Hfuel.
  - simpl.
    destruct (tr_d e || (tr_ep_len e =? max_ep_len (cfg s))) eqn:Ex; simpl.
    + exists c, e, s, t, nil. rewrite app_nil_r.
      repeat split; auto; try apply Hrun.
    + apply orb_false_iff in Ex as [_ Ex]. apply Nat.eqb_neq in Ex.
      destruct Hrun as (_ & _ & _ & _ & Hle & _). lia.
  - simpl.
    destruct (tr_d e || (tr_ep_len e =? max_ep_len (cfg s))) eqn:Ex; simpl.
    + exists c, e, s, t, nil. rewrite app_nil_r.
      repeat split; auto; try apply Hrun.
    + destruct (test_step_char W gr s c e)
        as (r & s1 & c1 & e1 & Est & Hcfg & Hl & Henv & Hte & Hbuf & Hgh & Hlog
            & Hc1 & Hob1 & Hrw1 & Hlen1 & Hrlen & Hbef & Hrenv & Hobs & Hrew & _).
      rewrite Est.
      destruct Hrun as (Hall & Hlink & Hcarry & Hlen & Hle & Ho & Hr).
      apply orb_false_iff in Ex as [Exd Exl]. apply Nat.eqb_neq in Exl.
      set (t1 := mkTrajectory (tj_loop t) (tj_index t) (tj_env t) (tj_h t)
                   (tj_a2 t) (tj_r2 t) (r :: tj_steps t)).
      assert (Hg1 : ghost s1 = t1 :: g).
      { rewrite Hgh, Hg. reflexivity. }
      assert (Hrun1 : eval_running (cfg s1) (env s1) t1 c1 e1).
      { rewrite Hcfg, Henv. unfold eval_running. simpl.
        split; [constructor; assumption |].
        split.
        { split; [| split; [congruence | exact Hlink]].
          rewrite Hbef, Hcarry. unfold traj_end.
          destruct (tj_steps t); reflexivity. }
        split; [exact Hc1 |].
        split; [lia |]. split; [lia |].
        unfold traj_observations, traj_rewards in *. simpl.
        rewrite Hobs, Hrew, Ho, Hr. split; reflexivity. }
      destruct (IH s1 c1 e1 t1 g Hg1 Hrun1) as
        (c' & e' & s' & t' & added & Ew & Hg' & Hh' & Hrun' & Hcfg' & Hl' & Henv'
         & Hte' & Hbuf' & Hob' & Hrw' & Hlog' & Hadd').
      { rewrite Hcfg, Hlen1. lia. }
      exists c', e', s', t', ((env s, EStep (t_action (sr_step r))) :: added).
      rewrite Hcfg, Henv in *.
      split; [exact Ew |]. split; [exact Hg' |].
      split; [exact Hh' |]. split; [exact Hrun' |].
      repeat (split; [congruence |]).
      split.
      { rewrite Hlog', Hlog, <- app_assoc. reflexivity. }
      constructor; [split; [reflexivity | discriminate] | exact Hadd'].
Qed.

Lemma random_steps_char (W : World) (n : nat) :
  forall s, exists added,
    let s' := random_steps W n s in
    cfg s' = cfg s /\ learner s' = learner s /\ env s' = env s /\
    test_env s' = test_env s /\ buffer s' = buffer s /\ ghost s' = ghost s /\
    env_log s' = env_log s ++ added /\
    Forall (fun x => fst x = env s /\ snd x <> EReset) added.
Proof.
  induction n as [| n IH]; intros s; simpl.
  - exists nil. rewrite app_nil_r. repeat split; auto.
  - destruct (env_step W _ _ _) as [[[o2 r] ter] trunc].
    cbn [env call_env].
    set (s1 := call_env (env s) (EStep _) (call_env (env s) ESample s)).
    destruct (IH s1) as (added & H1 & H2 & H3 & H4 & H5 & H6 & H7 & H8).
    eexists ((env s, ESample) :: (env s, EStep _) :: added).
    cbv zeta in *. rewrite H1, H2, H3, H4, H5, H6, H7.
    repeat split; try reflexivity.
    + unfold s1. simpl. rewrite <- !app_assoc. reflexivity.
    + constructor; [split; [reflexivity | discriminate] |].
      constructor; [split; [reflexivity | discriminate] |].
      exact H8.
Qed.

Lemma eval_call_weaken (env_ test_env_ : nat) (added : list (nat * EnvCall)) :
  Forall (fun x => fst x = env_ /\ snd x <> EReset) added ->
  Forall (eval_call env_ test_env_) added.
Proof.
  intros H. eapply Forall_impl; [exact H |].
  intros [h c] [H1 H2]. unfold eval_call. simpl in *.
  destruct c; [congruence | exact H1 | exact H1].
Qed.

Lemma test_trajectory_trace (W : World) (cfg0 : Config) (env_ test_env_ : nat)
    (g0 : list Trajectory) (log0 : list (nat * EnvCall))
    (b0 : list BufferCall) (l0 : Learner) (ri : nat) (gr : Q)
    (ep : nat) (xs : list nat) (c : TestCarry) :
  hoare
    (fun s => exists new,
       eval_inv cfg0 env_ test_env_ g0 log0 b0 l0 s new c /\
       (new = nil -> ep = 0))
    (test_trajectory W ri gr ep c)
    (fun c' s => exists new,
       eval_inv cfg0 env_ test_env_ g0 log0 b0 l0 s new c' /\
       (new = nil -> hd 0 xs = 0))
    (fun _ _ => False).
Proof.
  intros s (new & (Hcfg & Henv & Hte & Hbuf & Hl & Hgh & Hall & Hch
                   & (added & Hlog & Hadd) & Hobs & Hrew & Hcar) & Hep).
  unfold test_trajectory. unfold bind at 1. unfold get at 1.
  rewrite Hte. change (default 0 (Some test_env_)) with test_env_.
  unfold bind at 1. unfold modify at 1.
  unfold bind at 1. unfold modify at 1.
  unfold bind at 1. unfold modify at 1.
  set (t0 := mkTrajectory Evaluation ep test_env_ (tc_h c) (tc_a2 c) (tc_r2 c) nil).
  set (s1 := mark_trajectory t0 (call_env test_env_ EReset s)).
  destruct (random_steps_char W ri s1)
    as (added1 & R1 & R2 & R3 & R4 & R5 & R6 & R7 & R8).
  cbv zeta in R1, R2, R3, R4, R5, R6, R7.
  set (s2 := random_steps W ri s1) in *.
  set (e0 := mkTestRollout _ false 0 0%Q nil nil).
  assert (Hrun0 : eval_running (cfg s2) (env s2) t0 c e0).
  { unfold eval_running. simpl. repeat split; auto; try constructor; lia. }
  unfold bind at 1.
  destruct (test_while_trace W gr (max_ep_len (cfg s)) s2 c e0 t0 (new ++ g0))
    as (c' & e' & s3 & t' & added2 & Ew & Hg3 & (Hh1 & Hh2 & Hh3 & Hh4) & Hrun3
        & Hcfg3 & Hl3 & Henv3 & Hte3 & Hbuf3 & Hob3 & Hrw3 & Hlog3 & Hadd3).
  { rewrite R6. simpl. now rewrite Hgh. }
  { exact Hrun0. }
  { rewrite R1. simpl. lia. }
  rewrite Ew. unfold ret.
  unfold t0 in Hh1, Hh2, Hh3. simpl in Hh1, Hh2, Hh3.
  destruct Hrun3 as (Hall3 & Hlink3 & Hc3 & _ & _ & Ho3 & Hr3).
  exists (t' :: new). split; [| discriminate].
  unfold eval_inv. cbn [tc_h tc_a2 tc_r2 tc_observations tc_rewards].
  rewrite Hcfg3, Henv3, Hte3, Hbuf3, Hl3, Hg3, R1, R2, R3, R4, R5.
  simpl.
  split; [exact Hcfg |]. split; [exact Henv |]. split; [exact Hte |].
  split; [exact Hbuf |]. split; [exact Hl |]. split; [reflexivity |].
  split.
  { constructor; [| exact Hall]. unfold evaluation_trajectory_ok.
    rewrite R3 in Hall3. simpl in Hall3. rewrite Henv in Hall3.
    repeat split; assumption. }
  split.
  { split; [| exact Hch].
    unfold traj_start in Hh4. simpl in Hh4. inversion Hh4 as [[Eh Ea Er]].
    destruct new as [| t1 older].
    - simpl. split; [rewrite Hh2; now apply Hep |].
      unfold traj_start. rewrite Eh, Ea, Er. exact Hcar.
    - destruct (traj_end t1) as [[ph pa] pr] eqn:Eend.
      inversion Hcar.
      split; [congruence |]. split; [congruence |].
      rewrite Hh1. congruence. }
  split.
  { exists (added ++ (test_env_, EReset) :: added1 ++ added2).
    split.
    - rewrite Hlog3, R7. simpl. rewrite Hlog.
      rewrite <- !app_assoc. reflexivity.
    - apply Forall_app. split; [exact Hadd |].
      constructor; [reflexivity |].
      apply Forall_app. split; apply eval_call_weaken.
      + rewrite <- Henv. exact R8.
      + rewrite <- Henv. rewrite R3 in Hadd3. exact Hadd3. }
  split.
  { rewrite Hob3, Hobs, Ho3. now rewrite map_app. }
  split.
  { rewrite Hrw3, Hrew, Hr3. now rewrite map_app. }
  exact Hc3.
Qed.

(** The log, the environments and the returned traces after [test_agent]. *)
Lemma test_agent_trace (W : World) (test_env_ n ri : nat) (gr : Q) (s : SAC) :
  exists new added,
    fst (test_agent W test_env_ n ri gr s)
    = match _log_test_trial (save_every_n_update (cfg s)) (cfg s) (env s)
              (get_stats W)
              (global_test_steps (snd (test_agent W test_env_ n ri gr s))) with
      | Ok _ => Ok (map traj_observations (rev new), map traj_rewards (rev new))
      | Raise e => Raise e
      end /\
    let s' := snd (test_agent W test_env_ n ri gr s) in
    cfg s' = cfg s /\ env s' = env s /\ buffer s' = buffer s /\
    learner s' = learner s /\
    ghost s' = new ++ ghost s /\
    Forall (evaluation_trajectory_ok (env s) test_env_) new /\
    chained (hidden_size (cfg s)) new /\
    env_log s' = env_log s ++ added /\
    Forall (eval_call (env s) test_env_) added.
Proof.
  destruct (test_agent W test_env_ n ri gr s) as [res s'] eqn:Eres.
  cbn [fst snd]. revert Eres. unfold test_agent.
  unfold bind at 1. unfold modify at 1.
  unfold bind at 1. unfold get at 1. unfold bind at 1.
  set (s1 := set_test_env test_env_ s).
  set (c0 := mkTestCarry _ _ _ _ _).
  pose proof (hoare_for_each
                (fun (xs : list nat) c st =>
                   exists new,
                     eval_inv (cfg s) (env s) test_env_ (ghost s) (env_log s)
                       (buffer s) (learner s) st new c /\
                     (new = nil -> hd 0 xs = 0))
                (fun _ _ => False)
                (test_trajectory W ri gr)
                (fun x xs a =>
                   test_trajectory_trace W (cfg s) (env s) test_env_ (ghost s)
                     (env_log s) (buffer s) (learner s) ri gr x xs a)
                (seq 0 n) c0 s1) as H.
  cbv beta in H.
  assert (Hpre : exists new,
             eval_inv (cfg s) (env s) test_env_ (ghost s) (env_log s)
               (buffer s) (learner s) s1 new c0 /\
             (new = nil -> hd 0 (seq 0 n) = 0)).
  { exists nil. split; [| intros _; destruct n; reflexivity].
    unfold eval_inv. simpl. repeat split; try constructor.
    exists nil. rewrite app_nil_r. split; [reflexivity | constructor]. }
  specialize (H Hpre).
  destruct (for_each _ _ _ _) as [[c1 | e] s2]; [| contradiction].
  destruct H as (new & (A1 & A2 & A3 & A4 & A5 & A6 & A7 & A8 & (added & A9 & A10)
                        & A11 & A12 & A13) & _).
  unfold bind at 1. unfold get at 1. unfold bind at 1. unfold logging at 1.
  rewrite A1, A2, A11, A12.
  destruct (_log_test_trial _ _ _ _ _) as [calls | e] eqn:El;
    unfold ret; intros Eres; inversion Eres; subst res s'; rewrite El;
    exists new, added; (split; [reflexivity |]); cbv zeta; tauto.
Qed.

(** ** The target network over time *)

Lemma polyak_only_trans (cfg : Config) (l1 l2 l3 : Learner) :
  polyak_only cfg l1 l2 -> polyak_only cfg l2 l3 -> polyak_only cfg l1 l3.
Proof.
  intros H12 H23. induction H23.
  - exact H12.
  - eapply po_online; eassumption.
  - apply po_pass. assumption.
Qed.

Lemma polyak_pass_static (cfg : Config) (l : Learner) :
  same_static l (polyak_pass cfg l).
Proof. repeat split; reflexivity. Qed.

(** One smoothing pass, tensor by tensor. *)
Lemma polyak_pass_spec (cfg : Config) (l : Learner) :
  static_ok l ->
  (forall j, j ∉ parameters (ac_targ l) ->
     heap (polyak_pass cfg l) !! j = heap l !! j) /\
  (forall k p pt,
     parameters (ac l) !! k = Some p -> parameters (ac_targ l) !! k = Some pt ->
     heap (polyak_pass cfg l) !! pt
     = smoothed (polyak cfg) (data (param_at (heap l) p)) <$> heap l !! pt).
Proof.
  intros (Hnd & _). apply NoDup_app in Hnd as (_ & Hdis & Hnt).
  unfold polyak_pass. simpl. apply polyak_fold; assumption.
Qed.

Lemma static_ok_polyak (cfg : Config) (l : Learner) :
  static_ok l -> static_ok (polyak_pass cfg l).
Proof. intros H. exact H. Qed.

Lemma polyak_data_length (c : Q) (t o : list Q) :
  length t = length o -> length (polyak_data c t o) = length t.
Proof. intros H. unfold polyak_data. rewrite length_zip_with. lia. Qed.

Lemma frozen_online (l l' : Learner) :
  frozen l -> online_step l l' -> frozen l'.
Proof.
  intros Hf ((_ & Ht & _) & Hk & _) j Hj. rewrite Ht in Hj.
  unfold param_at. rewrite (Hk j Hj). exact (Hf j Hj).
Qed.

Lemma aligned_online (l l' : Learner) :
  aligned l -> online_step l l' -> aligned l'.
Proof.
  intros Ha ((Hac & Ht & _) & _ & Hs & _) k p pt Hp Hpt.
  rewrite Hac in Hp. rewrite Ht in Hpt. rewrite !Hs. eapply Ha; eassumption.
Qed.

Lemma target_index (l : Learner) (j : nat) :
  static_ok l -> j ∈ parameters (ac_targ l) ->
  exists k p, parameters (ac l) !! k = Some p /\
              parameters (ac_targ l) !! k = Some j.
Proof.
  intros (_ & Hlen & _) Hj.
  apply list_elem_of_lookup in Hj as [k Hk].
  assert (Hlt : k < length (parameters (ac l))).
  { rewrite Hlen. eapply lookup_lt_Some; eassumption. }
  apply lookup_lt_is_Some_2 in Hlt as [p Hp]. eauto.
Qed.

Lemma frozen_polyak (cfg : Config) (l : Learner) :
  static_ok l -> frozen l -> frozen (polyak_pass cfg l).
Proof.
  intros Hs Hf j Hj. simpl in Hj.
  destruct (target_index l j Hs Hj) as (k & p & Hp & Hpt).
  destruct (polyak_pass_spec cfg l Hs) as [_ H].
  specialize (Hf j Hj). unfold param_at in *.
  rewrite (H k p j Hp Hpt).
  destruct (heap l !! j) as [T |]; simpl in *; exact Hf.
Qed.

Lemma aligned_polyak (cfg : Config) (l : Learner) :
  static_ok l -> aligned l -> aligned (polyak_pass cfg l).
Proof.
  intros Hs Ha k p pt Hp Hpt. simpl in Hp, Hpt.
  destruct (polyak_pass_spec cfg l Hs) as [H1 H2].
  specialize (Ha k p pt Hp Hpt).
  assert (Hpn : p ∉ parameters (ac_targ l)).
  { apply online_not_target; [exact Hs |].
    eapply list_elem_of_lookup_2; eassumption. }
  unfold param_at in *. rewrite (H1 p Hpn), (H2 k p pt Hp Hpt).
  destruct (heap l !! pt) as [T |]; simpl in *; [| exact Ha].
  fold (param_at (heap l) p). rewrite polyak_data_length; [exact Ha |].
  symmetry. exact Ha.
Qed.

Lemma learner_inv_polyak_only (cfg : Config) (l l' : Learner) :
  learner_inv l -> polyak_only cfg l l' -> learner_inv l'.
Proof.
  intros Hl H. induction H as [| l1 l2 _ IH Hst | l1 _ IH].
  - exact Hl.
  - destruct IH as (A & B & C).
    split; [eapply static_ok_stable; eassumption |].
    split; [eapply frozen_online | eapply aligned_online]; eassumption.
  - destruct IH as (A & B & C).
    split; [exact A |]. split; [now apply frozen_polyak | now apply aligned_polyak].
Qed.

Lemma excluded_static (l : Learner) : static_ok l -> excluded l.
Proof.
  intros Hs j Hj. destruct Hs as (Hnd & _ & Hla & Hopt & Hao & _).
  apply NoDup_app in Hnd as (_ & Hdis & _).
  split; [| split].
  - intros Hin. apply (Hdis j); [| exact Hj].
    apply Hopt. apply elem_of_app. now left.
  - intros Hin. apply (Hdis j); [| exact Hj].
    apply Hopt. apply elem_of_app. now right.
  - intros Hin. apply Hao in Hin. congruence.
Qed.

(** [update], on the networks. *)
Lemma update_on_eq (W : World) (cfg : Config) (batch : list Batch) (l : Learner) :
  update_on W cfg batch l
  = match for_each batch (update_episode W cfg) None l with
    | (Ok (Some _), l1) => (Ok tt, polyak_pass cfg l1)
    | (Ok None, l1) => (Raise UnboundLocalError, l1)
    | (Raise e, l1) => (Raise e, l1)
    end.
Proof.
  unfold update_on, bind.
  destruct (for_each batch (update_episode W cfg) None l) as [[[a |] | e] l1];
    reflexivity.
Qed.

Lemma update_on_polyak_only (W : World) (cfg : Config) (batch : list Batch)
    (l : Learner) :
  static_ok l -> polyak_only cfg l (snd (update_on W cfg batch l)).
Proof.
  intros Hs. rewrite update_on_eq.
  pose proof (episodes_online W cfg batch None l Hs) as H.
  destruct (for_each batch (update_episode W cfg) None l) as [[[a |] | e] l1];
    simpl in *.
  - apply po_pass. eapply po_online; [apply po_refl | exact H].
  - eapply po_online; [apply po_refl | exact H].
  - eapply po_online; [apply po_refl | exact H].
Qed.

Lemma update_learner (W : World) (s : SAC) :
  learner (snd (update W s))
  = snd (update_on W (cfg s) (buffer_get W (buffer s) (batch_size (cfg s)))
           (learner s)).
Proof.
  unfold update. cbn [cfg learner call_buffer].
  destruct (update_on _ _ _ _) as [r l]. reflexivity.
Qed.

Lemma update_networks (W : World) (cfg0 : Config) (l0 : Learner) (s : SAC) :
  learner_inv l0 -> networks_inv cfg0 l0 s ->
  networks_inv cfg0 l0 (snd (update W s)).
Proof.
  intros Hl0 [Hc Hp]. split.
  - destruct (update_frame W s) as (_ & H & _). now rewrite H.
  - rewrite update_learner, Hc.
    eapply polyak_only_trans; [exact Hp |].
    apply update_on_polyak_only.
    apply (learner_inv_polyak_only cfg0 l0 _ Hl0 Hp).
Qed.

Lemma train_trajectory_networks (W : World) (cfg0 : Config) (l0 : Learner)
    (epoch tr : nat) (c : Carry) :
  learner_inv l0 ->
  hoare (networks_inv cfg0 l0) (train_trajectory W epoch tr c)
    (fun _ => networks_inv cfg0 l0) (fun _ => networks_inv cfg0 l0).
Proof.
  intros Hl0 s [Hc Hp].
  unfold train_trajectory. unfold bind at 1. unfold get at 1.
  unfold bind at 1. unfold modify at 1.
  unfold bind at 1. unfold modify at 1. unfold bind at 1.
  set (t0 := mkTrajectory Training tr (env s) (c_h_out c) (c_a2 c) (c_r2 c) nil).
  set (s1 := mark_trajectory t0 (call_env (env s) EReset s)).
  set (e0 := mkRollout _ false 0%Q 0).
  destruct (train_while_trace W (max_ep_len (cfg s)) s1 c e0 t0 (ghost s))
    as (c' & e' & s2 & t' & Ew & _ & _ & _ & _ & Hcfg2 & Hl2 & _).
  { reflexivity. }
  { unfold running_ok. simpl. repeat split; auto; try constructor; lia. }
  { simpl. lia. }
  rewrite Ew.
  assert (Hn2 : networks_inv cfg0 l0 s2).
  { split; [now rewrite Hcfg2 | now rewrite Hl2]. }
  unfold bind at 1. unfold lift at 1.
  destruct (update_due (update_every (cfg s)) tr) as [due | e]; [| exact Hn2].
  unfold bind at 1. destruct due.
  - pose proof (update_networks W cfg0 l0 s2 Hl0 Hn2) as H.
    destruct (update_then_log_char W epoch tr s2) as (res & Eul & _).
    rewrite Eul. destruct res as [[] | e]; exact H.
  - exact Hn2.
Qed.

Lemma train_agent_networks (W : World) (cfg0 : Config) (l0 : Learner)
    (env_ : nat) (s : SAC) :
  learner_inv l0 -> networks_inv cfg0 l0 s ->
  networks_inv cfg0 l0 (snd (train_agent W env_ s)).
Proof.
  intros Hl0 Hn.
  assert (Hep : forall epoch c,
             hoare (networks_inv cfg0 l0) (train_epoch W epoch c)
               (fun _ => networks_inv cfg0 l0) (fun _ => networks_inv cfg0 l0)).
  { intros epoch c st Hst. unfold train_epoch.
    unfold bind at 1. unfold get at 1. unfold bind at 1.
    pose proof (hoare_for_each (fun _ _ => networks_inv cfg0 l0)
                  (fun _ => networks_inv cfg0 l0) (train_trajectory W epoch)
                  (fun x _ a => train_trajectory_networks W cfg0 l0 epoch x a Hl0)
                  (seq 0 (number_of_trajectories (cfg st)))
                  (mkCarry (zeros (hidden_size (cfg st)))
                     (zeros (hidden_size (cfg st))) (c_a2 c) (c_r2 c)) st Hst)
      as H.
    destruct (for_each _ _ _ _) as [[c1 | e] s1]; [| exact H].
    unfold bind, modify, ret. simpl. exact H. }
  destruct (train_agent W env_ s) as [res s'] eqn:Eres. cbn [snd].
  revert Eres. unfold train_agent.
  unfold bind at 1. unfold modify at 1.
  unfold bind at 1. unfold get at 1. unfold bind at 1.
  pose proof (hoare_for_each (fun _ _ => networks_inv cfg0 l0)
                (fun _ => networks_inv cfg0 l0) (train_epoch W)
                (fun x _ a => Hep x a)
                (seq 0 (epochs (cfg (set_env env_ s))))
                (mkCarry nil nil 0 0%Q) (set_env env_ s) Hn) as H.
  destruct (for_each _ _ _ _) as [[c1 | e] s1];
    unfold ret; intros Eres; inversion Eres; subst; exact H.
Qed.

Lemma test_agent_networks (W : World) (cfg0 : Config) (l0 : Learner)
    (te n ri : nat) (gr : Q) (s : SAC) :
  networks_inv cfg0 l0 s ->
  networks_inv cfg0 l0 (snd (test_agent W te n ri gr s)).
Proof.
  intros [Hc Hp].
  destruct (test_agent_trace W te n ri gr s) as (new & added & _ & H).
  cbv zeta in H. destruct H as (H1 & _ & _ & H4 & _).
  split; [now rewrite H1 | now rewrite H4].
Qed.

Lemma reachable_networks (W : World) (s0 s : SAC) :
  learner_inv (learner s0) -> reachable W s0 s ->
  networks_inv (cfg s0) (learner s0) s.
Proof.
  intros Hl0 H. induction H.
  - split; [reflexivity | apply po_refl].
  - now apply update_networks.
  - now apply train_agent_networks.
  - now apply test_agent_networks.
Qed.

(** ** The networks after construction *)

Lemma init_learner_shape (W : World) (cfg : Config) (m : ModelData) (l : Learner) :
  init_learner W cfg m = Ok l ->
  heap l = init_heap cfg m /\
  parameters (ac l) = seq 0 (model_size m) /\
  parameters (ac_targ l) = seq (model_size m) (model_size m).
Proof.
  intros H.
  destruct (init_learner_ok W cfg m l H) as (Hlr & Hpi & Hq).
  rewrite (init_learner_eq W cfg m Hlr Hpi Hq) in H. inversion H; subst l; clear H.
  simpl. split; [reflexivity |]. apply init_parameters.
Qed.

Lemma init_pair (W : World) (cfg : Config) (m : ModelData) (l : Learner)
    (k p pt : nat) :
  init_learner W cfg m = Ok l ->
  parameters (ac l) !! k = Some p -> parameters (ac_targ l) !! k = Some pt ->
  exists d, model_data m !! k = Some d /\
    p = k /\ pt = model_size m + k /\
    heap l !! p = Some (mkParam d true None) /\
    heap l !! pt = Some (mkParam d false None).
Proof.
  intros H Hp Hpt.
  destruct (init_learner_shape W cfg m l H) as (Hh & Po & Pt).
  rewrite Po in Hp. rewrite Pt in Hpt.
  apply lookup_seq in Hp as [-> Hk]. apply lookup_seq in Hpt as [-> _].
  simpl.
  destruct (model_data m !! k) as [d |] eqn:E.
  - exists d. split; [reflexivity |]. split; [reflexivity |].
    split; [reflexivity |]. rewrite Hh.
    rewrite init_heap_online, init_heap_target by exact Hk.
    rewrite E. split; reflexivity.
  - apply lookup_ge_None in E. rewrite model_data_length in E. lia.
Qed.

Lemma init_learner_inv (W : World) (cfg : Config) (m : ModelData) (l : Learner) :
  init_learner W cfg m = Ok l -> learner_inv l.
Proof.
  intros H. pose proof (init_static_ok W cfg m l H) as Hs.
  split; [exact Hs |]. split.
  - intros j Hj.
    destruct (target_index l j Hs Hj) as (k & p & Hp & Hpt).
    destruct (init_pair W cfg m l k p j H Hp Hpt) as (d & _ & _ & _ & _ & Ht).
    unfold param_at. rewrite Ht. split; reflexivity.
  - intros k p pt Hp Hpt.
    destruct (init_pair W cfg m l k p pt H Hp Hpt) as (d & _ & _ & _ & Ho & Ht).
    unfold param_at. now rewrite Ho, Ht.
Qed.

Lemma init_critics_differentiable (W : World) (cfg : Config) (m : ModelData)
    (l : Learner) :
  init_learner W cfg m = Ok l -> critics_differentiable l.
Proof.
  intros H j Hj. apply q_in_parameters in Hj.
  apply list_elem_of_lookup in Hj as [k Hk].
  pose proof (init_static_ok W cfg m l H) as (_ & Hlen & _).
  assert (Hlt : k < length (parameters (ac_targ l))).
  { rewrite <- Hlen. eapply lookup_lt_Some; eassumption. }
  apply lookup_lt_is_Some_2 in Hlt as [pt Hpt].
  destruct (init_pair W cfg m l k j pt H Hk Hpt) as (d & _ & _ & _ & Ho & _).
  unfold param_at. now rewrite Ho.
Qed.

Lemma critics_differentiable_online (l l' : Learner) :
  critics_differentiable l -> online_step l l' -> critics_differentiable l'.
Proof.
  intros Hc ((Hac & _) & _ & _ & Hf) j Hj. rewrite Hac in Hj.
  rewrite Hf. apply Hc, Hj.
Qed.

Lemma critics_differentiable_polyak (cfg : Config) (l : Learner) :
  static_ok l -> critics_differentiable l ->
  critics_differentiable (polyak_pass cfg l).
Proof.
  intros Hs Hc j Hj. simpl in Hj.
  destruct (polyak_pass_spec cfg l Hs) as [H1 _].
  unfold param_at. rewrite H1.
  - apply Hc, Hj.
  - apply online_not_target; [exact Hs | now apply q_in_parameters].
Qed.

Lemma critics_differentiable_polyak_only (cfg : Config) (l l' : Learner) :
  learner_inv l -> critics_differentiable l -> polyak_only cfg l l' ->
  critics_differentiable l'.
Proof.
  intros Hl Hc H. induction H as [| l1 l2 H1 IH Hst | l1 H1 IH].
  - exact Hc.
  - eapply critics_differentiable_online; eassumption.
  - apply critics_differentiable_polyak; [| exact IH].
    apply (learner_inv_polyak_only cfg l l1 Hl H1).
Qed.

(** C2.  A call of [update] whose loop over the episodes runs to its end
    with at least one episode returns, and what it does to the networks
    after that loop is one smoothing pass: every target tensor, at its own
    handle and with its flag and (absent) gradient as they were, holds
    [polyak * old_target + (1 - polyak) * online], where [old_target] is
    the tensor as the call found it (the episodes do not touch it) and
    [online] the aligned online tensor after all the episodes; nothing else
    changes.  A call whose loop raises, or runs over no episode, raises
    and smooths nothing. *)
Theorem update_smooths_once (W : World) (s : SAC) :
  learner_inv (learner s) ->
  let batch := buffer_get W (buffer s) (batch_size (cfg s)) in
  let l0 := learner s in
  let l' := learner (snd (update W s)) in
  match for_each batch (update_episode W (cfg s)) None l0 with
  | (Ok (Some _), l1) =>
      fst (update W s) = Ok tt /\
      l' = polyak_pass (cfg s) l1 /\
      targets_kept l0 l1 /\
      (forall j, j ∉ parameters (ac_targ l0) -> heap l' !! j = heap l1 !! j) /\
      (forall k p pt,
         parameters (ac l0) !! k = Some p ->
         parameters (ac_targ l0) !! k = Some pt ->
         exists old_target,
           heap l0 !! pt = Some old_target /\
           heap l' !! pt
           = Some (mkParam
                     (polyak_data (polyak (cfg s)) (data old_target)
                        (data (param_at (heap l1) p)))
                     false None) /\
           length (data (param_at (heap l1) p)) = length (data old_target))
  | (Ok None, l1) =>
      batch = nil /\ fst (update W s) = Raise UnboundLocalError /\ l' = l0
  | (Raise e, l1) =>
      fst (update W s) = Raise e /\ l' = l1 /\ targets_kept l0 l1
  end.
Proof.
  intros (Hs & Hf & Ha) batch l0 l'.
  assert (El : l' = snd (update_on W (cfg s) batch l0)) by apply update_learner.
  assert (Er : fst (update W s) = fst (update_on W (cfg s) batch l0)).
  { unfold update. cbn [cfg learner call_buffer]. fold batch l0.
    destruct (update_on _ _ _ _); reflexivity. }
  rewrite update_on_eq in El, Er.
  pose proof (episodes_online W (cfg s) batch None l0 Hs) as Hon.
  destruct (for_each batch (update_episode W (cfg s)) None l0)
    as [[[al |] | e] l1] eqn:Eloop; simpl in El, Er, Hon.
  - destruct Hon as ((Hac & Ht & _) & Hk & Hsh & _).
    assert (Hs1 : static_ok l1).
    { eapply static_ok_stable; [exact Hs |].
      pose proof (episodes_online W (cfg s) batch None l0 Hs) as H.
      now rewrite Eloop in H. }
    destruct (polyak_pass_spec (cfg s) l1 Hs1) as [P1 P2].
    split; [exact Er |]. split; [exact El |]. split; [exact Hk |].
    split.
    { intros j Hj. rewrite El. apply P1. now rewrite Ht. }
    intros k p pt Hp Hpt.
    assert (Hin : pt ∈ parameters (ac_targ l0))
      by (eapply list_elem_of_lookup_2; eassumption).
    destruct (Hf pt Hin) as [Hflag Hgrad].
    unfold param_at in Hflag, Hgrad.
    change (learner s) with l0 in Hflag, Hgrad.
    destruct (heap l0 !! pt) as [T |] eqn:ET; [| simpl in Hflag; discriminate].
    exists T. split; [reflexivity |].
    split.
    + rewrite El. rewrite (P2 k p pt) by congruence.
      rewrite (Hk pt Hin), ET. simpl. unfold smoothed, set_data.
      simpl in Hflag, Hgrad. now rewrite Hflag, Hgrad.
    + rewrite Hsh. specialize (Ha k p pt Hp Hpt).
      unfold param_at in Ha at 2. change (learner s) with l0 in Ha.
      rewrite ET in Ha. exact Ha.
  - destruct (episodes_bind_alpha_loss W (cfg s) batch None None l0 l1 Eloop)
      as [(Hb & _ & Hl) | (_ & a & Habs)]; [| discriminate].
    split; [exact Hb |]. split; [exact Er |]. congruence.
  - destruct Hon as (_ & Hk & _). repeat split; assumption.
Qed.

(** C10.  When the buffer hands over no episode, [update] raises
    [UnboundLocalError] where [alpha_loss] is read for logging; the only
    thing the failed call did is the [buffer.get], so the networks, and
    with them the target tensors, are as before.  A call that returns has
    therefore been given at least one episode. *)
Theorem update_empty_batch (W : World) (s : SAC) :
  buffer_get W (buffer s) (batch_size (cfg s)) = nil ->
  update W s
  = (Raise UnboundLocalError, call_buffer (BGet (batch_size (cfg s))) s) /\
  learner (snd (update W s)) = learner s /\
  (forall s1, fst (update W s1) = Ok tt ->
              buffer_get W (buffer s1) (batch_size (cfg s1)) <> nil).
Proof.
  intros Hb.
  assert (H : update W s
              = (Raise UnboundLocalError, call_buffer (BGet (batch_size (cfg s))) s)).
  { unfold update. rewrite Hb. cbn [cfg learner call_buffer].
    unfold update_on, bind, ret, raise. simpl.
    destruct s; reflexivity. }
  split; [exact H |]. split; [rewrite H; reflexivity |].
  intros s1 Hok Hempty. unfold update in Hok. rewrite Hempty in Hok.
  cbn [cfg learner call_buffer] in Hok.
  unfold update_on, bind, ret, raise in Hok. simpl in Hok. discriminate.
Qed.

(** C4 (the code at work).  [__init__] hands [self.q_params] to [Adam],
    which drains the iterator; from then on the two loops over
    [self.q_params] in [update] visit nothing.  So in every cycle the
    "freeze" leaves the state as it is, and the online critics are still
    differentiable when the policy loss is built and back-propagated. *)
Theorem critics_are_never_frozen (W : World) (cfg : Config) (m : ModelData)
    (l0 l : Learner) (episode : Batch) :
  init_learner W cfg m = Ok l0 ->
  polyak_only cfg l0 l ->
  q_params l0 = nil /\
  let after_critic := snd (critic_step W cfg episode l) in
  let at_policy := for_q_params_set_requires_grad false after_critic in
  at_policy = after_critic /\
  forall j, j ∈ ac_q1 (ac l) ++ ac_q2 (ac l) ->
    requires_grad (param_at (heap at_policy) j) = true.
Proof.
  intros Hinit Hpo.
  pose proof (init_learner_inv W cfg m l0 Hinit) as Hl0.
  pose proof (init_critics_differentiable W cfg m l0 Hinit) as Hc0.
  pose proof (learner_inv_polyak_only cfg l0 l Hl0 Hpo) as (Hs & _).
  pose proof (critics_differentiable_polyak_only cfg l0 l Hl0 Hc0 Hpo) as Hc.
  split; [apply Hl0 |].
  intros after_critic at_policy.
  pose proof (critic_step_online W cfg episode l Hs) as Hst.
  fold after_critic in Hst.
  assert (Hq : q_params after_critic = nil).
  { eapply static_ok_stable in Hst; [apply Hst | exact Hs]. }
  assert (E : at_policy = after_critic)
    by (apply for_q_params_exhausted; exact Hq).
  split; [exact E |]. rewrite E.
  intros j Hj. destruct Hst as (_ & _ & _ & Hf). rewrite Hf. apply Hc, Hj.
Qed.

(** ** A small world to run the definitions in *)

Lemma demo_init : init demo_world demo_cfg demo_model 0 = Ok demo_agent.
Proof. reflexivity. Qed.

(** ** The claims *)

Lemma added_trajectories_app (s s' : SAC) (new : list Trajectory) :
  ghost s' = new ++ ghost s -> added_trajectories s s' = new.
Proof.
  intros H. unfold added_trajectories. rewrite H, length_app.
  replace (length new + length (ghost s) - length (ghost s)) with (length new)
    by lia.
  now rewrite firstn_app, firstn_all, Nat.sub_diag, app_nil_r.
Qed.

(** C5, as amended.  The trajectories a call of [train_agent] or of
    [test_agent] runs are chained: the first one of the call starts from
    the zero recurrent state and the carry (0, 0); every later one starts
    from the carry that the last step of the one before left, and from the
    recurrent state it left too, except that a trajectory that opens a
    training epoch starts from the zero state.  Inside a trajectory every
    step is conditioned on what the step before left. *)
Theorem trajectories_are_chained (W : World) (s : SAC) :
  (forall env_,
     let new := added_trajectories s (snd (train_agent W env_ s)) in
     ghost (snd (train_agent W env_ s)) = new ++ ghost s /\
     Forall (fun t => tj_loop t = Training) new /\
     chained (hidden_size (cfg s)) new /\
     Forall (fun t => steps_linked (traj_start t) (tj_steps t)) new) /\
  (forall test_env_ n random_init greedy_ratio,
     let s' := snd (test_agent W test_env_ n random_init greedy_ratio s) in
     let new := added_trajectories s s' in
     ghost s' = new ++ ghost s /\
     Forall (fun t => tj_loop t = Evaluation) new /\
     chained (hidden_size (cfg s)) new /\
     Forall (fun t => steps_linked (traj_start t) (tj_steps t)) new).
Proof.
  split.
  - intros env_ new.
    destruct (train_agent_trace W env_ s)
      as (_ & new0 & _ & _ & Hg & Hall & Hch & _).
    assert (E : new = new0) by (apply added_trajectories_app; exact Hg).
    rewrite E. split; [exact Hg |]. split; [| split; [exact Hch |]].
    + eapply Forall_impl; [exact Hall |]. intros t H. apply H.
    + eapply Forall_impl; [exact Hall |]. intros t H. apply H.
  - intros te n ri gr s' new.
    destruct (test_agent_trace W te n ri gr s) as (new0 & added & _ & H).
    cbv zeta in H. destruct H as (_ & _ & _ & _ & Hg & Hall & Hch & _).
    assert (E : new = new0) by (apply added_trajectories_app; exact Hg).
    rewrite E. split; [exact Hg |]. split; [| split; [exact Hch |]].
    + eapply Forall_impl; [exact Hall |]. intros t H. apply H.
    + eapply Forall_impl; [exact Hall |]. intros t H. apply H.
Qed.

(** C7, as amended.  The transitions [train_agent] stores are the steps of
    its trajectories, in order.  For a step taken after the warm-up
    ([global_steps > start_steps]) the stored action and [hidden_out] are
    what the policy returned for the stored (obs, prev_action,
    prev_reward, hidden_in); for a step of the warm-up the encoder is not
    run and the stored [hidden_out] is the stored [hidden_in]. *)
Theorem stored_hidden_pair (W : World) (env_ : nat) (s : SAC) :
  let s' := snd (train_agent W env_ s) in
  let new := added_trajectories s s' in
  stored (buffer s') = stored (buffer s) ++ trace_transitions new /\
  forall t r, In t new -> In r (tj_steps t) ->
    let tr := sr_step r in
    (start_steps (cfg s) < sr_global_steps r ->
     explore W (sr_rng r) (sr_theta r) (t_obs tr) (t_prev_action tr)
       (t_prev_reward tr) (t_hidden_in tr) = (t_action tr, t_hidden_out tr)) /\
    (sr_global_steps r <= start_steps (cfg s) ->
     t_hidden_out tr = t_hidden_in tr).
Proof.
  intros s' new.
  destruct (train_agent_trace W env_ s)
    as (_ & new0 & _ & _ & Hg & Hall & _ & _ & _ & Hsto).
  assert (E : new = new0) by (apply added_trajectories_app; exact Hg).
  rewrite E. split; [exact Hsto |].
  intros t r Ht Hr tr.
  rewrite List.Forall_forall in Hall. destruct (Hall t Ht) as (_ & _ & Hst & _).
  rewrite List.Forall_forall in Hst. destruct (Hst r Hr) as (_ & _ & _ & Hh).
  unfold hidden_rule in Hh. fold tr in Hh. split.
  - intros Hl. apply Nat.ltb_lt in Hl. now rewrite Hl in Hh.
  - intros Hl. apply Nat.ltb_ge in Hl. now rewrite Hl in Hh.
Qed.

Lemma finished_once_count (t : Trajectory) :
  finished_once t -> finishing_steps t = 1.
Proof.
  unfold finished_once, finishing_steps.
  destruct (tj_steps t) as [| r earlier]; [contradiction |].
  intros [Hr He]. simpl. rewrite Hr. simpl. f_equal.
  induction He as [| r' earlier Hr' _ IH]; simpl; [reflexivity |].
  now rewrite Hr'.
Qed.

Lemma total_finishing_length (new : list Trajectory) :
  Forall finished_once new -> total_finishing new = length new.
Proof.
  induction 1 as [| t new Ht _ IH]; simpl; [reflexivity |].
  now rewrite (finished_once_count t Ht), IH.
Qed.

(** ** The claims at work *)

Lemma demo_learner_init :
  init_learner demo_world demo_cfg demo_model = Ok demo_learner.
Proof. reflexivity. Qed.

Lemma compute_critic_loss_backup_witness :
  (exists backup,
     critic_backup demo_world demo_cfg demo_learner demo_batch_columns
       (view_col (b_rew demo_batch_columns))
       (of_rows 2 ((0%Q :: 0%Q :: nil) :: nil))
     = Ok backup /\
     shape backup = (2, 1) /\
     Qred (at_ backup 0 0) = (163 # 100)%Q /\ Qred (at_ backup 1 0) = 2%Q) /\
  (exists table,
     critic_backup demo_world demo_cfg demo_learner demo_batch_flat
       (view_col (b_rew demo_batch_flat))
       (of_rows 2 ((0%Q :: 0%Q :: nil) :: nil))
     = Ok table /\
     shape table = (2, 2) /\
     Qred (at_ table 0 0) = (163 # 100)%Q /\ Qred (at_ table 0 1) = 1%Q /\
     Qred (at_ table 1 0) = (199 # 50)%Q /\ Qred (at_ table 1 1) = 2%Q).
Proof.
  split.
  - edestruct (compute_critic_loss_backup demo_world demo_cfg demo_learner
                 demo_batch_columns
                 (mkT 1 2 (fun _ j => at_ (b_hid_out demo_batch) (j / 2) (j mod 2)))
                 (b_obs2 demo_batch)
                 (mkT 1 2 (fun _ j => at_ (b_hid_out demo_batch) (j / 2) (j mod 2)))
                 (mkT 2 1 (fun _ _ => 0%Q))
                 (mkT 2 2 (fun _ _ => (1 # 2)%Q))
                 (mkT 2 2 (fun _ _ => (- (1))%Q)) 2 2)
      as (_ & _ & _ & H & _); try reflexivity.
    destruct (H eq_refl eq_refl) as (backup & E & S & A).
    exists backup. split.
    + rewrite <- E. reflexivity.
    + split; [exact S |].
      rewrite (A 0), (A 1) by lia. split; reflexivity.
  - edestruct (compute_critic_loss_backup demo_world demo_cfg demo_learner
                 demo_batch_flat
                 (mkT 1 2 (fun _ j => at_ (b_hid_out demo_batch) (j / 2) (j mod 2)))
                 (b_obs2 demo_batch)
                 (mkT 1 2 (fun _ j => at_ (b_hid_out demo_batch) (j / 2) (j mod 2)))
                 (mkT 2 1 (fun _ _ => 0%Q))
                 (mkT 2 2 (fun _ _ => (1 # 2)%Q))
                 (mkT 2 2 (fun _ _ => (- (1))%Q)) 2 2)
      as (_ & _ & H & _); try reflexivity.
    specialize (H eq_refl).
    change (bdim (rows (b_done demo_batch_flat)) 2) with (Some 2) in H.
    destruct H as (table & E & S & A).
    exists table. split.
    + rewrite <- E. reflexivity.
    + split; [exact S |].
      rewrite (A 0 0), (A 0 1), (A 1 0), (A 1 1) by (simpl; lia).
      repeat split; reflexivity.
Defined.

Lemma demo_ready_inv : learner_inv (learner demo_ready).
Proof. exact (init_learner_inv _ _ _ _ demo_learner_init). Defined.

Lemma update_smooths_once_witness :
  learner_inv (learner demo_ready) /\
  fst (update demo_world demo_ready) = Ok tt /\
  learner (snd (update demo_world demo_ready))
  = polyak_pass demo_cfg
      (snd (for_each (demo_batch :: nil) (update_episode demo_world demo_cfg)
              None demo_learner)).
Proof.
  pose proof (update_smooths_once demo_world demo_ready demo_ready_inv) as T.
  cbv zeta in T.
  change (buffer_get demo_world (buffer demo_ready) (batch_size (cfg demo_ready)))
    with (demo_batch :: nil) in T.
  change (cfg demo_ready) with demo_cfg in T.
  change (learner demo_ready) with demo_learner in T.
  destruct (for_each (demo_batch :: nil) (update_episode demo_world demo_cfg)
              None demo_learner) as [[[al |] | e] l1] eqn:E.
  - split; [exact demo_ready_inv |]. split; [apply T | apply T].
  - vm_compute in E. discriminate E.
  - vm_compute in E. discriminate E.
Defined.

Lemma critics_are_never_frozen_witness :
  let after_critic := snd (critic_step demo_world demo_cfg demo_batch demo_learner) in
  for_q_params_set_requires_grad false after_critic = after_critic /\
  forall j, j ∈ 1 :: 2 :: nil ->
    requires_grad
      (param_at (heap (for_q_params_set_requires_grad false after_critic)) j)
    = true.
Proof.
  exact (proj2 (critics_are_never_frozen demo_world demo_cfg demo_model
                  demo_learner demo_learner demo_batch demo_learner_init
                  (po_refl demo_cfg demo_learner))).
Defined.

Lemma update_empty_batch_witness :
  buffer_get demo_world (buffer demo_agent) (batch_size (cfg demo_agent)) = nil /\
  update demo_world demo_agent
  = (Raise UnboundLocalError,
     call_buffer (BGet (batch_size (cfg demo_agent))) demo_agent).
Proof.
  split; [reflexivity |].
  apply (update_empty_batch demo_world demo_agent). reflexivity.
Defined.

(** C5, as the specification words it, fails: with two steps per
    trajectory and the policy in charge from the second step on, the
    second trajectory of the demo run starts from the recurrent state
    [1; 1] and the carry (1, 1). *)
Lemma trajectories_start_fresh_counterexample :
  ~ every_trajectory_starts_fresh demo_world demo_agent 0.
Proof.
  unfold every_trajectory_starts_fresh. intros H.
  vm_compute in H. apply Forall_inv in H. discriminate H.
Qed.

(** C7, as the specification words it, fails: the first step of the demo
    run is a warm-up step; it stores [hidden_out = hidden_in = 0; 0], where
    the encoder would have returned [1; 1]. *)
Lemma warm_up_hidden_counterexample :
  ~ every_step_stores_encoder_output demo_world demo_agent 0.
Proof.
  unfold every_step_stores_encoder_output. intros H.
  vm_compute in H.
  inversion H as [| t2 rest _ H1]; subst.
  inversion H1 as [| t1 rest' H2 _]; subst.
  inversion H2 as [| r2 earlier _ H3]; subst.
  inversion H3 as [| r1 earlier' H4 _]; subst.
  discriminate H4.
Qed.

(** C8, as the specification words it, fails: with [max_ep_len = 0] the
    demo run resets the environment for two trajectories and never calls
    [finish_path]. *)
Lemma finish_path_without_steps_counterexample :
  ~ finish_path_per_trajectory demo_world demo_agent_no_steps 0.
Proof.
  unfold finish_path_per_trajectory. intros H. vm_compute in H. discriminate H.
Qed.

(** C9 at a failing input: the agent lives on environment 0 and is
    evaluated on environment 1 for one trajectory after one random step;
    environment 1 is only reset, all three steps are taken on 0. *)
Example test_agent_failing_input :
  env_log (snd (test_agent demo_world 1 1 1 (8 # 10) demo_agent))
  = (1, EReset) :: (0, ESample) :: (0, EStep 1) :: (0, EStep 0)
    :: (0, EStep 0) :: nil.
Proof. reflexivity. Qed.

(** C4 at a failing input: after the critic step of the first cycle the
    "freeze" has run and the critic tensors 1 and 2 still ask for
    gradients. *)
Example freeze_failing_input :
  let l := for_q_params_set_requires_grad false
             (snd (critic_step demo_world demo_cfg demo_batch demo_learner)) in
  map (fun j => requires_grad (param_at (heap l) j)) (1 :: 2 :: nil)
  = true :: true :: nil.
Proof. reflexivity. Qed.

(** ** The losses *)

Lemma mean_ext (a b : Tensor) :
  shape a = shape b ->
  (forall i j, i < rows a -> j < cols a -> at_ a i j = at_ b i j) ->
  mean a = mean b.
Proof.
  unfold shape. intros Hs H. inversion Hs as [[Hr Hc]].
  unfold mean, numel. rewrite <- Hr, <- Hc. f_equal.
  apply big_sum_ext. intros i Hi. apply big_sum_ext. intros j Hj. now apply H.
Qed.

(** X1.  The critic loss reports the mean of the first critic under both
    [Q1Vals] and [Q2Vals]: the values of the second critic are not
    reported. *)
Theorem critic_info_reports_first_critic (W : World) (cfg : Config)
    (l : Learner) (batch : Batch) (loss : Loss) (info : Q * Q) :
  compute_critic_loss W cfg l batch = Ok (loss, info) ->
  exists q1 : Tensor,
    gather1 (fwd_q1 W (theta (heap l) (ac_q1 (ac l))) (b_obs batch))
      (view_col (b_act batch)) = Ok q1 /\
    fst info = mean q1 /\ snd info = mean q1.
Proof.
  unfold compute_critic_loss.
  destruct (view_hidden _ _); simpl; [| discriminate].
  destruct (gather1 (fwd_q1 _ _ _) _) as [q1 |]; simpl; [| discriminate].
  destruct (gather1 _ _); simpl; [| discriminate].
  destruct (critic_backup _ _ _ _ _ _); simpl; [| discriminate].
  destruct (mse _ _); simpl; [| discriminate].
  destruct (mse _ _); simpl; [| discriminate].
  intros H. inversion H. exists q1. simpl. auto.
Qed.

Lemma gather1_raises (t idx : Tensor) :
  (exists r, gather1 t idx = Ok r) \/ gather1 t idx = Raise RuntimeError.
Proof. unfold gather1. destruct (_ && _); eauto. Qed.

Lemma mse_raises (q b : Tensor) :
  (exists r, mse q b = Ok r) \/ mse q b = Raise RuntimeError.
Proof.
  unfold mse, broadcast2.
  destruct (bdim (rows q) (rows b)); [destruct (bdim (cols q) (cols b)) |];
    cbn [rbind]; eauto.
Qed.

(** X2.  The assertion of [compute_critic_loss] compares the reward with the
    soft value only.  When [done] is a one-dimensional tensor of [n]
    entries (a row) the assertion passes and broadcasting makes the backup
    an [n x n] table: entry [(i, j)] combines the reward and the soft value
    of transition [i] with the [done] flag of transition [j].  The call
    does not fail on the assertion. *)
Theorem critic_backup_done_row (W : World) (cfg : Config) (l : Learner)
    (batch : Batch) (h_out emb hid act_s pi2 logp2 : Tensor) (n n_act : nat) :
  let rew := view_col (b_rew batch) in
  let done := b_done batch in
  let q1_targ := fwd_q1 W (theta (heap l) (ac_q1 (ac_targ l))) (b_obs2 batch) in
  let q2_targ := fwd_q2 W (theta (heap l) (ac_q2 (ac_targ l))) (b_obs2 batch) in
  view_hidden (hidden_size cfg) (b_hid_out batch) = Ok h_out ->
  fwd_memory W (theta (heap l) (ac_memory (ac l))) (b_obs2 batch) (b_act batch)
    rew h_out = (emb, hid) ->
  fwd_pi_sample W (theta (heap l) (ac_pi (ac l))) emb = (act_s, pi2, logp2) ->
  shape pi2 = (n, n_act) -> shape logp2 = (n, n_act) ->
  shape q1_targ = (n, n_act) -> shape q2_targ = (n, n_act) ->
  shape rew = (n, 1) -> shape done = (1, n) ->
  (exists backup, critic_backup W cfg l batch rew h_out = Ok backup /\
     shape backup = (n, n) /\
     forall i j, i < n -> j < n ->
       at_ backup i j
       = bellman_backup (gamma cfg) (at_ rew i 0) (at_ done 0 j)
           (soft_value (alpha l) n_act (at_ pi2 i) (at_ logp2 i)
              (at_ q1_targ i) (at_ q2_targ i))) /\
  compute_critic_loss W cfg l batch <> Raise AssertionError.
Proof.
  intros rew done q1_targ q2_targ Hview Hmem Hpi Hs1 Hs2 Hs3 Hs4 Hrew Hdone.
  assert (Hb : exists backup, critic_backup W cfg l batch rew h_out = Ok backup /\
     shape backup = (n, n) /\
     forall i j, i < n -> j < n ->
       at_ backup i j
       = bellman_backup (gamma cfg) (at_ rew i 0) (at_ done 0 j)
           (soft_value (alpha l) n_act (at_ pi2 i) (at_ logp2 i)
              (at_ q1_targ i) (at_ q2_targ i))).
  {
  destruct (critic_next_q_spec W l batch rew h_out emb hid act_s pi2 logp2
              n n_act Hmem Hpi Hs1 Hs2 Hs3 Hs4) as (nq & Enq & Snq & Anq).
  assert (E : shape_eqb (shape rew) (shape nq) = true).
  { apply shape_eqb_spec. congruence. }
  assert (Hnr : rows nq = n) by (unfold shape in Snq; congruence).
  assert (Hnc : cols nq = 1) by (unfold shape in Snq; congruence).
  assert (Hrr : rows rew = n) by (unfold shape in Hrew; congruence).
  assert (Hrc : cols rew = 1) by (unfold shape in Hrew; congruence).
  assert (Hdr : rows done = 1) by (unfold shape in Hdone; congruence).
  assert (Hdc : cols done = n) by (unfold shape in Hdone; congruence).
  unfold critic_backup. rewrite Enq. cbn [rbind]. rewrite E.
  fold done. unfold broadcast2. cbn [rows cols tmap].
  rewrite Hdr, Hdc, Hnr, Hnc, bdim_one_l, bdim_one_r. cbn [rbind rows cols].
  rewrite Hrr, Hrc, bdim_same, bdim_one_l.
  eexists. split; [reflexivity |]. split; [reflexivity |].
  intros i j Hi Hj. cbn [at_ tmap].
  rewrite !(bidx_lt n j Hj), !(bidx_lt n i Hi).
  change (bidx 1 i) with 0. change (bidx 1 j) with 0.
  rewrite (Anq i Hi). reflexivity. }
  split; [exact Hb |].
  destruct Hb as (backup & Eb & _).
  unfold compute_critic_loss. rewrite Hview. cbn [rbind].
  destruct (gather1_raises (fwd_q1 W (theta (heap l) (ac_q1 (ac l))) (b_obs batch))
              (view_col (b_act batch))) as [[q1 ->] | ->];
    cbn [rbind]; [| discriminate].
  destruct (gather1_raises (fwd_q2 W (theta (heap l) (ac_q2 (ac l))) (b_obs batch))
              (view_col (b_act batch))) as [[q2 ->] | ->];
    cbn [rbind]; [| discriminate].
  fold rew. rewrite Eb. cbn [rbind].
  destruct (mse_raises q1 backup) as [[x1 ->] | ->]; cbn [rbind]; [| discriminate].
  destruct (mse_raises q2 backup) as [[x2 ->] | ->]; cbn [rbind]; discriminate.
Qed.

(** X3.  The policy loss is the mean over the transitions of the episode of
    the entropy-regularised objective: with [pi], [logp] from the online
    memory and policy head on [(obs, prev_act, prev_rew, hid)] and the two
    online critics on [obs], each of one row per transition and one column
    per action, [loss_pi = mean_i (- sum_a min(q1, q2)(i, a) * pi(i, a)
    - alpha * (- sum_a pi(i, a) * logp(i, a)))]; the log-probabilities are
    returned beside it. *)
Theorem compute_policy_loss_objective (W : World) (cfg : Config) (l : Learner)
    (batch : Batch) (h_in emb hid act_s pi logp : Tensor) (n n_act : nat) :
  let obs := b_obs batch in
  let q1 := fwd_q1 W (theta (heap l) (ac_q1 (ac l))) obs in
  let q2 := fwd_q2 W (theta (heap l) (ac_q2 (ac l))) obs in
  view_hidden (hidden_size cfg) (b_hid batch) = Ok h_in ->
  fwd_memory W (theta (heap l) (ac_memory (ac l))) obs (b_prev_act batch)
    (view_col (b_prev_rew batch)) h_in = (emb, hid) ->
  fwd_pi_sample W (theta (heap l) (ac_pi (ac l))) emb = (act_s, pi, logp) ->
  shape pi = (n, n_act) -> shape logp = (n, n_act) ->
  shape q1 = (n, n_act) -> shape q2 = (n, n_act) ->
  exists loss,
    compute_policy_loss W cfg l batch = Ok (loss, logp) /\
    loss_value loss
    = mean (mkT n 1 (fun i _ =>
              policy_objective (alpha l) n_act (at_ pi i) (at_ logp i)
                (at_ q1 i) (at_ q2 i))).
Proof.
  intros obs q1 q2 Hview Hmem Hpi Hs1 Hs2 Hs3 Hs4.
  unfold compute_policy_loss. rewrite Hview. cbn [rbind].
  fold obs. rewrite Hmem, Hpi. fold q1 q2.
  destruct (broadcast2_same_shape Qmin q1 q2 n n_act Hs3 Hs4)
    as (qmin & Eqmin & Sqmin & Aqmin).
  rewrite Eqmin. cbn [rbind].
  destruct (broadcast2_same_shape Qmult pi logp n n_act Hs1 Hs2)
    as (plogp & Eplogp & Splogp & Aplogp).
  rewrite Eplogp. cbn [rbind].
  destruct (broadcast2_same_shape Qmult qmin pi n n_act Sqmin Hs1)
    as (qpi & Eqpi & Sqpi & Aqpi).
  rewrite Eqpi. cbn [rbind].
  assert (Hpr : rows plogp = n) by (unfold shape in Splogp; congruence).
  assert (Hpc : cols plogp = n_act) by (unfold shape in Splogp; congruence).
  assert (Hqr : rows qpi = n) by (unfold shape in Sqpi; congruence).
  assert (Hqc : cols qpi = n_act) by (unfold shape in Sqpi; congruence).
  assert (S1 : shape (tmap Qopp (sum_dim1 qpi)) = (n, 1))
    by (unfold shape; simpl; now rewrite Hqr).
  assert (S2 : shape (tmap (fun x => (alpha l * x)%Q) (tmap Qopp (sum_dim1 plogp)))
               = (n, 1))
    by (unfold shape; simpl; now rewrite Hpr).
  destruct (broadcast2_same_shape Qminus _ _ n 1 S1 S2) as (obj & Eobj & Sobj & Aobj).
  rewrite Eobj. cbn [rbind].
  eexists. split; [reflexivity |]. cbn [loss_value].
  assert (Hor : rows obj = n) by (unfold shape in Sobj; congruence).
  assert (Hoc : cols obj = 1) by (unfold shape in Sobj; congruence).
  apply mean_ext.
  - unfold shape. simpl. now rewrite Hor, Hoc.
  - intros i j Hi Hj. rewrite Hor in Hi. rewrite Hoc in Hj.
    assert (j = 0) as -> by lia.
    rewrite (Aobj i 0) by lia. cbn [at_ tmap sum_dim1].
    unfold policy_objective. rewrite Hqc, Hpc.
    f_equal; [f_equal | f_equal; f_equal]; apply big_sum_ext; intros a Ha.
    + rewrite Aqpi, Aqmin by assumption. reflexivity.
    + rewrite Aplogp by assumption. reflexivity.
Qed.

(** ** What each optimizer step moves *)

Lemma param_at_alter_all_notin (f : nat -> Param -> Param) (ids : list nat)
    (h : gmap nat Param) (j : nat) :
  j ∉ ids -> param_at (alter_all f ids h) j = param_at h j.
Proof.
  intros Hj. unfold param_at. rewrite alter_all_notin; [reflexivity |].
  now rewrite <- list_elem_of_In.
Qed.

Lemma data_zero_grad (opt : list nat) (l : Learner) (j : nat) :
  data (param_at (heap (zero_grad opt l)) j) = data (param_at (heap l) j).
Proof. apply (alter_all_proj data). reflexivity. Qed.

Lemma data_backward (W : World) (loss : Loss) (l : Learner) (j : nat) :
  data (param_at (heap (backward W loss l)) j) = data (param_at (heap l) j).
Proof. apply (alter_all_proj data). reflexivity. Qed.

Lemma data_clip (W : World) (cfg : Config) (l : Learner) (j : nat) :
  data (param_at (heap (clip_grad_norm_ W cfg l)) j) = data (param_at (heap l) j).
Proof. apply (alter_all_proj data). reflexivity. Qed.

Lemma data_step_notin (W : World) (opt : list nat) (l : Learner) (j : nat) :
  j ∉ opt ->
  data (param_at (heap (step W opt l)) j) = data (param_at (heap l) j).
Proof.
  intros Hj. unfold step. cbn [heap tick set_heap].
  now rewrite param_at_alter_all_notin.
Qed.

Lemma critic_step_data (W : World) (cfg : Config) (ep : Batch) (l : Learner)
    (j : nat) :
  j ∉ q_optimizer l ->
  data (param_at (heap (snd (critic_step W cfg ep l))) j)
  = data (param_at (heap l) j).
Proof.
  intros Hj. rewrite critic_step_eq.
  destruct (compute_critic_loss W cfg l ep) as [[loss info] | e];
    [| reflexivity].
  cbn [snd]. rewrite data_step_notin by exact Hj.
  now rewrite data_clip, data_backward, data_zero_grad.
Qed.

Lemma policy_step_data (W : World) (cfg : Config) (ep : Batch) (l : Learner)
    (j : nat) :
  j ∉ pi_optimizer l ->
  data (param_at (heap (snd (policy_step W cfg ep l))) j)
  = data (param_at (heap l) j).
Proof.
  intros Hj. rewrite policy_step_eq. cbv zeta.
  destruct (compute_policy_loss W cfg _ ep) as [[loss logp] | e]; cbn [snd].
  - rewrite data_step_notin by exact Hj.
    now rewrite data_clip, data_backward, data_zero_grad.
  - apply data_zero_grad.
Qed.

Lemma same_static_trans (l1 l2 l3 : Learner) :
  same_static l1 l2 -> same_static l2 l3 -> same_static l1 l3.
Proof.
  intros (a1 & b1 & c1 & d1 & e1 & f1 & g1) (a2 & b2 & c2 & d2 & e2 & f2 & g2).
  repeat split; congruence.
Qed.

Lemma polyak_only_static (cfg : Config) (l0 l : Learner) :
  polyak_only cfg l0 l -> same_static l0 l.
Proof.
  induction 1 as [| l1 l2 _ IH Hst | l1 _ IH].
  - repeat split; reflexivity.
  - eapply same_static_trans; [exact IH | apply Hst].
  - eapply same_static_trans; [exact IH | apply polyak_pass_static].
Qed.

Lemma optimizers_ok_static (cfg : Config) (l l' : Learner) :
  same_static l l' -> optimizers_ok cfg l -> optimizers_ok cfg l'.
Proof.
  intros (a & b & c & d & e & f & g) (H1 & H2 & H3 & H4).
  unfold optimizers_ok. rewrite a, c, d, e, f. auto.
Qed.

Lemma init_optimizers_ok (W : World) (cfg : Config) (m : ModelData)
    (l : Learner) :
  init_learner W cfg m = Ok l -> optimizers_ok cfg l.
Proof.
  intros H. destruct (init_learner_ok W cfg m l H) as (Hlr & Hpi & Hq).
  rewrite (init_learner_eq W cfg m Hlr Hpi Hq) in H. inversion H; subst l; clear H.
  unfold optimizers_ok. cbn [pi_optimizer q_optimizer alpha_optimizer ac log_alpha].
  repeat split.
  destruct (init_parameters m) as [-> _]. rewrite elem_of_seq. lia.
Qed.

Lemma init_temperature_ok (W : World) (cfg : Config) (m : ModelData)
    (l : Learner) :
  init_learner W cfg m = Ok l -> temperature_ok W cfg l.
Proof.
  intros H. destruct (init_learner_ok W cfg m l H) as (Hlr & Hpi & Hq).
  rewrite (init_learner_eq W cfg m Hlr Hpi Hq) in H. inversion H; subst l; clear H.
  unfold temperature_ok. cbn [alpha heap log_alpha].
  destruct (use_alpha_annealing cfg) eqn:E; [| reflexivity].
  unfold init_heap, param_at. rewrite E, lookup_insert_eq. reflexivity.
Qed.

Lemma init_tuned (W : World) (cfg : Config) (m : ModelData) (l : Learner) :
  init_learner W cfg m = Ok l -> tuned W cfg l.
Proof.
  intros H. split; [eapply init_learner_inv; eassumption |].
  split; [eapply init_optimizers_ok | eapply init_temperature_ok]; eassumption.
Qed.

Lemma critics_not_policy (l : Learner) (j : nat) :
  static_ok l -> j ∈ ac_q1 (ac l) ++ ac_q2 (ac l) ->
  j ∉ ac_pi (ac l) ++ ac_memory (ac l).
Proof.
  intros (Hnd & _) Hq Hp. apply NoDup_app in Hnd as (Hnd & _).
  unfold parameters in Hnd.
  apply NoDup_app in Hnd as (_ & D1 & Hnd).
  rewrite app_assoc in Hnd. apply NoDup_app in Hnd as (_ & D2 & _).
  apply elem_of_app in Hp as [Hp | Hp].
  - apply (D1 j Hp). rewrite app_assoc. apply elem_of_app. now left.
  - exact (D2 j Hq Hp).
Qed.

(** X4.  The critic step moves the critics only: the policy head, the memory,
    the target network and [log_alpha] hold the same values after it,
    whether it completes or the loss raises. *)
Theorem critic_step_moves_critics_only (W : World) (cfg : Config)
    (m : ModelData) (l0 l : Learner) (episode : Batch) :
  init_learner W cfg m = Ok l0 ->
  polyak_only cfg l0 l ->
  forall j, j ∉ ac_q1 (ac l) ++ ac_q2 (ac l) ->
    data (param_at (heap (snd (critic_step W cfg episode l))) j)
    = data (param_at (heap l) j).
Proof.
  intros Hinit Hpo j Hj.
  pose proof (optimizers_ok_static cfg l0 l (polyak_only_static cfg l0 l Hpo)
                (init_optimizers_ok W cfg m l0 Hinit)) as (_ & Hq & _).
  apply critic_step_data. now rewrite Hq.
Qed.

(** X5.  The policy step moves the policy head and the memory only.  The
    critics are not frozen while it runs, and the second
    [clip_grad_norm_] rescales the gradients the critic step left on them,
    but their values stay as the critic step left them. *)
Theorem policy_step_spares_critics (W : World) (cfg : Config)
    (m : ModelData) (l0 l : Learner) (episode : Batch) :
  init_learner W cfg m = Ok l0 ->
  polyak_only cfg l0 l ->
  let l' := snd (policy_step W cfg episode l) in
  (forall j, j ∉ ac_pi (ac l) ++ ac_memory (ac l) ->
     data (param_at (heap l') j) = data (param_at (heap l) j)) /\
  (forall j, j ∈ ac_q1 (ac l) ++ ac_q2 (ac l) ->
     data (param_at (heap l') j) = data (param_at (heap l) j)).
Proof.
  intros Hinit Hpo l'.
  pose proof (optimizers_ok_static cfg l0 l (polyak_only_static cfg l0 l Hpo)
                (init_optimizers_ok W cfg m l0 Hinit)) as (Hp & _).
  pose proof (learner_inv_polyak_only cfg l0 l
                (init_learner_inv W cfg m l0 Hinit) Hpo) as (Hs & _).
  assert (H : forall j, j ∉ ac_pi (ac l) ++ ac_memory (ac l) ->
                data (param_at (heap l') j) = data (param_at (heap l) j)).
  { intros j Hj. apply policy_step_data. now rewrite Hp. }
  split; [exact H |].
  intros j Hj. apply H. now apply critics_not_policy.
Qed.

(** ** The temperature *)

Lemma temperature_ok_eq (W : World) (cfg : Config) (l l' : Learner) :
  alpha l' = alpha l -> log_alpha l' = log_alpha l ->
  data (param_at (heap l') (log_alpha l)) = data (param_at (heap l) (log_alpha l)) ->
  temperature_ok W cfg l -> temperature_ok W cfg l'.
Proof.
  unfold temperature_ok. intros -> -> ->. auto.
Qed.

Lemma critic_step_alpha (W : World) (cfg : Config) (ep : Batch) (l : Learner) :
  alpha (snd (critic_step W cfg ep l)) = alpha l /\
  log_alpha (snd (critic_step W cfg ep l)) = log_alpha l.
Proof.
  rewrite critic_step_eq.
  destruct (compute_critic_loss W cfg l ep) as [[loss info] | e];
    split; reflexivity.
Qed.

Lemma policy_step_alpha (W : World) (cfg : Config) (ep : Batch) (l : Learner) :
  alpha (snd (policy_step W cfg ep l)) = alpha l /\
  log_alpha (snd (policy_step W cfg ep l)) = log_alpha l.
Proof.
  rewrite policy_step_eq. cbv zeta.
  destruct (compute_policy_loss W cfg _ ep) as [[loss logp] | e];
    split; reflexivity.
Qed.

Lemma alpha_step_temperature (W : World) (cfg : Config) (logp : Tensor)
    (l : Learner) :
  temperature_ok W cfg (snd (alpha_step W cfg logp l)).
Proof.
  unfold alpha_step, temperature_ok.
  destruct (use_alpha_annealing cfg); unfold bind, get, modify, ret; reflexivity.
Qed.

Lemma log_alpha_not_optimized (l : Learner) :
  static_ok l -> (log_alpha l ∉ parameters (ac l)) ->
  (log_alpha l ∉ pi_optimizer l) /\ (log_alpha l ∉ q_optimizer l).
Proof.
  intros (_ & _ & _ & O & _) Hn.
  split; intros H; apply Hn, O, elem_of_app; [now left | now right].
Qed.

Lemma update_episode_temperature (W : World) (cfg : Config) (ep : Batch)
    (al : option Q) (l : Learner) :
  static_ok l -> (log_alpha l ∉ parameters (ac l)) -> temperature_ok W cfg l ->
  temperature_ok W cfg (snd (update_episode W cfg ep al l)).
Proof.
  intros Hs Hn Ht. unfold update_episode. unfold bind at 1.
  pose proof (critic_step_online W cfg ep l Hs) as H1.
  pose proof (critic_step_alpha W cfg ep l) as [A1 L1].
  pose proof (critic_step_data W cfg ep l (log_alpha l)
                (proj2 (log_alpha_not_optimized l Hs Hn))) as D1.
  destruct (critic_step W cfg ep l) as [[[] | e] l1]; cbn [snd] in *;
    [| eapply temperature_ok_eq; eassumption].
  assert (Ht1 : temperature_ok W cfg l1)
    by (eapply temperature_ok_eq; eassumption).
  assert (Hs1 : static_ok l1) by (eapply static_ok_stable; eassumption).
  assert (Hn1 : log_alpha l1 ∉ parameters (ac l1)).
  { destruct H1 as ((a & _) & _). now rewrite L1, a. }
  unfold bind at 1. unfold modify at 1.
  rewrite for_q_params_exhausted by apply Hs1.
  unfold bind at 1.
  pose proof (policy_step_online W cfg ep l1 Hs1) as H2.
  pose proof (policy_step_alpha W cfg ep l1) as [A2 L2].
  pose proof (policy_step_data W cfg ep l1 (log_alpha l1)
                (proj1 (log_alpha_not_optimized l1 Hs1 Hn1))) as D2.
  destruct (policy_step W cfg ep l1) as [[logp | e] l2]; cbn [snd] in *;
    [| eapply temperature_ok_eq; eassumption].
  assert (Hs2 : static_ok l2) by (eapply static_ok_stable; eassumption).
  unfold bind at 1. unfold modify at 1.
  rewrite for_q_params_exhausted by apply Hs2.
  unfold bind at 1.
  pose proof (alpha_step_temperature W cfg logp l2) as H3.
  destruct (alpha_step W cfg logp l2) as [[a | e] l3]; exact H3.
Qed.

Lemma episodes_temperature (W : World) (cfg : Config) (batch : list Batch) :
  forall (al : option Q) (l : Learner),
    static_ok l -> (log_alpha l ∉ parameters (ac l)) -> temperature_ok W cfg l ->
    temperature_ok W cfg (snd (for_each batch (update_episode W cfg) al l)).
Proof.
  induction batch as [| ep batch IH]; intros al l Hs Hn Ht; simpl.
  - exact Ht.
  - unfold bind.
    pose proof (update_episode_online W cfg ep al l Hs) as H.
    pose proof (update_episode_temperature W cfg ep al l Hs Hn Ht) as H'.
    destruct (update_episode W cfg ep al l) as [[a | e] l1]; cbn [snd] in *;
      [| exact H'].
    apply IH; [eapply static_ok_stable; eassumption | | exact H'].
    destruct H as ((a1 & _ & _ & _ & _ & f1 & _) & _). now rewrite f1, a1.
Qed.

Lemma polyak_pass_temperature (W : World) (cfg : Config) (l : Learner) :
  static_ok l -> temperature_ok W cfg l -> temperature_ok W cfg (polyak_pass cfg l).
Proof.
  intros Hs Ht.
  apply (temperature_ok_eq W cfg l (polyak_pass cfg l));
    [reflexivity | reflexivity | | exact Ht].
  destruct (polyak_pass_spec cfg l Hs) as [H _].
  unfold param_at. rewrite H; [reflexivity | apply Hs].
Qed.

Lemma update_on_tuned (W : World) (cfg : Config) (batch : list Batch)
    (l : Learner) :
  tuned W cfg l -> tuned W cfg (snd (update_on W cfg batch l)).
Proof.
  intros (Hl & Ho & Ht).
  pose proof (update_on_polyak_only W cfg batch l (proj1 Hl)) as Hpo.
  split; [eapply learner_inv_polyak_only; eassumption |].
  split; [eapply optimizers_ok_static; [apply (polyak_only_static cfg l) |]; eassumption |].
  rewrite update_on_eq.
  pose proof (episodes_online W cfg batch None l (proj1 Hl)) as Hon.
  pose proof (episodes_temperature W cfg batch None l (proj1 Hl) (proj2 (proj2 (proj2 Ho))) Ht)
    as Hep.
  destruct (for_each batch (update_episode W cfg) None l) as [[[a |] | e] l1];
    cbn [snd] in *; try exact Hep.
  apply polyak_pass_temperature; [| exact Hep].
  eapply static_ok_stable; [apply Hl | exact Hon].
Qed.

(** ** Properties of the networks in every reachable state *)

Lemma train_agent_learner (W : World) (P : SAC -> Prop) :
  (forall s, P s -> P (snd (update W s))) ->
  (forall s s', cfg s' = cfg s -> learner s' = learner s -> P s -> P s') ->
  forall env_ s, P s -> P (snd (train_agent W env_ s)).
Proof.
  intros Hup Hfr env_ s Hs.
  assert (Htr : forall epoch tr c,
             hoare P (train_trajectory W epoch tr c) (fun _ => P) (fun _ => P)).
  { intros epoch tr c st Hst.
    unfold train_trajectory. unfold bind at 1. unfold get at 1.
    unfold bind at 1. unfold modify at 1.
    unfold bind at 1. unfold modify at 1. unfold bind at 1.
    set (t0 := mkTrajectory Training tr (env st) (c_h_out c) (c_a2 c) (c_r2 c) nil).
    set (s1 := mark_trajectory t0 (call_env (env st) EReset st)).
    set (e0 := mkRollout _ false 0%Q 0).
    destruct (train_while_trace W (max_ep_len (cfg st)) s1 c e0 t0 (ghost st))
      as (c' & e' & s2 & t' & Ew & _ & _ & _ & _ & Hcfg2 & Hl2 & _).
    { reflexivity. }
    { unfold running_ok. simpl. repeat split; auto; try constructor; lia. }
    { simpl. lia. }
    rewrite Ew.
    assert (Hn2 : P s2) by (apply (Hfr st s2); assumption).
    unfold bind at 1. unfold lift at 1.
    destruct (update_due (update_every (cfg st)) tr) as [due | e]; [| exact Hn2].
    unfold bind at 1. destruct due.
    - pose proof (Hup s2 Hn2) as H.
      destruct (update_then_log_char W epoch tr s2) as (res & Eul & _).
      rewrite Eul. destruct res as [[] | e]; exact H.
    - exact Hn2. }
  assert (Hep : forall epoch c,
             hoare P (train_epoch W epoch c) (fun _ => P) (fun _ => P)).
  { intros epoch c st Hst. unfold train_epoch.
    unfold bind at 1. unfold get at 1. unfold bind at 1.
    pose proof (hoare_for_each (fun _ _ => P) (fun _ => P)
                  (train_trajectory W epoch)
                  (fun x _ a => Htr epoch x a)
                  (seq 0 (number_of_trajectories (cfg st)))
                  (mkCarry (zeros (hidden_size (cfg st)))
                     (zeros (hidden_size (cfg st))) (c_a2 c) (c_r2 c)) st Hst)
      as H.
    destruct (for_each _ _ _ _) as [[c1 | e] s1]; [| exact H].
    unfold bind, modify, ret. cbn [fst snd].
    apply (Hfr s1); [reflexivity | reflexivity | exact H]. }
  destruct (train_agent W env_ s) as [res s'] eqn:Eres. cbn [snd].
  revert Eres. unfold train_agent.
  unfold bind at 1. unfold modify at 1.
  unfold bind at 1. unfold get at 1. unfold bind at 1.
  assert (Hs1 : P (set_env env_ s)) by (apply (Hfr s); [reflexivity | reflexivity | exact Hs]).
  pose proof (hoare_for_each (fun _ _ => P) (fun _ => P) (train_epoch W)
                (fun x _ a => Hep x a)
                (seq 0 (epochs (cfg (set_env env_ s))))
                (mkCarry nil nil 0 0%Q) (set_env env_ s) Hs1) as H.
  destruct (for_each _ _ _ _) as [[c1 | e] s1];
    unfold ret; intros Eres; inversion Eres; subst; exact H.
Qed.

Lemma reachable_learner (W : World) (P : Config -> Learner -> Prop) :
  (forall cfg batch l, P cfg l -> P cfg (snd (update_on W cfg batch l))) ->
  forall s0 s, P (cfg s0) (learner s0) -> reachable W s0 s ->
    cfg s = cfg s0 /\ P (cfg s0) (learner s).
Proof.
  intros Hup s0 s H0 Hr.
  set (R := fun st : SAC => cfg st = cfg s0 /\ P (cfg s0) (learner st)).
  assert (Hu : forall st, R st -> R (snd (update W st))).
  { intros st [Hc Hp]. split.
    - destruct (update_frame W st) as (_ & H & _). now rewrite H.
    - rewrite update_learner, Hc. apply Hup, Hp. }
  assert (Hf : forall st st', cfg st' = cfg st -> learner st' = learner st ->
                 R st -> R st').
  { intros st st' Hc Hl [H1 H2]. split; [congruence | now rewrite Hl]. }
  induction Hr.
  - split; [reflexivity | exact H0].
  - apply Hu, IHHr.
  - apply (train_agent_learner W R Hu Hf), IHHr.
  - destruct (test_agent_trace W te n ri gr s) as (new & added & _ & H).
    cbv zeta in H. destruct H as (H1 & _ & _ & H4 & _).
    apply (Hf s); [exact H1 | exact H4 | exact IHHr].
Qed.

(** ** The target network in every reachable state *)

Lemma updates_only_polyak_only (W : World) (cfg : Config) (l0 l : Learner) :
  learner_inv l0 -> updates_only W cfg l0 l -> polyak_only cfg l0 l.
Proof.
  intros Hl0 H. induction H as [| l1 batch _ IH]; [apply po_refl |].
  eapply polyak_only_trans; [exact IH |].
  apply update_on_polyak_only.
  apply (learner_inv_polyak_only cfg l0 l1 Hl0 IH).
Qed.

Lemma update_on_smooths_or_keeps (W : World) (cfg : Config)
    (batch : list Batch) (l : Learner) :
  learner_inv l -> smooths_or_keeps W cfg batch l.
Proof.
  intros (Hs & Hf & Ha). unfold smooths_or_keeps. cbv zeta.
  rewrite update_on_eq.
  pose proof (episodes_online W cfg batch None l Hs) as Hon.
  destruct (for_each batch (update_episode W cfg) None l)
    as [[[al |] | e] l1] eqn:Eloop; cbn [fst snd] in *;
    destruct Hon as ((Hac & Ht & Hrest) & Hk & Hsh & Hfl);
    (split; [exact Hk |]); try exact Hk.
  assert (Hs1 : static_ok l1).
  { eapply static_ok_stable; [exact Hs |].
    repeat split; assumption || apply Hrest. }
  destruct (polyak_pass_spec cfg l1 Hs1) as [_ P2].
  intros k p pt Hp Hpt.
  assert (Hin : pt ∈ parameters (ac_targ l))
    by (eapply list_elem_of_lookup_2; eassumption).
  destruct (Hf pt Hin) as [Hflag _]. unfold param_at in Hflag.
  destruct (heap l !! pt) as [T |] eqn:ET; [| simpl in Hflag; discriminate].
  exists T. split; [reflexivity |].
  rewrite (P2 k p pt) by congruence.
  now rewrite (Hk pt Hin), ET.
Qed.

(** C3.  After [__init__] the target network is an exact copy of the
    online one at handles of its own: aligned tensors hold the same data
    and no handle belongs to both networks.  In every state the agent can
    reach through [update], [train_agent] and [test_agent] the target
    tensors have [requires_grad] off and no gradient and no optimizer
    holds one of them, and the networks have come from the initial ones
    through calls of [update] alone.  A call of [update] leaves the target
    tensors bit for bit as they are while it processes the episodes; after
    that it either raises, and they are still untouched, or it returns
    after one smoothing pass, which puts
    [polyak * old + (1 - polyak) * online] into each of them. *)
Theorem target_network_discipline (W : World) (cfg_ : Config) (m : ModelData)
    (env_ : nat) :
  (0 <= lr cfg_)%Q ->
  0 < length (m_pi m) + length (m_memory m) ->
  0 < length (m_q1 m) + length (m_q2 m) ->
  exists s0, init W cfg_ m env_ = Ok s0 /\
    let l0 := learner s0 in
    length (parameters (ac_targ l0)) = length (parameters (ac l0)) /\
    NoDup (parameters (ac l0) ++ parameters (ac_targ l0)) /\
    (forall k p pt,
       parameters (ac l0) !! k = Some p ->
       parameters (ac_targ l0) !! k = Some pt ->
       p <> pt /\ data (param_at (heap l0) pt) = data (param_at (heap l0) p)) /\
    (forall s, reachable W s0 s -> updates_only W cfg_ l0 (learner s)) /\
    (forall l, updates_only W cfg_ l0 l ->
       frozen l /\ excluded l /\
       forall batch, smooths_or_keeps W cfg_ batch l).
Proof.
  intros Hlr Hpi Hq. unfold init.
  pose proof (init_learner_eq W cfg_ m Hlr Hpi Hq) as E. rewrite E. simpl.
  eexists. split; [reflexivity |]. cbn [learner].
  set (l0 := mkLearner _ _ _ _ _ _ _ _ _ _ _) in *.
  pose proof (init_learner_inv W cfg_ m l0 E) as Hinv.
  pose proof Hinv as (Hs & Hf & Ha).
  split; [symmetry; apply Hs |]. split; [apply Hs |].
  split; [| split].
  - intros k p pt Hp Hpt.
    destruct (init_pair W cfg_ m l0 k p pt E Hp Hpt)
      as (d & Hd & -> & -> & Ho & Ht).
    split.
    + apply lookup_lt_Some in Hd. rewrite model_data_length in Hd. lia.
    + unfold param_at. now rewrite Ho, Ht.
  - intros s Hr.
    set (s0 := mkSAC cfg_ l0 env_ None nil nil 0 0 0 0 0 0 nil) in *.
    apply (reachable_learner W (fun c l => updates_only W c l0 l)
             (fun c batch l H => uo_update W c l0 l batch H) s0 s
             (uo_refl W cfg_ l0) Hr).
  - intros l Hl.
    pose proof (learner_inv_polyak_only cfg_ l0 l Hinv
                  (updates_only_polyak_only W cfg_ l0 l Hinv Hl)) as Hinv'.
    split; [apply Hinv' |]. split; [apply excluded_static, Hinv' |].
    intros batch. now apply update_on_smooths_or_keeps.
Qed.

(** X6.  In every state the agent can reach, [self.alpha] is the constant 0.2
    when the temperature is not annealed, and the exponential of the
    current value of [log_alpha] when it is: [update] re-derives it after
    every step of the temperature optimizer, and no other optimizer, nor
    the smoothing pass, touches [log_alpha].  (Values are exact here; the
    rounding of the float that [__init__] stores and of the tensor that
    [update] stores is not modelled.) *)
Theorem temperature_follows_log_alpha (W : World) (cfg_ : Config)
    (m : ModelData) (env_ : nat) (s0 s : SAC) :
  init W cfg_ m env_ = Ok s0 ->
  reachable W s0 s ->
  alpha (learner s)
  = if use_alpha_annealing cfg_
    then exp_ W (item (data (param_at (heap (learner s)) (log_alpha (learner s)))))
    else 0.2%Q.
Proof.
  intros Hinit Hr. unfold init in Hinit.
  destruct (init_learner W cfg_ m) as [l0 |] eqn:El; [| discriminate].
  simpl in Hinit. inversion Hinit; subst s0; clear Hinit.
  set (s0 := mkSAC cfg_ l0 env_ None nil nil 0 0 0 0 0 0 nil) in *.
  pose proof (reachable_learner W (tuned W) (update_on_tuned W) s0 s
                (init_tuned W cfg_ m l0 El) Hr) as (_ & _ & _ & Ht).
  exact Ht.
Qed.

(** ** One smoothing pass, entry by entry *)




(** ** What a completed [update] says about the batch *)

Lemma view_hidden_ok (n : nat) (t r : Tensor) :
  view_hidden n t = Ok r -> numel t = n.
Proof.
  unfold view_hidden. destruct (Nat.eqb_spec (numel t) n); [auto | discriminate].
Qed.

Lemma compute_critic_loss_ok (W : World) (cfg : Config) (l : Learner)
    (batch : Batch) r :
  compute_critic_loss W cfg l batch = Ok r ->
  numel (b_hid_out batch) = hidden_size cfg.
Proof.
  unfold compute_critic_loss.
  destruct (view_hidden _ _) eqn:E; simpl; [| discriminate].
  intros _. eapply view_hidden_ok; eassumption.
Qed.

Lemma compute_policy_loss_ok (W : World) (cfg : Config) (l : Learner)
    (batch : Batch) r :
  compute_policy_loss W cfg l batch = Ok r ->
  numel (b_hid batch) = hidden_size cfg.
Proof.
  unfold compute_policy_loss.
  destruct (view_hidden _ _) eqn:E; simpl; [| discriminate].
  intros _. eapply view_hidden_ok; eassumption.
Qed.

Lemma update_episode_ok (W : World) (cfg : Config) (ep : Batch)
    (al r : option Q) (l l' : Learner) :
  update_episode W cfg ep al l = (Ok r, l') ->
  numel (b_hid_out ep) = hidden_size cfg /\ numel (b_hid ep) = hidden_size cfg.
Proof.
  unfold update_episode. unfold bind at 1. rewrite critic_step_eq.
  destruct (compute_critic_loss W cfg l ep) as [[loss info] | e] eqn:Ec;
    [| discriminate].
  apply compute_critic_loss_ok in Ec.
  cbv beta iota. unfold bind at 1. unfold modify at 1.
  unfold bind at 1. rewrite policy_step_eq. cbv zeta.
  match goal with
  | |- context [compute_policy_loss W cfg ?l1 ep] =>
      destruct (compute_policy_loss W cfg l1 ep) as [[lp logp] | e] eqn:Ep
  end; [| discriminate].
  apply compute_policy_loss_ok in Ep. intros _. split; assumption.
Qed.

Lemma episodes_ok (W : World) (cfg : Config) (batch : list Batch) :
  forall (al r : option Q) (l l' : Learner),
    for_each batch (update_episode W cfg) al l = (Ok r, l') ->
    Forall (fun ep => numel (b_hid_out ep) = hidden_size cfg /\
                      numel (b_hid ep) = hidden_size cfg) batch.
Proof.
  induction batch as [| ep batch IH]; intros al r l l' H; simpl in H.
  - constructor.
  - unfold bind in H.
    destruct (update_episode W cfg ep al l) as [[a | e] l1] eqn:E;
      [| discriminate].
    constructor; [eapply update_episode_ok; eassumption |].
    eapply IH; eassumption.
Qed.

(** X8.  [update] can only return when the buffer handed over at least one
    episode and every episode carries exactly one recurrent state: both
    [hid] and [hid_out] hold [hidden_size] entries, whatever the number of
    transitions of the episode (they are viewed as [(1, 1, hidden_size)]). *)
Theorem update_needs_one_state_per_episode (W : World) (s : SAC) :
  fst (update W s) = Ok tt ->
  let batch := buffer_get W (buffer s) (batch_size (cfg s)) in
  batch <> nil /\
  Forall (fun ep => numel (b_hid_out ep) = hidden_size (cfg s) /\
                    numel (b_hid ep) = hidden_size (cfg s)) batch.
Proof.
  intros H batch.
  assert (Er : fst (update W s) = fst (update_on W (cfg s) batch (learner s))).
  { unfold update. cbn [cfg learner call_buffer]. fold batch.
    destruct (update_on _ _ _ _); reflexivity. }
  rewrite Er, update_on_eq in H.
  destruct (for_each batch (update_episode W (cfg s)) None (learner s))
    as [[[al |] | e] l1] eqn:Eloop; simpl in H; try discriminate.
  split.
  - destruct (episodes_bind_alpha_loss W (cfg s) batch None (Some al) _ _ Eloop)
      as [(_ & Habs & _) | (Hne & _)]; [discriminate | exact Hne].
  - eapply episodes_ok; eassumption.
Qed.

(** ** Gradients left over from the cycle before *)

Lemma tracked_critics_not_policy (l : Learner) (h : gmap nat Param) (j : nat) :
  static_ok l -> j ∈ ac_pi (ac l) ++ ac_memory (ac l) ->
  j ∉ tracked h (ac_q1 (ac l) ++ ac_q2 (ac l)).
Proof.
  intros Hs Hj Hin. apply tracked_subset in Hin.
  exact (critics_not_policy l j Hs Hin Hj).
Qed.

(** X9.  [q_optimizer.zero_grad()] clears the gradients of the critics only,
    while [clip_grad_norm_] works on all the parameters of the online
    network.  So when the critic step completes, the policy head and the
    memory still hold the gradients that the cycle before left on them,
    rescaled by the clipping factor of this step. *)
Theorem critic_step_rescales_stale_policy_gradients (W : World) (cfg : Config)
    (m : ModelData) (l0 l : Learner) (episode : Batch) :
  init_learner W cfg m = Ok l0 ->
  polyak_only cfg l0 l ->
  fst (critic_step W cfg episode l) = Ok tt ->
  forall j, j ∈ ac_pi (ac l) ++ ac_memory (ac l) ->
    grad (param_at (heap (snd (critic_step W cfg episode l))) j)
    = option_map (map (fun x => x * clip_coef W (S (clock l)) (clip_ratio cfg))%Q)
        (grad (param_at (heap l) j)).
Proof.
  intros Hinit Hpo Hok j Hj.
  pose proof (optimizers_ok_static cfg l0 l (polyak_only_static cfg l0 l Hpo)
                (init_optimizers_ok W cfg m l0 Hinit)) as (_ & Hq & _).
  pose proof (learner_inv_polyak_only cfg l0 l
                (init_learner_inv W cfg m l0 Hinit) Hpo) as (Hs & _).
  assert (Hnq : j ∉ q_optimizer l).
  { rewrite Hq. intros Hin. exact (critics_not_policy l j Hs Hin Hj). }
  assert (Hjp : j ∈ parameters (ac l)).
  { unfold parameters. rewrite !elem_of_app. apply elem_of_app in Hj. tauto. }
  assert (Hnd : NoDup (parameters (ac l))).
  { destruct Hs as (Hnd & _). now apply NoDup_app in Hnd as (Hnd & _). }
  rewrite critic_step_eq in Hok |- *.
  destruct (compute_critic_loss W cfg l episode) as [[loss info] | e] eqn:E;
    [| discriminate].
  apply critic_loss_leaves in E. cbn [snd].
  unfold step. cbn [heap tick set_heap].
  rewrite param_at_alter_all_notin by exact Hnq.
  unfold clip_grad_norm_. cbn [heap tick set_heap ac clock backward zero_grad].
  unfold param_at at 1. rewrite alter_all_in by assumption.
  rewrite alter_all_notin.
  2:{ rewrite <- list_elem_of_In, E. now apply tracked_critics_not_policy. }
  rewrite alter_all_notin by (rewrite <- list_elem_of_In; exact Hnq).
  unfold param_at. destruct (heap l !! j) as [p |]; reflexivity.
Qed.

(** ** Counting: one training step *)

Lemma trace_steps_add (r : StepRecord) (t : Trajectory) (older : list Trajectory) :
  trace_steps (add_step r (t :: older)) = trace_steps (t :: older) ++ r :: nil.
Proof. simpl. now rewrite app_assoc. Qed.

Lemma trace_transitions_steps (new : list Trajectory) :
  trace_transitions new = map sr_step (trace_steps new).
Proof.
  induction new as [| t older IH]; simpl; [reflexivity |].
  rewrite IH, map_app. unfold traj_transitions. now rewrite map_rev.
Qed.

Lemma train_step_counters (W : World) (s : SAC) (c : Carry) (e : Rollout) :
  exists r s' c' e',
    train_step W s c e = (s', c', e') /\
    ghost s' = add_step r (ghost s) /\
    cfg s' = cfg s /\
    global_steps s' = S (global_steps s) /\
    global_test_steps s' = global_test_steps s /\
    test_env s' = test_env s /\
    tallies s' = tallies s /\
    sr_global_steps r = global_steps s /\
    c_h_out c' = t_hidden_out (sr_step r) /\
    t_hidden_in (sr_step r) = c_h_out c /\
    (if start_steps (cfg s) <? global_steps s
     then rng s' = S (rng s) /\ sample_calls (env_log s') = sample_calls (env_log s)
     else t_hidden_out (sr_step r) = c_h_out c /\ rng s' = rng s /\
          sample_calls (env_log s') = S (sample_calls (env_log s))) /\
    ro_ep_len e' = S (ro_ep_len e) /\
    t_obs (sr_step r) = ro_o e /\ ro_o e' = t_next_obs (sr_step r) /\
    step_logs W s s' r.
Proof.
  unfold train_step, train_action, get_action.
  destruct (start_steps (cfg s) <? global_steps s) eqn:Ewarm.
  - destruct (explore W (rng s) (online_theta s) (ro_o e) (c_a2 c) (c_r2 c)
                (c_h_out c)) as [a h] eqn:Eex.
    cbn [env cfg draw env_log].
    destruct (env_step W (env s) (history (env_log s) (env s)) a)
      as [[[o2 r] ter] trunc] eqn:Eenv.
    cbn [env cfg env_log draw call_env call_buffer].
    rewrite Nat.add_1_r.
    remember (if S (ro_ep_len e) =? max_ep_len (cfg s) then false else ter || trunc)
      as d eqn:Ed.
    remember (d || (S (ro_ep_len e) =? max_ep_len (cfg s))) as fin eqn:Efin.
    eexists. eexists. eexists. eexists. split; [reflexivity |].
    destruct fin; cbn;
      (repeat match goal with |- _ /\ _ => split end; try reflexivity;
       try (unfold tallies, get_calls, buffer_resets, sample_calls; cbn;
            rewrite ?List.filter_app, ?length_app; cbn; rewrite ?Nat.add_0_r;
            reflexivity));
      (unfold step_logs, rollout_calls, step_calls, step_buffer_calls; cbn;
       rewrite <- ?app_assoc, ?List.filter_app, ?length_app; cbn;
       rewrite ?app_nil_r;
       split; [reflexivity |]; split; [reflexivity |];
       split; [eexists; reflexivity |]; split; [lia |];
       exists (env_log s), nil; split; [reflexivity | exact Eenv]).
  - cbn [env cfg call_env env_log].
    set (a := env_sample W (env s) (history (env_log s) (env s))).
    destruct (env_step W (env s)
                (history (env_log s ++ (env s, ESample) :: nil) (env s)) a)
      as [[[o2 r] ter] trunc] eqn:Eenv.
    cbn [env cfg env_log draw call_env call_buffer].
    rewrite Nat.add_1_r.
    remember (if S (ro_ep_len e) =? max_ep_len (cfg s) then false else ter || trunc)
      as d eqn:Ed.
    remember (d || (S (ro_ep_len e) =? max_ep_len (cfg s))) as fin eqn:Efin.
    eexists. eexists. eexists. eexists. split; [reflexivity |].
    destruct fin; cbn;
      (repeat match goal with |- _ /\ _ => split end; try reflexivity;
       try (unfold tallies, get_calls, buffer_resets, sample_calls; cbn;
            rewrite ?List.filter_app, ?length_app; cbn; rewrite ?Nat.add_0_r;
            try reflexivity; lia));
      (unfold step_logs, rollout_calls, step_calls, step_buffer_calls; cbn;
       rewrite <- ?app_assoc, ?List.filter_app, ?length_app; cbn;
       rewrite ?app_nil_r;
       split; [reflexivity |]; split; [reflexivity |];
       split; [eexists; reflexivity |]; split; [lia |];
       exists (env_log s ++ (env s, ESample) :: nil), nil;
       split; [now rewrite <- app_assoc | exact Eenv]).
Qed.

Lemma answered_app (W : World) (log more : list (nat * EnvCall))
    (r : StepRecord) :
  answered W log r -> answered W (log ++ more) r.
Proof.
  intros (pre & post & -> & H). exists pre, (post ++ more).
  split; [now rewrite <- app_assoc | exact H].
Qed.

Lemma train_step_steps_inv (W : World) (s0 s : SAC) (c : Carry) (e : Rollout)
    (t : Trajectory) (older : list Trajectory) :
  steps_inv W s0 s (t :: older) -> warm_carry s0 s c -> obs_carry t e ->
  exists r s' c' e',
    train_step W s c e = (s', c', e') /\
    steps_inv W s0 s' (add_step r (t :: older)) /\ warm_carry s0 s' c' /\
    tallies s' = tallies s /\ ro_ep_len e' = S (ro_ep_len e) /\
    ro_o e' = t_next_obs (sr_step r).
Proof.
  intros (Hcfg & Hgh & Hgs & Hseq & Hzero & Hrng & Hsam & Hgts & Hte & Hobs
          & Hroll & Hstep & Hans)
         Hwarm Hoc.
  destruct (train_step_counters W s c e)
    as (r & s' & c' & e' & Est & Hgh' & Hcfg' & Hgs' & Hgts' & Hte' & Htal & Hr
        & Hout & Hin & Hbr & Hlen & Hro & Hro'
        & (_ & Hroll' & (extra & Hlog') & Hstep' & Hans')).
  exists r, s', c', e'. split; [exact Est |].
  rewrite Hcfg in Hbr.
  assert (Hw : is_warm_up (cfg s0) r = negb (start_steps (cfg s0) <? global_steps s)).
  { unfold is_warm_up. rewrite Hr.
    destruct (Nat.leb_spec (global_steps s) (start_steps (cfg s0)));
      destruct (Nat.ltb_spec (start_steps (cfg s0)) (global_steps s));
      simpl; try reflexivity; lia. }
  split; [| split; [| split; [exact Htal | split; [exact Hlen | exact Hro']]]].
  - unfold steps_inv. rewrite trace_steps_add.
    set (steps := trace_steps (t :: older)) in *. cbv zeta in *.
    rewrite length_app, map_app, !List.filter_app, !length_app. cbn [length map].
    split; [congruence |].
    split; [rewrite Hgh', Hgh; reflexivity |].
    split; [lia |].
    split.
    { rewrite Nat.add_1_r, seq_S, Hseq, Hr, Hgs. reflexivity. }
    split.
    { apply Forall_app. split; [exact Hzero |]. constructor; [| constructor].
      intros Hwu. rewrite Hw in Hwu.
      destruct (start_steps (cfg s0) <? global_steps s) eqn:E; [discriminate |].
      apply Nat.ltb_ge in E. destruct Hbr as (Ho & _).
      unfold zero_state. rewrite Ho, Hin. split; apply Hwarm, E. }
    split.
    { cbn [List.filter]. rewrite Hw, negb_involutive.
      destruct (start_steps (cfg s0) <? global_steps s); cbn [length];
        destruct Hbr as (? & ? & ?) || destruct Hbr as (? & ?); lia. }
    split.
    { cbn [List.filter]. rewrite Hw.
      destruct (start_steps (cfg s0) <? global_steps s); cbn [negb length];
        destruct Hbr as (? & ? & ?) || destruct Hbr as (? & ?); lia. }
    split; [congruence |]. split; [congruence |].
    split.
    { apply Forall_cons in Hobs as [Ht Holder].
      cbn [add_step]. constructor; [| exact Holder].
      cbn [tj_steps obs_linked]. split; [| exact Ht].
      unfold obs_carry in Hoc. destruct (tj_steps t); [exact I | congruence]. }
    split.
    { rewrite Hroll', Hroll, flat_map_app. cbn [flat_map].
      now rewrite app_nil_r, app_assoc. }
    split; [lia |].
    apply Forall_app. split; [| constructor; [exact Hans' | constructor]].
    eapply Forall_impl; [exact Hans |].
    intros r0 H0. rewrite Hlog'. now apply answered_app.
  - intros Hle. rewrite Hgs' in Hle.
    destruct (start_steps (cfg s0) <? global_steps s) eqn:E.
    + apply Nat.ltb_lt in E. lia.
    + destruct Hbr as (Ho & _). rewrite Hout, Ho. apply Hwarm. lia.
Qed.

(** ** Counting: one training trajectory *)

Lemma train_while_counters (W : World) (s0 : SAC) (fuel : nat) :
  forall (s : SAC) (c : Carry) (e : Rollout) (t : Trajectory)
         (older : list Trajectory),
    steps_inv W s0 s (t :: older) -> warm_carry s0 s c -> obs_carry t e ->
    max_ep_len (cfg s0) - ro_ep_len e <= fuel ->
    ro_ep_len e <= max_ep_len (cfg s0) ->
    exists c' e' s' t',
      train_while W fuel c e s = (Ok (c', e'), s') /\
      steps_inv W s0 s' (t' :: older) /\ warm_carry s0 s' c' /\
      tallies s' = tallies s.
Proof.
  induction fuel as [| fuel IH]; intros s c e t older Hinv Hwarm Hoc Hfuel Hle.
  - simpl. pose proof Hinv as (Hcfg & _). rewrite Hcfg.
    destruct (ro_d e || (ro_ep_len e =? max_ep_len (cfg s0))) eqn:Ex; simpl.
    + exists c, e, s, t. auto.
    + apply orb_false_iff in Ex as [_ Ex]. apply Nat.eqb_neq in Ex. lia.
  - simpl. pose proof Hinv as (Hcfg & _). rewrite Hcfg.
    destruct (ro_d e || (ro_ep_len e =? max_ep_len (cfg s0))) eqn:Ex; simpl.
    + exists c, e, s, t. auto.
    + apply orb_false_iff in Ex as [_ Ex]. apply Nat.eqb_neq in Ex.
      destruct (train_step_steps_inv W s0 s c e t older Hinv Hwarm Hoc)
        as (r & s1 & c1 & e1 & Est & Hinv1 & Hwarm1 & Htal1 & Hlen1 & Hoc1).
      rewrite Est. cbn [add_step] in Hinv1.
      destruct (IH s1 c1 e1 _ older Hinv1 Hwarm1 Hoc1) as
        (c' & e' & s' & t' & Ew & Hinv' & Hwarm' & Htal'); [lia | lia |].
      exists c', e', s', t'. split; [exact Ew |].
      split; [exact Hinv' |]. split; [exact Hwarm' | congruence].
Qed.

Lemma update_counters (W : World) (s : SAC) :
  let s' := snd (update W s) in
  cfg s' = cfg s /\ ghost s' = ghost s /\ global_steps s' = global_steps s /\
  rng s' = rng s /\ env_log s' = env_log s /\
  global_test_steps s' = global_test_steps s /\ test_env s' = test_env s /\
  env s' = env s /\
  get_calls (buffer s') = S (get_calls (buffer s)) /\
  buffer_resets (buffer s') = buffer_resets (buffer s) /\
  current_epoch s' = current_epoch s /\ pi_scheduler s' = pi_scheduler s /\
  q_scheduler s' = q_scheduler s /\
  rollout_calls (buffer s') = rollout_calls (buffer s).
Proof.
  unfold update. cbn [cfg learner call_buffer].
  destruct (update_on _ _ _ _) as [r l]. cbn.
  unfold get_calls, buffer_resets, rollout_calls.
  rewrite !List.filter_app, !length_app. cbn. rewrite app_nil_r.
  repeat split; lia.
Qed.

Lemma div_succ_step (m u : nat) :
  0 < u -> (m + 1) / u = m / u + (if (m + 1) mod u =? 0 then 1 else 0).
Proof.
  intros Hu.
  pose proof (Nat.div_mod_eq m u) as E1.
  pose proof (Nat.div_mod_eq (m + 1) u) as E2.
  pose proof (Nat.mod_upper_bound m u ltac:(lia)) as B1.
  pose proof (Nat.mod_upper_bound (m + 1) u ltac:(lia)) as B2.
  destruct (Nat.eqb_spec ((m + 1) mod u) 0) as [Ez | Ez]; nia.
Qed.

Lemma update_due_positive (u tr : nat) :
  0 < u -> update_due u tr = Ok ((tr + 1) mod u =? 0).
Proof.
  intros Hu. unfold update_due.
  destruct (Nat.leb_spec u (tr + 1)) as [Hle | Hgt].
  - destruct (Nat.eqb_spec u 0); [lia | reflexivity].
  - rewrite Nat.mod_small by lia. destruct (Nat.eqb_spec (tr + 1) 0); [lia |].
    reflexivity.
Qed.

Ltac pair_eq :=
  repeat match goal with |- (_, _) = (_, _) => apply f_equal2 end.

Lemma steps_inv_frame (W : World) (s0 s s' : SAC) (new : list Trajectory) :
  cfg s' = cfg s -> ghost s' = ghost s -> global_steps s' = global_steps s ->
  rng s' = rng s -> env_log s' = env_log s ->
  global_test_steps s' = global_test_steps s -> test_env s' = test_env s ->
  rollout_calls (buffer s') = rollout_calls (buffer s) ->
  steps_inv W s0 s new -> steps_inv W s0 s' new.
Proof.
  intros E1 E2 E3 E4 E5 E6 E7 E8
         (H1 & H2 & H3 & H4 & H5 & H6 & H7 & H8 & H9 & H10 & H11 & H12 & H13).
  unfold steps_inv. cbv zeta. rewrite E1, E2, E3, E4, E5, E6, E7, E8.
  repeat (split; [assumption |]). assumption.
Qed.

(** [train_agent] starts: nothing has run. *)
Lemma steps_inv_init (W : World) (s : SAC) (env_ : nat) :
  steps_inv W s (set_env env_ s) nil.
Proof.
  unfold steps_inv, sample_calls, step_calls. cbn. rewrite app_nil_r.
  repeat split; try lia; constructor.
Qed.

(** A trajectory starts: the environment is reset and the log opens a
    trajectory without steps. *)
Lemma steps_inv_start (W : World) (s0 s : SAC) (new : list Trajectory)
    (t0 : Trajectory) (e : nat) :
  tj_steps t0 = nil -> steps_inv W s0 s new ->
  steps_inv W s0 (mark_trajectory t0 (call_env e EReset s)) (t0 :: new).
Proof.
  intros Ht0 (H1 & H2 & H3 & H4 & H5 & H6 & H7 & H8 & H9 & H10 & H11 & H12 & H13).
  unfold steps_inv. cbn [trace_steps]. rewrite Ht0. cbn [rev].
  rewrite app_nil_r. cbv zeta. cbn.
  unfold sample_calls, step_calls in *.
  rewrite !List.filter_app, !length_app. cbn.
  rewrite !Nat.add_0_r, H2.
  repeat (split; [assumption || reflexivity |]).
  split; [constructor; [rewrite Ht0; exact I | exact H10] |].
  split; [exact H11 |]. split; [exact H12 |].
  eapply Forall_impl; [exact H13 |]. intros r. apply answered_app.
Qed.

Lemma train_trajectory_counters (W : World) (s0 : SAC) (n0 : nat)
    (tal0 : nat * nat * nat * nat * nat) (epoch tr : nat) (xs : list nat)
    (c : Carry) :
  hoare (epoch_inv W s0 n0 tal0 (tr :: xs) c)
    (train_trajectory W epoch tr c)
    (fun c' => epoch_inv W s0 n0 tal0 xs c')
    (fun _ s => exists new, steps_inv W s0 s new).
Proof.
  destruct tal0 as [[[[g0 r0] e0] p0] q0].
  intros s (new & k & Hinv & Hwarm & Hk & Hxs & Hlen & Htal).
  pose proof Hinv as (Hcfg & Hgh & _).
  unfold train_trajectory. unfold bind at 1. unfold get at 1.
  unfold bind at 1. unfold modify at 1.
  unfold bind at 1. unfold modify at 1. unfold bind at 1.
  set (t0 := mkTrajectory Training tr (env s) (c_h_out c) (c_a2 c) (c_r2 c) nil).
  set (s1 := mark_trajectory t0 (call_env (env s) EReset s)).
  set (e0' := mkRollout _ false 0%Q 0).
  assert (Hinv1 : steps_inv W s0 s1 (t0 :: new)).
  { apply steps_inv_start; [reflexivity | exact Hinv]. }
  assert (Hwarm1 : warm_carry s0 s1 c) by exact Hwarm.
  rewrite Hcfg.
  destruct (train_while_counters W s0 (max_ep_len (cfg s0)) s1 c e0' t0 new
              Hinv1 Hwarm1 I) as (c' & e' & s2 & t' & Ew & Hinv2 & Hwarm2 & Htal2);
    [simpl; lia | simpl; lia |].
  rewrite Ew. cbn [fst].
  assert (Htal2' : tallies s2 = (g0 + k / update_every (cfg s0), r0, e0, p0, q0)).
  { rewrite Htal2. exact Htal. }
  assert (Hx : tr = k /\ xs = seq (S k) (number_of_trajectories (cfg s0) - S k)
               /\ S k <= number_of_trajectories (cfg s0)).
  { destruct (number_of_trajectories (cfg s0) - k) as [| m] eqn:Em;
      [discriminate |].
    simpl in Hxs. inversion Hxs. subst.
    replace (number_of_trajectories (cfg s0) - S k) with m by lia.
    repeat split; lia. }
  destruct Hx as (-> & Hxs' & Hk').
  unfold bind at 1. unfold lift at 1.
  destruct (Nat.eq_dec (update_every (cfg s0)) 0) as [Hu | Hu].
  { unfold update_due. rewrite Hu. cbn. exists (t' :: new). exact Hinv2. }
  rewrite update_due_positive by lia.
  pose proof (div_succ_step k (update_every (cfg s0)) ltac:(lia)) as Hdiv.
  unfold bind at 1.
  destruct ((k + 1) mod update_every (cfg s0) =? 0) eqn:Edue.
  - pose proof (update_counters W s2) as U. cbv zeta in U.
    destruct U as (U1 & U2 & U3 & U4 & U5 & U6 & U7 & U8 & U9 & U10 & U11 & U12
                   & U13 & U14).
    assert (Hinv3 : steps_inv W s0 (snd (update W s2)) (t' :: new)).
    { eapply steps_inv_frame; eassumption. }
    destruct (update_then_log_char W epoch k s2) as (res & Eul & _).
    rewrite Eul. set (s3 := snd (update W s2)) in *.
    destruct res as [[] | e]; cbn [snd] in *.
    + unfold ret. cbn [fst snd].
      exists (t' :: new), (S k).
      split; [exact Hinv3 |].
      split; [intros Hle; apply Hwarm2; now rewrite <- U3 |].
      split; [exact Hk' |]. split; [exact Hxs' |].
      split; [simpl; lia |].
      unfold tallies in *. inversion Htal2'.
      rewrite U9, U10, U11, U12, U13.
      replace (S k) with (k + 1) by lia. rewrite Hdiv.
      pair_eq; try reflexivity; try assumption.
      rewrite H0. generalize (k / update_every (cfg s0)). clear. intros; lia.
    + exists (t' :: new). exact Hinv3.
  - unfold ret. cbn [fst snd].
    exists (t' :: new), (S k).
    split; [exact Hinv2 |]. split; [exact Hwarm2 |].
    split; [exact Hk' |]. split; [exact Hxs' |].
    split; [simpl; lia |].
    rewrite Htal2'. replace (S k) with (k + 1) by lia. rewrite Hdiv.
    now rewrite Nat.add_0_r.
Qed.

Lemma train_epoch_counters (W : World) (s0 : SAC) (epoch : nat)
    (xs : list nat) (c : Carry) :
  hoare (agent_inv W s0 (epoch :: xs))
    (train_epoch W epoch c)
    (fun _ => agent_inv W s0 xs)
    (fun _ s => exists new, steps_inv W s0 s new).
Proof.
  intros s. unfold agent_inv.
  destruct (tallies s0) as [[[[g0 r0] e0] p0] q0] eqn:Etal0.
  intros (new & j & Hinv & Hj & Hxs & Hlen & Htal).
  pose proof Hinv as (Hcfg & _).
  unfold train_epoch. unfold bind at 1. unfold get at 1. unfold bind at 1.
  rewrite Hcfg.
  set (c0 := mkCarry _ _ _ _).
  set (N := number_of_trajectories (cfg s0)) in *.
  set (u := update_every (cfg s0)) in *.
  pose proof (hoare_for_each
                (epoch_inv W s0 (j * N) (g0 + j * (N / u), r0 + j, e0 + j, p0 + j, q0 + j))
                (fun _ s => exists new, steps_inv W s0 s new)
                (train_trajectory W epoch)
                (fun x xs a => train_trajectory_counters W s0 _ _ epoch x xs a)
                (seq 0 N) c0 s) as H.
  assert (Hpre : epoch_inv W s0 (j * N)
                   (g0 + j * (N / u), r0 + j, e0 + j, p0 + j, q0 + j)
                   (seq 0 N) c0 s).
  { unfold epoch_inv. exists new, 0. fold N u.
    split; [exact Hinv |]. split; [intros _; reflexivity |].
    split; [lia |]. split; [now rewrite Nat.sub_0_r |].
    split; [lia |]. rewrite Htal.
    assert (Hz : forall v, 0 / v = 0) by (intros [| v]; reflexivity).
    rewrite Hz, !Nat.add_0_r. reflexivity. }
  specialize (H Hpre).
  destruct (for_each _ _ _ _) as [[c1 | e] s1]; [| exact H].
  unfold epoch_inv in H. fold N u in H.
  destruct H as (new1 & k & Hinv1 & _ & Hk & Hnil & Hlen1 & Htal1).
  assert (k = N) as ->.
  { destruct (N - k) eqn:E; [lia | discriminate]. }
  unfold bind, modify, ret. cbn [fst snd].
  assert (Hx : S j <= epochs (cfg s0) /\ xs = seq (S j) (epochs (cfg s0) - S j)).
  { destruct (epochs (cfg s0) - j) as [| m] eqn:Em; [discriminate |].
    simpl in Hxs. inversion Hxs. subst.
    replace (epochs (cfg s0) - S j) with m by lia. split; [lia | reflexivity]. }
  destruct Hx as [Hj' Hxs'].
  exists new1, (S j).
  split.
  { eapply steps_inv_frame; [.. | exact Hinv1]; try reflexivity.
    cbn. unfold rollout_calls. rewrite List.filter_app. cbn.
    apply app_nil_r. }
  split; [exact Hj' |]. split; [exact Hxs' |].
  split; [simpl; lia |].
  unfold tallies in *. cbn. inversion Htal1.
  unfold get_calls, buffer_resets in *.
  rewrite !List.filter_app, !length_app. cbn.
  rewrite H0, H1, H2, H3, H4. generalize (N / u). intros d.
  clear. pair_eq; lia.
Qed.

(** The counters after [train_agent]. *)
Lemma train_agent_counters (W : World) (env_ : nat) (s : SAC) :
  let s' := snd (train_agent W env_ s) in
  let N := number_of_trajectories (cfg s) in
  exists new,
    steps_inv W s s' new /\
    (fst (train_agent W env_ s) = Ok tt ->
     length new = epochs (cfg s) * N /\
     get_calls (buffer s')
     = get_calls (buffer s) + epochs (cfg s) * (N / update_every (cfg s)) /\
     buffer_resets (buffer s') = buffer_resets (buffer s) + epochs (cfg s) /\
     current_epoch s' = current_epoch s + epochs (cfg s) /\
     pi_scheduler s' = pi_scheduler s + epochs (cfg s) /\
     q_scheduler s' = q_scheduler s + epochs (cfg s)).
Proof.
  destruct (train_agent W env_ s) as [res s'] eqn:Eres. cbn [fst snd].
  revert Eres. unfold train_agent. unfold bind at 1. unfold modify at 1.
  unfold bind at 1. unfold get at 1. unfold bind at 1.
  set (s1 := set_env env_ s).
  change (cfg s1) with (cfg s).
  assert (Hinv1 : steps_inv W s s1 nil).
  { apply steps_inv_init. }
  pose proof (hoare_for_each
                (fun xs (_ : Carry) st => agent_inv W s xs st)
                (fun _ st => exists new, steps_inv W s st new)
                (train_epoch W)
                (fun x xs a => train_epoch_counters W s x xs a)
                (seq 0 (epochs (cfg s))) (mkCarry nil nil 0 0%Q) s1) as H.
  cbv beta in H.
  assert (Hpre : agent_inv W s (seq 0 (epochs (cfg s))) s1).
  { unfold agent_inv.
    destruct (tallies s) as [[[[g0 r0] e0] p0] q0] eqn:Etal.
    exists nil, 0. split; [exact Hinv1 |]. split; [lia |].
    split; [now rewrite Nat.sub_0_r |]. split; [reflexivity |].
    change (tallies s1) with (tallies s). rewrite Etal.
    rewrite !Nat.add_0_r. reflexivity. }
  specialize (H Hpre).
  destruct (for_each _ _ _ _) as [[c1 | e] s2].
  - unfold ret. intros Eres. inversion Eres; subst res s'.
    unfold agent_inv in H.
    destruct (tallies s) as [[[[g0 r0] e0] p0] q0] eqn:Etal.
    destruct H as (new & j & Hinv & Hj & Hnil & Hlen & Htal).
    assert (j = epochs (cfg s)) as ->.
    { destruct (epochs (cfg s) - j) eqn:E; [lia | discriminate]. }
    exists new. split; [exact Hinv |]. intros _.
    unfold tallies in *. inversion Etal. inversion Htal. subst.
    repeat split; try reflexivity; assumption.
  - intros Eres. inversion Eres; subst res s'.
    destruct H as (new & Hinv). exists new. split; [exact Hinv |].
    discriminate.
Qed.

(** ** What the training loop stores, and when it closes a trajectory *)

Lemma in_trace_steps (new : list Trajectory) (t : Trajectory) (r : StepRecord) :
  In t new -> In r (tj_steps t) -> In r (trace_steps new).
Proof.
  induction new as [| t0 older IH]; [contradiction |].
  intros [-> | Ht] Hr; simpl; apply in_or_app.
  - right. now apply in_rev in Hr.
  - left. now apply IH.
Qed.

(** [ep_len] numbers the steps of a trajectory from 1. *)
Lemma linked_position (start : Hidden * nat * Q) (steps : list StepRecord) :
  steps_linked start steps ->
  forall k r, rev steps !! k = Some r -> sr_ep_len r = S k.
Proof.
  induction steps as [| r0 earlier IH]; intros Hl k r Hk.
  - discriminate Hk.
  - destruct Hl as (_ & Hlen & Hl). cbn [rev] in Hk.
    apply lookup_app_Some in Hk as [Hk | [Hge Hk]].
    + now apply IH.
    + rewrite length_rev in Hge, Hk.
      apply list_lookup_singleton_Some in Hk as [Hk ->]. rewrite Hlen. lia.
Qed.

Lemma total_finishing_nil (new : list Trajectory) :
  Forall (fun t => tj_steps t = nil) new -> total_finishing new = 0.
Proof.
  induction 1 as [| t new Ht _ IH]; simpl; [reflexivity |].
  unfold finishing_steps. now rewrite Ht, IH.
Qed.

(** C6.  [train_agent] runs until its loops end or an exception of the
    code stops it, and a call that returns has run
    [epochs * number_of_trajectories] trajectories, each with at least one
    step when [max_ep_len] is positive.  The transitions it stores are the
    steps of these trajectories, in order, one per call of [env.step].
    For the step number [k + 1] of a trajectory: the observation, the
    reward and the flags [terminated] and [truncated] are what [env.step]
    answered for the action of the step, and the stored [done] is [false]
    when [k + 1] is [max_ep_len], whatever the environment reported, and
    [terminated or truncated] otherwise. *)
Theorem stored_done_flag (W : World) (env_ : nat) (s : SAC) :
  let s' := snd (train_agent W env_ s) in
  let new := added_trajectories s s' in
  let steps := trace_steps new in
  terminates (fst (train_agent W env_ s)) /\
  (fst (train_agent W env_ s) = Ok tt ->
   length new = epochs (cfg s) * number_of_trajectories (cfg s)) /\
  (0 < max_ep_len (cfg s) -> Forall (fun t => tj_steps t <> nil) new) /\
  stored (buffer s') = stored (buffer s) ++ map sr_step steps /\
  step_calls (env_log s') = step_calls (env_log s) + length steps /\
  forall t, In t new ->
    forall k r, rev (tj_steps t) !! k = Some r ->
      sr_env r = env_ /\
      sr_ep_len r = S k /\
      answered W (env_log s') r /\
      t_done (sr_step r)
      = (if S k =? max_ep_len (cfg s) then false
         else sr_terminated r || sr_truncated r).
Proof.
  intros s' new steps.
  destruct (train_agent_trace W env_ s)
    as (Hterm & new0 & _ & _ & Hg0 & Hall & _ & _ & _ & Hsto).
  destruct (train_agent_counters W env_ s) as (new1 & Hinv & Hcount).
  cbv zeta in Hinv, Hcount. fold s' in Hg0, Hsto, Hinv, Hcount.
  destruct Hinv as (_ & Hgh & _ & _ & _ & _ & _ & _ & _ & _ & _ & Hstep & Hans).
  assert (E0 : new = new0) by (apply added_trajectories_app; exact Hg0).
  assert (E1 : new = new1) by (apply added_trajectories_app; exact Hgh).
  unfold steps. rewrite <- E1 in Hstep, Hans, Hcount. rewrite <- E0 in Hall, Hsto.
  rewrite trace_transitions_steps in Hsto.
  split; [exact Hterm |].
  split; [intros Hok; apply Hcount, Hok |].
  split.
  { intros Hmax. eapply Forall_impl; [exact Hall |].
    intros t (_ & _ & _ & _ & Hfin & _) Hnil.
    specialize (Hfin Hmax). unfold finished_once in Hfin.
    now rewrite Hnil in Hfin. }
  split; [exact Hsto |]. split; [exact Hstep |].
  intros t Ht k r Hk.
  rewrite List.Forall_forall in Hall.
  destruct (Hall t Ht) as (_ & _ & Hst & Hlink & _).
  assert (Hr : In r (tj_steps t)).
  { apply in_rev. apply list_elem_of_In. eapply list_elem_of_lookup_2. exact Hk. }
  rewrite List.Forall_forall in Hst. destruct (Hst r Hr) as (He & Hd & _).
  pose proof (linked_position _ _ Hlink k r Hk) as Hpos.
  split; [exact He |]. split; [exact Hpos |].
  split.
  - rewrite List.Forall_forall in Hans. apply Hans.
    eapply in_trace_steps; eassumption.
  - unfold done_rule in Hd. now rewrite Hpos in Hd.
Qed.

(** C8, as amended.  [train_agent] runs until its loops end or an exception
    of the code stops it, and a call that returns has run
    [epochs * number_of_trajectories] trajectories, one per reset of the
    environment.  The calls of [store] and [finish_path] the buffer
    receives are, step by step, the [store] of the step followed by
    [finish_path] exactly when the stored [done] is true or the episode
    length has reached [max_ep_len].  With a positive [max_ep_len] that
    happens in exactly one step of each trajectory, the last, so the
    buffer receives as many calls of [finish_path] as trajectories were
    run.  With [max_ep_len = 0] a trajectory takes no step and the buffer
    receives no call at all. *)
Theorem finish_path_once_per_trajectory (W : World) (env_ : nat) (s : SAC) :
  let s' := snd (train_agent W env_ s) in
  let new := added_trajectories s s' in
  let steps := trace_steps new in
  terminates (fst (train_agent W env_ s)) /\
  (fst (train_agent W env_ s) = Ok tt ->
   length new = epochs (cfg s) * number_of_trajectories (cfg s)) /\
  reset_calls (env_log s') env_ = reset_calls (env_log s) env_ + length new /\
  rollout_calls (buffer s')
  = rollout_calls (buffer s) ++ flat_map step_buffer_calls steps /\
  (forall t r, In t new -> In r (tj_steps t) ->
     sr_finish_path r
     = t_done (sr_step r) || (sr_ep_len r =? max_ep_len (cfg s))) /\
  (0 < max_ep_len (cfg s) ->
   Forall finished_once new /\
   finish_path_calls (buffer s') = finish_path_calls (buffer s) + length new) /\
  (max_ep_len (cfg s) = 0 ->
   Forall (fun t => tj_steps t = nil) new /\
   finish_path_calls (buffer s') = finish_path_calls (buffer s) /\
   rollout_calls (buffer s') = rollout_calls (buffer s)).
Proof.
  intros s' new steps.
  destruct (train_agent_trace W env_ s)
    as (Hterm & new0 & _ & _ & Hg0 & Hall & _ & Hfin & Hres & _).
  destruct (train_agent_counters W env_ s) as (new1 & Hinv & Hcount).
  cbv zeta in Hinv, Hcount. fold s' in Hg0, Hfin, Hres, Hinv, Hcount.
  destruct Hinv as (_ & Hgh & _ & _ & _ & _ & _ & _ & _ & _ & Hroll & _).
  assert (E0 : new = new0) by (apply added_trajectories_app; exact Hg0).
  assert (E1 : new = new1) by (apply added_trajectories_app; exact Hgh).
  unfold steps. rewrite <- E1 in Hroll, Hcount.
  rewrite <- E0 in Hall, Hfin, Hres.
  split; [exact Hterm |].
  split; [intros Hok; apply Hcount, Hok |].
  split; [exact Hres |]. split; [exact Hroll |].
  split.
  { intros t r Ht Hr.
    rewrite List.Forall_forall in Hall. destruct (Hall t Ht) as (_ & _ & Hst & _).
    rewrite List.Forall_forall in Hst. destruct (Hst r Hr) as (_ & _ & Hf & _).
    exact Hf. }
  split.
  - intros Hmax.
    assert (Hone : Forall finished_once new).
    { eapply Forall_impl; [exact Hall |].
      intros t (_ & _ & _ & _ & H & _). apply H, Hmax. }
    split; [exact Hone |].
    rewrite Hfin. now rewrite total_finishing_length.
  - intros Hzero.
    assert (Hnone : Forall (fun t => tj_steps t = nil) new).
    { eapply Forall_impl; [exact Hall |].
      intros t (_ & _ & _ & _ & _ & H). apply H, Hzero. }
    split; [exact Hnone |].
    split; [rewrite Hfin, (total_finishing_nil new Hnone); lia |].
    rewrite Hroll.
    assert (Hs : trace_steps new = nil).
    { clear - Hnone. induction Hnone as [| t new Ht _ IH]; simpl;
        [reflexivity | now rewrite IH, Ht]. }
    rewrite Hs. apply app_nil_r.
Qed.

(** ** The training loop, counted *)

(** X10.  Every transition [train_agent] stores advances [self.global_steps] by
    one, and nothing else does: after the call, whether it returned or
    raised, the counter has grown by the number of steps run, the step
    number [k] of the call was chosen at the counter value
    [global_steps + k], and the buffer was asked to store exactly these
    steps, in order.  The test counter is not touched. *)
Theorem global_steps_counts_stored_transitions (W : World) (env_ : nat)
    (s : SAC) :
  let s' := snd (train_agent W env_ s) in
  let steps := trace_steps (added_trajectories s s') in
  global_steps s' = global_steps s + length steps /\
  map sr_global_steps steps = seq (global_steps s) (length steps) /\
  stored (buffer s') = stored (buffer s) ++ map sr_step steps /\
  global_test_steps s' = global_test_steps s.
Proof.
  intros s' steps.
  destruct (train_agent_counters W env_ s) as (new & Hinv & _).
  cbv zeta in Hinv.
  destruct Hinv as (_ & Hgh & Hgs & Hseq & _ & _ & _ & Hgts & _).
  destruct (train_agent_trace W env_ s)
    as (_ & new0 & _ & _ & Hg0 & _ & _ & _ & _ & Hsto).
  assert (E : added_trajectories s s' = new)
    by (apply added_trajectories_app; exact Hgh).
  assert (E0 : new0 = new).
  { rewrite <- E. symmetry. apply added_trajectories_app. exact Hg0. }
  unfold steps. rewrite E. subst new0.
  rewrite trace_transitions_steps in Hsto. auto.
Qed.

(** X11.  The warm-up of [train_agent].  A step chosen while
    [global_steps <= start_steps] draws its action with
    [action_space.sample] and does not run the policy; since the recurrent
    state is only replaced by the policy, every such step stores the zero
    vector as [hidden_in] and as [hidden_out].  Over a call the
    environment receives one [sample] per warm-up step and the policy is
    drawn from once per other step. *)
Theorem warm_up_samples_and_keeps_zero_state (W : World) (env_ : nat)
    (s : SAC) :
  let s' := snd (train_agent W env_ s) in
  let steps := trace_steps (added_trajectories s s') in
  Forall (fun r =>
            sr_global_steps r <= start_steps (cfg s) ->
            t_hidden_in (sr_step r) = zeros (hidden_size (cfg s)) /\
            t_hidden_out (sr_step r) = zeros (hidden_size (cfg s))) steps /\
  sample_calls (env_log s')
  = sample_calls (env_log s) + length (List.filter (is_warm_up (cfg s)) steps) /\
  rng s'
  = rng s + length (List.filter (fun r => negb (is_warm_up (cfg s) r)) steps).
Proof.
  intros s' steps.
  destruct (train_agent_counters W env_ s) as (new & Hinv & _).
  cbv zeta in Hinv.
  destruct Hinv as (_ & Hgh & _ & _ & Hzero & Hrng & Hsam & _).
  assert (E : added_trajectories s s' = new)
    by (apply added_trajectories_app; exact Hgh).
  unfold steps. rewrite E.
  split; [| split; assumption].
  eapply Forall_impl; [exact Hzero |].
  intros r H Hle. apply H. unfold is_warm_up. now apply Nat.leb_le.
Qed.

(** X12.  When [train_agent] returns it has run [epochs * number_of_trajectories]
    trajectories, called [update] after every [update_every]-th trajectory
    of each epoch ([number_of_trajectories / update_every] times per epoch,
    the division rounding down), reset the buffer once per epoch, and
    advanced [current_epoch] and both learning-rate schedulers by
    [epochs]. *)
Theorem train_agent_tallies (W : World) (env_ : nat) (s : SAC) :
  fst (train_agent W env_ s) = Ok tt ->
  let s' := snd (train_agent W env_ s) in
  let N := number_of_trajectories (cfg s) in
  length (added_trajectories s s') = epochs (cfg s) * N /\
  get_calls (buffer s')
  = get_calls (buffer s) + epochs (cfg s) * (N / update_every (cfg s)) /\
  buffer_resets (buffer s') = buffer_resets (buffer s) + epochs (cfg s) /\
  current_epoch s' = current_epoch s + epochs (cfg s) /\
  pi_scheduler s' = pi_scheduler s + epochs (cfg s) /\
  q_scheduler s' = q_scheduler s + epochs (cfg s).
Proof.
  intros Hok s' N.
  destruct (train_agent_counters W env_ s) as (new & Hinv & H).
  cbv zeta in Hinv. destruct Hinv as (_ & Hgh & _).
  assert (E : added_trajectories s s' = new)
    by (apply added_trajectories_app; exact Hgh).
  rewrite E. apply H, Hok.
Qed.

Lemma linked_short (start : Hidden * nat * Q) (max_len : nat)
    (steps : list StepRecord) :
  0 < max_len -> steps_linked start steps ->
  Forall (fun r => sr_ep_len r <> max_len) steps ->
  length steps < max_len.
Proof.
  intros Hm. induction steps as [| r earlier IH]; intros Hl Hne; simpl.
  - exact Hm.
  - destruct Hl as (_ & Hlen & Hl). apply Forall_cons in Hne as [Hr Hne].
    specialize (IH Hl Hne). lia.
Qed.

Lemma training_trajectory_ran_to_end (W : World) (cfg : Config) (env_ : nat)
    (t : Trajectory) :
  training_trajectory_ok W cfg env_ t -> ran_to_end (max_ep_len cfg) t.
Proof.
  intros (_ & _ & Hall & Hlink & Hfin & Hzero).
  unfold ran_to_end.
  destruct (Nat.eq_dec (max_ep_len cfg) 0) as [Hm | Hm].
  - rewrite (Hzero Hm). simpl. split; [lia | exact Hm].
  - specialize (Hfin ltac:(lia)). unfold finished_once in Hfin.
    destruct (tj_steps t) as [| r earlier]; [contradiction |].
    destruct Hfin as [Hr He].
    apply Forall_cons in Hall as [(_ & Hd & Hf & _) Hall].
    destruct Hlink as (_ & Hlen & Hlink).
    assert (Hearlier : Forall (fun r' => env_done r' = false /\
                                         sr_ep_len r' <> max_ep_len cfg) earlier).
    { rewrite List.Forall_forall in *. intros r' Hin.
      destruct (Hall r' Hin) as (_ & Hd' & Hf' & _).
      specialize (He r' Hin). unfold finish_rule in Hf'. rewrite He in Hf'.
      symmetry in Hf'. apply orb_false_iff in Hf' as [Hdone Hneq].
      unfold done_rule in Hd'. rewrite Hneq, Hdone in Hd'.
      apply Nat.eqb_neq in Hneq. split; [now symmetry | exact Hneq]. }
    assert (Hshort : length earlier < max_ep_len cfg).
    { apply (linked_short (traj_start t) (max_ep_len cfg) earlier);
        [lia | exact Hlink |].
      eapply Forall_impl; [exact Hearlier |]. intros ? [_ ?]. assumption. }
    split; [simpl; lia |]. split.
    + unfold finish_rule in Hf. rewrite Hr in Hf. symmetry in Hf.
      apply orb_true_iff in Hf as [Hdone | Hmax].
      * left. unfold done_rule in Hd. rewrite Hdone in Hd.
        destruct (sr_ep_len r =? max_ep_len cfg); [discriminate |].
        now symmetry.
      * right. apply Nat.eqb_eq in Hmax. simpl. congruence.
    + eapply Forall_impl; [exact Hearlier |]. intros ? [? _]. assumption.
Qed.

(** X13.  Every trajectory of [train_agent] runs until the environment reports
    [terminated] or [truncated], or until [max_ep_len] steps were taken,
    whichever comes first: no trajectory is longer than [max_ep_len], no
    step before the last saw the end reported, and the last step saw it
    reported or is step number [max_ep_len]. *)
Theorem training_trajectories_run_to_end (W : World) (env_ : nat) (s : SAC) :
  Forall (ran_to_end (max_ep_len (cfg s)))
    (added_trajectories s (snd (train_agent W env_ s))).
Proof.
  destruct (train_agent_trace W env_ s)
    as (_ & new0 & _ & _ & Hg & Hall & _).
  rewrite (added_trajectories_app _ _ _ Hg).
  eapply Forall_impl; [exact Hall |].
  intros t. apply training_trajectory_ran_to_end.
Qed.

(** X14.  Inside every trajectory of [train_agent] the stored transitions are
    chained by their observations: each step starts from the observation
    the step before ended in ([o = o2] at the end of the loop body), so
    the [obs] of a stored transition is the [next_obs] of the one stored
    before it in the same trajectory. *)
Theorem stored_observations_are_chained (W : World) (env_ : nat) (s : SAC) :
  Forall (fun t => obs_linked (tj_steps t))
    (added_trajectories s (snd (train_agent W env_ s))).
Proof.
  destruct (train_agent_counters W env_ s) as (new & Hinv & _).
  cbv zeta in Hinv.
  destruct Hinv as (_ & Hgh & _ & _ & _ & _ & _ & _ & _ & Hobs).
  now rewrite (added_trajectories_app _ _ _ Hgh).
Qed.

(** ** [update_every = 0] *)

Lemma train_trajectory_zero (W : World) (s0 s : SAC) (new : list Trajectory)
    (epoch tr : nat) (c : Carry) :
  update_every (cfg s0) = 0 ->
  steps_inv W s0 s new -> warm_carry s0 s c ->
  exists s2 t',
    train_trajectory W epoch tr c s = (Raise ZeroDivisionError, s2) /\
    steps_inv W s0 s2 (t' :: new) /\ tallies s2 = tallies s.
Proof.
  intros Hu Hinv Hwarm. pose proof Hinv as (Hcfg & _).
  unfold train_trajectory. unfold bind at 1. unfold get at 1.
  unfold bind at 1. unfold modify at 1.
  unfold bind at 1. unfold modify at 1. unfold bind at 1.
  set (t0 := mkTrajectory Training tr (env s) (c_h_out c) (c_a2 c) (c_r2 c) nil).
  set (s1 := mark_trajectory t0 (call_env (env s) EReset s)).
  set (e0' := mkRollout _ false 0%Q 0).
  assert (Hinv1 : steps_inv W s0 s1 (t0 :: new)).
  { apply steps_inv_start; [reflexivity | exact Hinv]. }
  assert (Hwarm1 : warm_carry s0 s1 c) by exact Hwarm.
  rewrite Hcfg.
  destruct (train_while_counters W s0 (max_ep_len (cfg s0)) s1 c e0' t0 new
              Hinv1 Hwarm1 I) as (c' & e' & s2 & t' & Ew & Hinv2 & Hwarm2 & Htal2);
    [simpl; lia | simpl; lia |].
  rewrite Ew. unfold bind at 1. unfold lift at 1.
  unfold update_due. rewrite Hu. cbn.
  exists s2, t'. split; [reflexivity |]. split; [exact Hinv2 | exact Htal2].
Qed.

(** X15.  With [update_every = 0] the test
    [(tr+1) >= update_every and (tr+1) % update_every == 0] divides by
    zero: a call of [train_agent] that has a trajectory to run raises
    [ZeroDivisionError] at the end of the first one.  That trajectory was
    run and stored; [update] was never called, and the epoch was not
    closed: the buffer was not reset and [current_epoch] did not move. *)
Theorem train_agent_zero_update_every (W : World) (env_ : nat) (s : SAC) :
  update_every (cfg s) = 0 ->
  0 < epochs (cfg s) -> 0 < number_of_trajectories (cfg s) ->
  let s' := snd (train_agent W env_ s) in
  fst (train_agent W env_ s) = Raise ZeroDivisionError /\
  length (added_trajectories s s') = 1 /\
  get_calls (buffer s') = get_calls (buffer s) /\
  buffer_resets (buffer s') = buffer_resets (buffer s) /\
  current_epoch s' = current_epoch s.
Proof.
  intros Hu He Hn s'.
  assert (E : exists s2 t',
             train_agent W env_ s = (Raise ZeroDivisionError, s2) /\
             steps_inv W s s2 (t' :: nil) /\ tallies s2 = tallies s).
  { unfold train_agent. unfold bind at 1. unfold modify at 1.
    unfold bind at 1. unfold get at 1. unfold bind at 1.
    set (s1 := set_env env_ s).
    change (cfg s1) with (cfg s).
    destruct (epochs (cfg s)) as [| e] eqn:Ee; [lia |].
    cbn [seq for_each]. unfold bind at 1.
    unfold train_epoch at 1. unfold bind at 1. unfold get at 1.
    unfold bind at 1. change (cfg s1) with (cfg s).
    destruct (number_of_trajectories (cfg s)) as [| n] eqn:En; [lia |].
    cbn [seq for_each]. unfold bind at 1.
    set (c0 := mkCarry _ _ _ _).
    assert (Hinv1 : steps_inv W s s1 nil).
    { apply steps_inv_init. }
    assert (Hwarm1 : warm_carry s s1 c0) by (intros _; reflexivity).
    destruct (train_trajectory_zero W s s1 nil 0 0 c0 Hu Hinv1 Hwarm1)
      as (s2 & t' & Et & Hinv2 & Htal2).
    rewrite Et. exists s2, t'. split; [reflexivity |].
    split; [exact Hinv2 | exact Htal2]. }
  destruct E as (s2 & t' & E & Hinv2 & Htal2).
  unfold s'. rewrite E. cbn [fst snd].
  split; [reflexivity |].
  destruct Hinv2 as (_ & Hgh & _).
  rewrite (added_trajectories_app s s2 (t' :: nil) Hgh).
  split; [reflexivity |].
  unfold tallies in Htal2. inversion Htal2. auto.
Qed.

(** ** [train_agent], then [test_agent] *)

(** X16.  [train_agent(env)] rebinds [self.env], whether it returns or raises;
    a later [test_agent(test_env)] therefore resets [test_env] but takes
    every random and every evaluated step on the environment that
    [train_agent] was last given. *)
Theorem test_agent_steps_last_training_env (W : World) (env_ test_env_ : nat)
    (n random_init : nat) (greedy_ratio : Q) (s : SAC) :
  let s1 := snd (train_agent W env_ s) in
  let s2 := snd (test_agent W test_env_ n random_init greedy_ratio s1) in
  env s1 = env_ /\ env s2 = env_ /\
  Forall (fun t => Forall (fun r => sr_env r = env_) (tj_steps t))
    (added_trajectories s1 s2) /\
  exists calls,
    env_log s2 = env_log s1 ++ calls /\
    Forall (fun x => snd x <> EReset -> fst x = env_) calls.
Proof.
  intros s1 s2.
  destruct (train_agent_trace W env_ s) as (_ & new0 & _ & Henv & _).
  fold s1 in Henv.
  destruct (test_agent_trace W test_env_ n random_init greedy_ratio s1)
    as (new & added & _ & H).
  cbv zeta in H. fold s2 in H.
  destruct H as (_ & He2 & _ & _ & Hg & Hall & _ & Hlog & Hadd).
  rewrite Henv in *.
  split; [reflexivity |]. split; [exact He2 |].
  rewrite (added_trajectories_app _ _ _ Hg).
  split.
  - eapply Forall_impl; [exact Hall |]. intros t (_ & _ & H & _). exact H.
  - exists added. split; [exact Hlog |].
    eapply Forall_impl; [exact Hadd |].
    intros [e c] H Hne. unfold eval_call in H. simpl in *.
    destruct c; [congruence | exact H | exact H].
Qed.

(** ** Counting: the evaluation loop *)

Lemma test_step_counters (W : World) (gr : Q) (s : SAC) (c : TestCarry)
    (e : TestRollout) :
  exists r s' c' e',
    test_step W gr s c e = (s', c', e') /\
    untouched s s' /\ test_env s' = test_env s /\
    ghost s' = add_step r (ghost s) /\
    global_test_steps s' = S (global_test_steps s) /\
    sample_calls (env_log s') = sample_calls (env_log s) /\
    (forall x, reset_calls (env_log s') x = reset_calls (env_log s) x) /\
    tr_ep_len e' = S (tr_ep_len e) /\
    tr_d e' = env_done r /\
    eval_step_rule W gr (online_theta s) r.
Proof.
  unfold test_step, get_action.
  destruct (Qle_bool (np_random W (rng s)) gr) eqn:Egr.
  - destruct (act W (online_theta (draw s)) (tr_o e) (tc_a2 c) (tc_r2 c) (tc_h c))
      as [a h] eqn:Ea.
    cbn [env cfg env_log draw call_env].
    destruct (env_step W (env s) (history (env_log s) (env s)) a)
      as [[[o2 r] ter] trunc] eqn:Eenv.
    rewrite Nat.add_1_r.
    eexists. eexists. eexists. eexists. split; [reflexivity |].
    unfold untouched, sample_calls, reset_calls, eval_step_rule. cbn.
    repeat split; try reflexivity;
      try (cbn; rewrite Egr; exact Ea);
      intros; rewrite ?List.filter_app, ?length_app; cbn; lia.
  - destruct (explore W (rng (draw s)) (online_theta (draw s)) (tr_o e) (tc_a2 c)
                (tc_r2 c) (tc_h c)) as [a h] eqn:Ea.
    cbn [env cfg env_log draw call_env].
    destruct (env_step W (env s) (history (env_log s) (env s)) a)
      as [[[o2 r] ter] trunc] eqn:Eenv.
    rewrite Nat.add_1_r.
    eexists. eexists. eexists. eexists. split; [reflexivity |].
    unfold untouched, sample_calls, reset_calls, eval_step_rule. cbn.
    repeat split; try reflexivity;
      try (cbn; rewrite Egr; exact Ea);
      intros; rewrite ?List.filter_app, ?length_app; cbn; lia.
Qed.

Lemma untouched_trans (s0 s1 s2 : SAC) :
  untouched s0 s1 -> untouched s1 s2 -> untouched s0 s2.
Proof.
  unfold untouched.
  intros (a1 & b1 & c1 & d1 & e1 & f1 & g1 & h1) (a2 & b2 & c2 & d2 & e2 & f2 & g2 & h2).
  repeat split; congruence.
Qed.

Lemma eval_going_end (max_len : nat) (t : Trajectory) (e : TestRollout) :
  eval_going max_len t e ->
  tr_d e || (tr_ep_len e =? max_len) = true ->
  ran_to_end max_len t.
Proof.
  intros (Hlen & Hle & Hd & Htl) Hex. unfold ran_to_end.
  split; [lia |].
  destruct (tj_steps t) as [| r earlier].
  - rewrite Hd in Hex. simpl in Hex, Hlen. apply Nat.eqb_eq in Hex. lia.
  - split; [| exact Htl].
    apply orb_true_iff in Hex as [Hex | Hex].
    + left. congruence.
    + right. apply Nat.eqb_eq in Hex. lia.
Qed.

Lemma test_while_counters (W : World) (gr : Q) (s0 : SAC) (test_env_ : nat)
    (fuel : nat) :
  forall (s : SAC) (c : TestCarry) (e : TestRollout) (t : Trajectory)
         (older : list Trajectory),
    eval_counters W gr s0 test_env_ s (t :: older) ->
    eval_going (max_ep_len (cfg s0)) t e ->
    max_ep_len (cfg s0) - tr_ep_len e <= fuel ->
    exists c' e' s' t',
      test_while W gr fuel c e s = (Ok (c', e'), s') /\
      eval_counters W gr s0 test_env_ s' (t' :: older) /\
      ran_to_end (max_ep_len (cfg s0)) t' /\
      sample_calls (env_log s') = sample_calls (env_log s) /\
      (forall x, reset_calls (env_log s') x = reset_calls (env_log s) x).
Proof.
  induction fuel as [| fuel IH]; intros s c e t older Hinv Hgo Hfuel.
  - simpl. pose proof Hinv as ((Hcfg & _) & _). rewrite Hcfg.
    destruct (tr_d e || (tr_ep_len e =? max_ep_len (cfg s0))) eqn:Ex; simpl.
    + exists c, e, s, t. split; [reflexivity |]. split; [exact Hinv |].
      split; [eapply eval_going_end; eassumption |]. split; reflexivity.
    + apply orb_false_iff in Ex as [_ Ex]. apply Nat.eqb_neq in Ex.
      destruct Hgo as (_ & Hle & _). lia.
  - simpl. pose proof Hinv as ((Hcfg & _) & _). rewrite Hcfg.
    destruct (tr_d e || (tr_ep_len e =? max_ep_len (cfg s0))) eqn:Ex; simpl.
    + exists c, e, s, t. split; [reflexivity |]. split; [exact Hinv |].
      split; [eapply eval_going_end; eassumption |]. split; reflexivity.
    + apply orb_false_iff in Ex as [Exd Exl]. apply Nat.eqb_neq in Exl.
      destruct (test_step_counters W gr s c e)
        as (r & s1 & c1 & e1 & Est & Hun & Hte & Hgh & Hgts & Hsam & Hres
            & Hlen1 & Hd1 & Hrule).
      rewrite Est.
      destruct Hinv as (Hun0 & Hte0 & Hgh0 & Hgts0 & Hrules0).
      destruct Hgo as (Hlen & Hle & Hd & Htl).
      set (t1 := mkTrajectory (tj_loop t) (tj_index t) (tj_env t) (tj_h t)
                   (tj_a2 t) (tj_r2 t) (r :: tj_steps t)).
      assert (Hinv1 : eval_counters W gr s0 test_env_ s1 (t1 :: older)).
      { split; [eapply untouched_trans; eassumption |].
        split; [congruence |].
        split; [rewrite Hgh, Hgh0; reflexivity |].
        cbn [trace_steps t1 tj_steps rev]. rewrite app_assoc.
        split.
        - rewrite Hgts, Hgts0. cbn [trace_steps].
          rewrite !length_app. cbn [length]. lia.
        - apply Forall_app. split; [exact Hrules0 |].
          constructor; [| constructor].
          destruct Hun0 as (_ & Hl0 & _). unfold online_theta in *.
          now rewrite <- Hl0. }
      assert (Hgo1 : eval_going (max_ep_len (cfg s0)) t1 e1).
      { unfold eval_going. cbn [t1 tj_steps tl length].
        split; [lia |]. split; [lia |]. split; [exact Hd1 |].
        destruct (tj_steps t) as [| r0 earlier]; constructor.
        - now rewrite <- Hd.
        - exact Htl. }
      destruct (IH s1 c1 e1 t1 older Hinv1 Hgo1) as
        (c' & e' & s' & t' & Ew & Hinv' & Hend' & Hsam' & Hres'); [lia |].
      exists c', e', s', t'. split; [exact Ew |].
      split; [exact Hinv' |]. split; [exact Hend' |].
      split; [congruence |]. intros x. rewrite Hres'. apply Hres.
Qed.

Lemma random_steps_counters (W : World) (n : nat) :
  forall s,
    let s' := random_steps W n s in
    untouched s s' /\ test_env s' = test_env s /\ ghost s' = ghost s /\
    global_test_steps s' = global_test_steps s /\
    sample_calls (env_log s') = sample_calls (env_log s) + n /\
    (forall x, reset_calls (env_log s') x = reset_calls (env_log s) x).
Proof.
  induction n as [| n IH]; intros s; simpl.
  - unfold untouched. repeat split; auto.
  - destruct (env_step W _ _ _) as [[[o2 r] ter] trunc].
    cbn [env call_env].
    set (s1 := call_env (env s) (EStep _) (call_env (env s) ESample s)).
    destruct (IH s1) as (H1 & H2 & H3 & H4 & H5 & H6).
    split; [eapply untouched_trans; [| exact H1]; unfold untouched; cbn; tauto |].
    split; [rewrite H2; reflexivity |]. split; [rewrite H3; reflexivity |].
    split; [rewrite H4; reflexivity |].
    split.
    + rewrite H5. unfold s1, sample_calls. cbn.
      rewrite !List.filter_app, !length_app. cbn. lia.
    + intros x. rewrite H6. unfold s1, reset_calls. cbn.
      rewrite !List.filter_app, !length_app. cbn. lia.
Qed.

Lemma test_trajectory_counters (W : World) (s0 : SAC) (test_env_ n ri : nat)
    (gr : Q) (ep : nat) (xs : list nat) (c : TestCarry) :
  hoare (eval_tally W gr s0 test_env_ n ri (ep :: xs))
    (test_trajectory W ri gr ep c)
    (fun _ => eval_tally W gr s0 test_env_ n ri xs)
    (fun _ _ => False).
Proof.
  intros s (new & k & Hinv & Hends & Hk & Hxs & Hlen & Hsam & Hres).
  pose proof Hinv as (Hun & Hte & Hgh & Hgts & Hrules). pose proof Hun as (Hcfg & _).
  unfold test_trajectory. unfold bind at 1. unfold get at 1.
  rewrite Hte. change (default 0 (Some test_env_)) with test_env_.
  unfold bind at 1. unfold modify at 1.
  unfold bind at 1. unfold modify at 1.
  unfold bind at 1. unfold modify at 1.
  set (t0 := mkTrajectory Evaluation ep test_env_ (tc_h c) (tc_a2 c) (tc_r2 c) nil).
  set (s1 := mark_trajectory t0 (call_env test_env_ EReset s)).
  pose proof (random_steps_counters W ri s1) as R. cbv zeta in R.
  destruct R as (R1 & R2 & R3 & R4 & R5 & R6).
  set (s2 := random_steps W ri s1) in *.
  set (e0 := mkTestRollout _ false 0 0%Q nil nil).
  assert (Hinv2 : eval_counters W gr s0 test_env_ s2 (t0 :: new)).
  { split; [eapply untouched_trans; [| exact R1];
            eapply untouched_trans; [exact Hun |]; unfold untouched; cbn; tauto |].
    split; [rewrite R2; exact Hte |].
    split; [rewrite R3; unfold s1; cbn; now rewrite Hgh |].
    rewrite R4. unfold s1. cbn. rewrite app_nil_r. split; assumption. }
  assert (Hgo : eval_going (max_ep_len (cfg s0)) t0 e0).
  { unfold eval_going. cbn. repeat split; try lia. constructor. }
  unfold bind at 1. rewrite Hcfg.
  destruct (test_while_counters W gr s0 test_env_ (max_ep_len (cfg s0)) s2 c e0
              t0 new Hinv2 Hgo) as (c' & e' & s3 & t' & Ew & Hinv3 & Hend3 & Hsam3 & Hres3);
    [cbn; lia |].
  rewrite Ew. unfold ret.
  assert (Hx : ep = k /\ xs = seq (S k) (n - S k) /\ S k <= n).
  { destruct (n - k) as [| m] eqn:Em; [discriminate |].
    simpl in Hxs. injection Hxs as Hep Hxs2.
    replace (n - S k) with m by lia.
    split; [exact Hep |]. split; [exact Hxs2 | lia]. }
  destruct Hx as (-> & Hxs' & Hk').
  exists (t' :: new), (S k).
  split; [exact Hinv3 |]. split; [constructor; assumption |].
  split; [exact Hk' |]. split; [exact Hxs' |]. split; [simpl; lia |].
  split.
  - rewrite Hsam3, R5. unfold s1, sample_calls in *. cbn.
    rewrite List.filter_app, length_app. cbn. lia.
  - rewrite Hres3, R6. unfold s1, reset_calls in *. cbn.
    rewrite List.filter_app, length_app. cbn. rewrite Nat.eqb_refl. cbn. lia.
Qed.

(** The counters after [test_agent]. *)
Lemma test_agent_counters (W : World) (test_env_ n ri : nat) (gr : Q) (s : SAC) :
  let s' := snd (test_agent W test_env_ n ri gr s) in
  exists new,
    eval_counters W gr s test_env_ s' new /\
    Forall (ran_to_end (max_ep_len (cfg s))) new /\
    length new = n /\
    sample_calls (env_log s') = sample_calls (env_log s) + n * ri /\
    reset_calls (env_log s') test_env_ = reset_calls (env_log s) test_env_ + n.
Proof.
  destruct (test_agent W test_env_ n ri gr s) as [res s'] eqn:Eres.
  cbn [snd]. revert Eres. unfold test_agent.
  unfold bind at 1. unfold modify at 1.
  unfold bind at 1. unfold get at 1. unfold bind at 1.
  set (s1 := set_test_env test_env_ s).
  set (c0 := mkTestCarry _ _ _ _ _).
  pose proof (hoare_for_each
                (fun xs (_ : TestCarry) st => eval_tally W gr s test_env_ n ri xs st)
                (fun _ _ => False)
                (test_trajectory W ri gr)
                (fun x xs a => test_trajectory_counters W s test_env_ n ri gr x xs a)
                (seq 0 n) c0 s1) as H.
  cbv beta in H.
  assert (Hpre : eval_tally W gr s test_env_ n ri (seq 0 n) s1).
  { exists nil, 0. unfold eval_counters, untouched, sample_calls, reset_calls.
    cbn. rewrite Nat.sub_0_r. repeat split; try lia; constructor. }
  specialize (H Hpre).
  destruct (for_each _ _ _ _) as [[c1 | e] s2]; [| contradiction].
  destruct H as (new & k & Hinv & Hends & Hk & Hnil & Hlen & Hsam & Hres).
  assert (k = n) as ->.
  { destruct (n - k) eqn:E; [lia | discriminate]. }
  unfold bind at 1. unfold get at 1. unfold bind at 1. unfold logging at 1.
  destruct (_log_test_trial _ _ _ _ _) as [calls | e];
    unfold ret; intros Eres; inversion Eres; subst res s';
    exists new; auto.
Qed.

(** ** The evaluation loop, counted *)

(** C9 (the code at work).  Of the calls [test_agent] makes on
    environments only the resets go to the object it was given: every
    random warm-up sample and step and every step of an evaluated
    trajectory goes to [self.env].  The call ends in [_log_test_trial],
    which divides by [steps_per_epoch] and by [save_freq]: when one of them
    is zero the call raises [ZeroDivisionError] there, after all
    trajectories have run; otherwise it returns, and the observations and
    rewards it returns are those of the steps taken on [self.env]. *)
Theorem test_agent_steps_self_env (W : World) (test_env_ n random_init : nat)
    (greedy_ratio : Q) (s : SAC) :
  let s' := snd (test_agent W test_env_ n random_init greedy_ratio s) in
  let new := added_trajectories s s' in
  fst (test_agent W test_env_ n random_init greedy_ratio s)
  = (if (steps_per_epoch (cfg s) =? 0)
        || (save_freq (save_every_n_update (cfg s)) (cfg s) =? 0)
     then Raise ZeroDivisionError
     else Ok (map traj_observations (rev new), map traj_rewards (rev new))) /\
  length new = n /\
  Forall (fun t => tj_env t = test_env_ /\
                   Forall (fun r => sr_env r = env s) (tj_steps t)) new /\
  exists calls,
    env_log s' = env_log s ++ calls /\
    Forall (fun x => match snd x with
                     | EReset => fst x = test_env_
                     | ESample | EStep _ => fst x = env s
                     end) calls.
Proof.
  intros s' new.
  destruct (test_agent_trace W test_env_ n random_init greedy_ratio s)
    as (new0 & added & Eq & H).
  cbv zeta in H. destruct H as (_ & _ & _ & _ & Hg & Hall & _ & Hlog & Hadd).
  assert (E : new = new0) by (apply added_trajectories_app; exact Hg).
  rewrite E. split.
  { rewrite Eq. unfold _log_test_trial, py_floordiv, py_mod.
    destruct (steps_per_epoch (cfg s) =? 0); [reflexivity |]. cbn [rbind orb].
    destruct (save_freq (save_every_n_update (cfg s)) (cfg s) =? 0);
      reflexivity. }
  split.
  { destruct (test_agent_counters W test_env_ n random_init greedy_ratio s)
      as (new1 & (_ & _ & Hg1 & _) & _ & Hlen & _).
    rewrite <- Hlen. f_equal.
    rewrite <- E. unfold new. apply added_trajectories_app. exact Hg1. }
  split.
  - eapply Forall_impl; [exact Hall |].
    intros t (_ & H1 & H2 & _). split; assumption.
  - exists added. split; [exact Hlog | exact Hadd].
Qed.

(** X17.  [test_agent] only evaluates: the networks, the optimizers, the
    replay buffer, [self.env], the training step counter, [current_epoch]
    and the learning-rate schedulers are after the call as they were
    before it.  Only [self.test_env], the test step counter, the
    environments and the random sources move. *)
Theorem test_agent_learns_nothing (W : World) (test_env_ n random_init : nat)
    (greedy_ratio : Q) (s : SAC) :
  let s' := snd (test_agent W test_env_ n random_init greedy_ratio s) in
  learner s' = learner s /\ buffer s' = buffer s /\ env s' = env s /\
  cfg s' = cfg s /\ global_steps s' = global_steps s /\
  current_epoch s' = current_epoch s /\
  pi_scheduler s' = pi_scheduler s /\ q_scheduler s' = q_scheduler s /\
  test_env s' = Some test_env_.
Proof.
  intros s'.
  destruct (test_agent_counters W test_env_ n random_init greedy_ratio s)
    as (new & ((H1 & H2 & H3 & H4 & H5 & H6 & H7 & H8) & Hte & _) & _).
  repeat split; assumption.
Qed.

(** X18.  [test_agent(test_env, n, random_init, _)] runs exactly [n]
    trajectories; [self.global_test_steps] grows by the number of
    evaluated steps (the random steps are not counted); [test_env] is
    reset [n] times; and the [random_init] random steps are repeated before
    every trajectory, [n * random_init] samples in all, not taken once per
    call. *)
Theorem test_agent_tallies (W : World) (test_env_ n random_init : nat)
    (greedy_ratio : Q) (s : SAC) :
  let s' := snd (test_agent W test_env_ n random_init greedy_ratio s) in
  let new := added_trajectories s s' in
  length new = n /\
  global_test_steps s' = global_test_steps s + length (trace_steps new) /\
  reset_calls (env_log s') test_env_ = reset_calls (env_log s) test_env_ + n /\
  sample_calls (env_log s') = sample_calls (env_log s) + n * random_init.
Proof.
  intros s' new.
  destruct (test_agent_counters W test_env_ n random_init greedy_ratio s)
    as (new1 & (_ & _ & Hgh & Hgts & _) & _ & Hlen & Hsam & Hres).
  assert (E1 : new = new1) by (apply added_trajectories_app; exact Hgh).
  rewrite E1. auto.
Qed.

(** X19.  Every trajectory of [test_agent] runs until the environment it steps
    reports [terminated] or [truncated], or until [max_ep_len] steps were
    taken, whichever comes first; each returned trace therefore has at
    most [max_ep_len] entries. *)
Theorem evaluation_trajectories_run_to_end (W : World)
    (test_env_ n random_init : nat) (greedy_ratio : Q) (s : SAC) :
  let s' := snd (test_agent W test_env_ n random_init greedy_ratio s) in
  Forall (fun t => ran_to_end (max_ep_len (cfg s)) t /\
                   length (traj_observations t) = length (tj_steps t) /\
                   length (traj_rewards t) = length (tj_steps t))
    (added_trajectories s s').
Proof.
  intros s'.
  destruct (test_agent_counters W test_env_ n random_init greedy_ratio s)
    as (new & (_ & _ & Hgh & _) & Hends & _).
  unfold s'. rewrite (added_trajectories_app _ _ _ Hgh).
  eapply Forall_impl; [exact Hends |].
  intros t Ht. split; [exact Ht |].
  unfold traj_observations, traj_rewards.
  rewrite !length_rev, !length_map. split; reflexivity.
Qed.

(** X20.  Every evaluated step of [test_agent] runs the policy on the weights
    the agent had when the call started: one uniform draw is compared with
    [greedy_ratio]; when it does not exceed it the greedy action and
    recurrent state of [ac.act] are taken, otherwise those of
    [ac.explore], in both cases from the observation, the previous action
    and reward and the recurrent state recorded with the step. *)
Theorem evaluation_steps_follow_the_draw (W : World)
    (test_env_ n random_init : nat) (greedy_ratio : Q) (s : SAC) :
  let s' := snd (test_agent W test_env_ n random_init greedy_ratio s) in
  Forall (eval_step_rule W greedy_ratio (online_theta s))
    (trace_steps (added_trajectories s s')).
Proof.
  intros s'.
  destruct (test_agent_counters W test_env_ n random_init greedy_ratio s)
    as (new & (_ & _ & Hgh & _ & Hrules) & _).
  unfold s'. now rewrite (added_trajectories_app _ _ _ Hgh).
Qed.

(** ** Logging and checkpoints *)

Local Open Scope string_scope.

Lemma board_scalars_written (get_stats : String.string -> Q * Q) (t : nat)
    (key val : String.string) :
  Forall (written_at t) (board_scalars get_stats t key val) /\
  List.filter is_save (board_scalars get_stats t key val) = nil.
Proof.
  unfold board_scalars. destruct (get_stats val) as [m sd].
  destruct (String.eqb key "Performance"); split;
    repeat constructor.
Qed.

Lemma update_tensorboard_written (get_stats : String.string -> Q * Q) (t : nat)
    (board : list (String.string * list String.string)) :
  Forall (written_at t) (update_tensorboard get_stats t board) /\
  List.filter is_save (update_tensorboard get_stats t board) = nil.
Proof.
  unfold update_tensorboard.
  induction board as [| [key vals] board [IH1 IH2]]; simpl.
  - split; [constructor | reflexivity].
  - assert (H : Forall (written_at t) (flat_map (board_scalars get_stats t key) vals)
                /\ List.filter is_save (flat_map (board_scalars get_stats t key) vals)
                   = nil).
    { induction vals as [| v vals [IHv1 IHv2]]; simpl.
      - split; [constructor | reflexivity].
      - destruct (board_scalars_written get_stats t key v) as [B1 B2].
        split; [apply Forall_app; split; assumption |].
        rewrite List.filter_app, B2, IHv2. reflexivity. }
    destruct H as [H1 H2]. split.
    + apply Forall_app. split; assumption.
    + rewrite List.filter_app, H2, IH2. reflexivity.
Qed.

(** X21.  [_log_trial] divides by [save_freq = save_every_n_update * update_every]
    before it writes anything: with [save_every_n_update = 0] it raises
    [ZeroDivisionError] and nothing was saved or logged.  Otherwise it
    returns, writes all its scalars at the step
    [(epoch * number_of_trajectories + trajectory) * max_ep_len], and saves
    the model exactly when [trajectory + 1] is a multiple of [save_freq] or
    is [number_of_trajectories], under the label of the epoch and the
    trajectory. *)
Theorem log_trial_checkpoints (k : nat) (cfg : Config) (env_ : nat)
    (get_stats : String.string -> Q * Q) (epoch trajectory : nat) :
  if save_freq k cfg =? 0
  then _log_trial k cfg env_ get_stats epoch trajectory = Raise ZeroDivisionError
  else exists calls,
    _log_trial k cfg env_ get_stats epoch trajectory = Ok calls /\
    Forall (written_at (trial_step cfg epoch trajectory)) calls /\
    List.filter is_save calls
    = (if ((trajectory + 1) mod save_freq k cfg =? 0)
          || (trajectory + 1 =? number_of_trajectories cfg)
       then LSaveState env_ (Some (epoch, trajectory)) :: nil
       else nil).
Proof.
  unfold _log_trial, py_mod.
  destruct (save_freq k cfg =? 0) eqn:E; [reflexivity |].
  cbn [rbind]. eexists. split; [reflexivity |].
  fold (trial_step cfg epoch trajectory).
  match goal with
  | |- context [update_tensorboard get_stats ?t ?b] =>
      destruct (update_tensorboard_written get_stats t b) as [U1 U2]
  end.
  split.
  - apply Forall_app. split.
    + destruct (_ || _); repeat constructor.
    + apply Forall_app. split; [exact U1 | repeat constructor].
  - rewrite !List.filter_app, U2.
    destruct (_ || _); reflexivity.
Qed.

(** X22.  [train_agent] calls [_log_trial] right after an [update], that is when
    [trajectory + 1] is a multiple of [update_every].  With
    [save_every_n_update = 1] every such call saves the model.  In general
    the last trajectory of an epoch is saved only if an update is due
    there, that is only if [number_of_trajectories] is a multiple of
    [update_every]. *)
Theorem log_trial_after_update (k : nat) (cfg : Config) (env_ : nat)
    (get_stats : String.string -> Q * Q) (epoch trajectory : nat) :
  update_due (update_every cfg) trajectory = Ok true ->
  (k = 1 ->
   exists calls,
     _log_trial k cfg env_ get_stats epoch trajectory = Ok calls /\
     In (LSaveState env_ (Some (epoch, trajectory))) calls) /\
  (trajectory + 1 = number_of_trajectories cfg ->
   number_of_trajectories cfg mod update_every cfg = 0).
Proof.
  intros Hdue.
  assert (Hu : 0 < update_every cfg /\ (trajectory + 1) mod update_every cfg = 0).
  { unfold update_due in Hdue.
    destruct (update_every cfg <=? trajectory + 1); [| discriminate].
    destruct (Nat.eqb_spec (update_every cfg) 0); [discriminate |].
    inversion Hdue as [H]. apply Nat.eqb_eq in H. split; [lia | exact H]. }
  destruct Hu as [Hpos Hmod]. split.
  - intros ->. unfold _log_trial, py_mod, save_freq. rewrite Nat.mul_1_l.
    destruct (Nat.eqb_spec (update_every cfg) 0); [lia |].
    cbn [rbind]. rewrite Hmod. cbn [Nat.eqb orb].
    eexists. split; [reflexivity |]. left. reflexivity.
  - intros <-. exact Hmod.
Qed.

(** X23.  The steps [_log_trial] writes at grow with the position in the run:
    for trajectories inside their epochs and a positive [max_ep_len], a
    later trajectory (a later epoch, or the same epoch and a later
    trajectory) is logged at a strictly larger step. *)
Theorem log_trial_steps_increase (cfg : Config)
    (epoch trajectory epoch' trajectory' : nat) :
  0 < max_ep_len cfg ->
  trajectory < number_of_trajectories cfg ->
  trajectory' < number_of_trajectories cfg ->
  epoch < epoch' \/ (epoch = epoch' /\ trajectory < trajectory') ->
  trial_step cfg epoch trajectory < trial_step cfg epoch' trajectory'.
Proof.
  intros Hm Ht Ht' Hlt. unfold trial_step.
  apply Nat.mul_lt_mono_pos_r; [exact Hm |].
  destruct Hlt as [He | [-> Hl]]; [| lia].
  assert (H : (epoch + 1) * number_of_trajectories cfg
              <= epoch' * number_of_trajectories cfg)
    by (apply Nat.mul_le_mono_r; lia).
  lia.
Qed.

(** X24.  [_log_test_trial t], which [test_agent] calls with
    [self.global_test_steps] before it returns, divides by
    [steps_per_epoch = number_of_trajectories * max_ep_len] and then by
    [save_freq]: it raises [ZeroDivisionError] when one of them is zero,
    before anything is written.  Otherwise it returns, writes its scalars
    at step [t], and saves the model exactly when
    [trial = (t + 1) // steps_per_epoch] is a multiple of [save_freq] or is
    [epochs]. *)
Theorem log_test_trial_checkpoints (k : nat) (cfg : Config) (env_ : nat)
    (get_stats : String.string -> Q * Q) (t : nat) :
  if (steps_per_epoch cfg =? 0) || (save_freq k cfg =? 0)
  then _log_test_trial k cfg env_ get_stats t = Raise ZeroDivisionError
  else exists calls,
    let trial := (t + 1) / steps_per_epoch cfg in
    _log_test_trial k cfg env_ get_stats t = Ok calls /\
    Forall (written_at t) calls /\
    length (List.filter is_scalar calls) = 4 /\
    List.filter is_save calls
    = (if (trial mod save_freq k cfg =? 0) || (trial =? epochs cfg)
       then LSaveState env_ None :: nil
       else nil).
Proof.
  unfold _log_test_trial, py_floordiv, py_mod.
  destruct (steps_per_epoch cfg =? 0) eqn:E1; [reflexivity |].
  cbn [rbind orb].
  destruct (save_freq k cfg =? 0) eqn:E2; [reflexivity |].
  cbn [rbind]. eexists. cbv zeta. split; [reflexivity |].
  split; [| split].
  - apply Forall_app. split.
    + destruct (_ || _); repeat constructor.
    + apply update_tensorboard_written.
  - rewrite List.filter_app. unfold update_tensorboard, board_scalars. cbn.
    destruct (_ || _); destruct (get_stats "TestEpRew"), (get_stats "TestEpLen");
      reflexivity.
  - rewrite List.filter_app.
    destruct (update_tensorboard_written get_stats t
                (("Performance", "TestEpRew" :: "TestEpLen" :: nil) :: nil))
      as [_ U2].
    rewrite U2. destruct (_ || _); reflexivity.
Qed.

Local Close Scope string_scope.

(** ** Further properties at work *)

Lemma target_network_discipline_witness :
  init demo_world demo_cfg demo_model 0 = Ok demo_agent /\
  updates_only demo_world demo_cfg demo_learner
    (learner (snd (train_agent demo_world 0 demo_agent))) /\
  frozen (learner (snd (train_agent demo_world 0 demo_agent))) /\
  excluded (learner (snd (train_agent demo_world 0 demo_agent))) /\
  map Qred
    (data (param_at (heap (learner (snd (train_agent demo_world 0 demo_agent))))
             4))
  = (19 # 20)%Q :: nil.
Proof.
  destruct (target_network_discipline demo_world demo_cfg demo_model 0)
    as (s0 & E & _ & _ & _ & Hr & Hu);
    [discriminate | simpl; lia | simpl; lia |].
  rewrite demo_init in E. inversion E; subst s0. cbv zeta in Hr, Hu.
  split; [reflexivity |].
  pose proof (Hr _ (reach_train demo_world demo_agent demo_agent 0
                      (reach_init demo_world demo_agent))) as H1.
  split; [exact H1 |].
  destruct (Hu _ H1) as (Hf & He & _).
  split; [exact Hf |]. split; [exact He |].
  vm_compute. reflexivity.
Defined.

Lemma stored_done_flag_witness :
  exists t r,
    In t (added_trajectories demo_agent_one_step
            (snd (train_agent demo_world_ending 0 demo_agent_one_step))) /\
    rev (tj_steps t) !! 0 = Some r /\
    sr_terminated r = true /\
    t_done (sr_step r) = false /\
    In (sr_step r)
      (stored (buffer (snd (train_agent demo_world_ending 0 demo_agent_one_step)))) /\
    map t_done
      (stored (buffer (snd (train_agent demo_world_ending 0 demo_agent_two_steps))))
    = true :: true :: nil.
Proof.
  pose proof (stored_done_flag demo_world_ending 0 demo_agent_one_step) as T.
  cbv zeta in T. destruct T as (_ & _ & _ & Hsto & _ & H).
  destruct (added_trajectories demo_agent_one_step
              (snd (train_agent demo_world_ending 0 demo_agent_one_step)))
    as [| t new'] eqn:En; [vm_compute in En; discriminate En |].
  destruct (rev (tj_steps t)) as [| r rest] eqn:Er.
  { vm_compute in En. inversion En; subst t. vm_compute in Er. discriminate Er. }
  assert (Hlook : rev (tj_steps t) !! 0 = Some r) by (now rewrite Er).
  destruct (H t (or_introl eq_refl) 0 r Hlook) as (_ & _ & _ & Hd).
  exists t, r. split; [left; reflexivity |]. split; [exact Hlook |].
  split.
  { vm_compute in En. inversion En; subst t. vm_compute in Er.
    inversion Er; subst r. reflexivity. }
  split; [exact Hd |].
  split.
  { rewrite Hsto. apply in_or_app. right. apply in_map.
    cbn [trace_steps]. apply in_or_app. right. rewrite Er. now left. }
  vm_compute. reflexivity.
Defined.

Lemma finish_path_once_per_trajectory_witness :
  fst (train_agent demo_world 0 demo_agent) = Ok tt /\
  length (added_trajectories demo_agent (snd (train_agent demo_world 0 demo_agent)))
  = 2 /\
  finish_path_calls (buffer (snd (train_agent demo_world 0 demo_agent))) = 2 /\
  map is_finish_path
    (rollout_calls (buffer (snd (train_agent demo_world 0 demo_agent))))
  = false :: false :: true :: false :: false :: true :: nil.
Proof.
  pose proof (finish_path_once_per_trajectory demo_world 0 demo_agent) as T.
  cbv zeta in T. destruct T as (_ & Hlen & _ & _ & _ & Hpos & _).
  assert (Hok : fst (train_agent demo_world 0 demo_agent) = Ok tt)
    by (vm_compute; reflexivity).
  split; [exact Hok |].
  split; [exact (Hlen Hok) |].
  destruct (Hpos ltac:(simpl; lia)) as [_ Hcalls].
  split; [rewrite Hcalls, (Hlen Hok); reflexivity |].
  vm_compute. reflexivity.
Defined.


Lemma critic_backup_done_row_witness :
  exists backup,
    critic_backup demo_world demo_cfg demo_learner demo_batch_flat
      (view_col (b_rew demo_batch_flat))
      (mkT 1 2 (fun _ j => at_ (b_hid_out demo_batch_flat) (j / 2) (j mod 2)))
    = Ok backup /\
    shape backup = (2, 2) /\
    Qred (at_ backup 0 1) = 1%Q /\ Qred (at_ backup 1 0) = (199 # 50)%Q.
Proof.
  edestruct (critic_backup_done_row demo_world demo_cfg demo_learner
               demo_batch_flat
               (mkT 1 2 (fun _ j => at_ (b_hid_out demo_batch_flat) (j / 2) (j mod 2)))
               (b_obs2 demo_batch_flat)
               (mkT 1 2 (fun _ j => at_ (b_hid_out demo_batch_flat) (j / 2) (j mod 2)))
               (mkT 2 1 (fun _ _ => 0%Q))
               (mkT 2 2 (fun _ _ => (1 # 2)%Q))
               (mkT 2 2 (fun _ _ => (- (1))%Q)) 2 2)
    as ((backup & E & S & A) & _); try reflexivity.
  exists backup. split; [exact E |]. split; [exact S |].
  rewrite (A 0 1), (A 1 0) by lia. split; reflexivity.
Defined.

Lemma critic_info_reports_first_critic_witness :
  exists loss info,
    compute_critic_loss demo_world demo_cfg demo_learner demo_batch
    = Ok (loss, info) /\ snd info = fst info.
Proof.
  destruct (compute_critic_loss demo_world demo_cfg demo_learner demo_batch)
    as [[loss info] | e] eqn:E.
  - exists loss, info. split; [reflexivity |].
    destruct (critic_info_reports_first_critic _ _ _ _ _ _ E)
      as (q1 & _ & H1 & H2).
    now rewrite H1, H2.
  - vm_compute in E. discriminate E.
Defined.

Lemma compute_policy_loss_objective_witness :
  exists loss logp,
    compute_policy_loss demo_world demo_cfg demo_learner demo_batch
    = Ok (loss, logp) /\
    Qred (loss_value loss) = (- (29 # 20))%Q.
Proof.
  edestruct (compute_policy_loss_objective demo_world demo_cfg demo_learner
               demo_batch
               (mkT 1 2 (fun _ j => at_ (b_hid demo_batch) (j / 2) (j mod 2)))
               (b_obs demo_batch)
               (mkT 1 2 (fun _ j => at_ (b_hid demo_batch) (j / 2) (j mod 2)))
               (mkT 2 1 (fun _ _ => 0%Q))
               (mkT 2 2 (fun _ _ => (1 # 2)%Q))
               (mkT 2 2 (fun _ _ => (- (1))%Q)) 2 2)
    as (loss & E & V); try reflexivity.
  exists loss, (mkT 2 2 (fun _ _ => (- (1))%Q)). split; [exact E |].
  rewrite V. reflexivity.
Defined.

Lemma critic_step_moves_critics_only_witness :
  data (param_at
          (heap (snd (critic_step demo_world demo_cfg demo_batch demo_learner))) 0)
  = data (param_at (heap demo_learner) 0).
Proof.
  apply (critic_step_moves_critics_only demo_world demo_cfg demo_model
           demo_learner demo_learner demo_batch demo_learner_init
           (po_refl demo_cfg demo_learner)).
  intros H. apply list_elem_of_In in H. simpl in H. intuition lia.
Defined.

Lemma policy_step_spares_critics_witness :
  data (param_at
          (heap (snd (policy_step demo_world demo_cfg demo_batch demo_learner))) 1)
  = data (param_at (heap demo_learner) 1).
Proof.
  apply (proj2 (policy_step_spares_critics demo_world demo_cfg demo_model
                  demo_learner demo_learner demo_batch demo_learner_init
                  (po_refl demo_cfg demo_learner))).
  apply list_elem_of_In. simpl. auto.
Defined.

Lemma critic_step_rescales_stale_policy_gradients_witness :
  grad (param_at
          (heap (snd (critic_step demo_world demo_cfg demo_batch
                        demo_learner_updated))) 0)
  = option_map
      (map (fun x => x * clip_coef demo_world (S (clock demo_learner_updated))
                          (clip_ratio demo_cfg))%Q)
      (grad (param_at (heap demo_learner_updated) 0)).
Proof.
  apply (critic_step_rescales_stale_policy_gradients demo_world demo_cfg
           demo_model demo_learner demo_learner_updated demo_batch
           demo_learner_init
           (update_on_polyak_only demo_world demo_cfg (demo_batch :: nil)
              demo_learner
              (proj1 (init_learner_inv _ _ _ _ demo_learner_init)))).
  - vm_compute. reflexivity.
  - apply list_elem_of_In. simpl. auto.
Defined.

Lemma temperature_follows_log_alpha_witness :
  alpha (learner (snd (train_agent demo_world 0 demo_agent))) = 0.2%Q.
Proof.
  exact (temperature_follows_log_alpha demo_world demo_cfg demo_model 0
           demo_agent (snd (train_agent demo_world 0 demo_agent)) demo_init
           (reach_train demo_world demo_agent demo_agent 0
              (reach_init demo_world demo_agent))).
Defined.


Lemma update_needs_one_state_per_episode_witness :
  fst (update demo_world demo_ready) = Ok tt /\
  buffer_get demo_world (buffer demo_ready) (batch_size (cfg demo_ready)) <> nil.
Proof.
  assert (H : fst (update demo_world demo_ready) = Ok tt)
    by (vm_compute; reflexivity).
  split; [exact H |].
  apply (update_needs_one_state_per_episode demo_world demo_ready H).
Defined.

Lemma train_agent_tallies_witness :
  fst (train_agent demo_world 0 demo_agent) = Ok tt /\
  length (added_trajectories demo_agent (snd (train_agent demo_world 0 demo_agent)))
  = 2 /\
  get_calls (buffer (snd (train_agent demo_world 0 demo_agent))) = 1.
Proof.
  assert (H : fst (train_agent demo_world 0 demo_agent) = Ok tt)
    by (vm_compute; reflexivity).
  split; [exact H |].
  destruct (train_agent_tallies demo_world 0 demo_agent H) as (H1 & H2 & _).
  split; [exact H1 | exact H2].
Defined.

Lemma train_agent_zero_update_every_witness :
  fst (train_agent demo_world 0 demo_agent_never) = Raise ZeroDivisionError /\
  length (added_trajectories demo_agent_never
            (snd (train_agent demo_world 0 demo_agent_never))) = 1.
Proof.
  destruct (train_agent_zero_update_every demo_world 0 demo_agent_never)
    as (H1 & H2 & _); [reflexivity | simpl; lia | simpl; lia |].
  split; [exact H1 | exact H2].
Defined.

Lemma log_trial_after_update_witness :
  update_due (update_every demo_cfg) 1 = Ok true /\
  exists calls,
    _log_trial 1 demo_cfg 0 (fun _ => (0%Q, 0%Q)) 0 1 = Ok calls /\
    In (LSaveState 0 (Some (0, 1))) calls.
Proof.
  assert (H : update_due (update_every demo_cfg) 1 = Ok true) by reflexivity.
  split; [exact H |].
  apply (log_trial_after_update 1 demo_cfg 0 (fun _ => (0%Q, 0%Q)) 0 1 H).
  reflexivity.
Defined.

Lemma log_trial_steps_increase_witness :
  trial_step demo_cfg 0 1 < trial_step demo_cfg 1 0.
Proof.
  apply (log_trial_steps_increase demo_cfg 0 1 1 0); simpl; lia.
Defined.
